(** * Additive multimodal log-bilinear model (lm/mlbl.py)

    A shallow embedding of the trainer [MLBL]: the forward pass, the manual
    backward pass, the momentum update, the hyper-parameter schedule and the
    training loop, followed by the properties established about them.

    Modelling conventions.
    - The source is Python 2: [/] between two ints is floor division, and
      [range] needs an int.
    - numpy float64 values are elements of a carrier [num] given by an
      instance of [Scalar].  Two instances are used: [Rs], the real numbers
      (exact arithmetic, no rounding, no special values), and [Xs], the reals
      extended with the IEEE special values +Inf, -Inf and NaN.  Rounding is
      modelled by neither.
    - A numpy matrix is a list of rows.  numpy raises [ValueError] when the
      shapes of two operands disagree; the embedding is written for operands
      whose shapes agree and reads missing entries as [0].  Index errors
      ([IndexError], [KeyError]), division of Python numbers by zero and
      reductions of empty rows are modelled: a computation that raises
      returns [None].
    - Attributes that the source assigns after construction (parameters,
      momentum buffers, gradients, [step], [epoch], [start]) are fields of
      the record [mlbl] from the start. *)

From Stdlib Require Import String.
From Stdlib Require Import List ZArith Bool Lia Reals Lra Permutation.
Import ListNotations.

Set Implicit Arguments.

(** The record of the model has a field [R]; the type of real numbers is
    written [real]. *)
Abbreviation real := R (only parsing).

(** ** Error monad *)

Definition bind {A B : Type} (m : option A) (k : A -> option B) : option B :=
  match m with
  | Some a => k a
  | None => None
  end.

Declare Scope err_scope.
Delimit Scope err_scope with err.
Notation "x <- m ;; k" := (bind m (fun x => k))
  (at level 61, m at next level, right associativity) : err_scope.
Notation "' p <- m ;; k" := (bind m (fun x => let p := x in k))
  (at level 61, p pattern, m at next level, right associativity) : err_scope.
Open Scope err_scope.

Fixpoint mapM {A B : Type} (f : A -> option B) (l : list A) : option (list B) :=
  match l with
  | [] => Some []
  | a :: l' => b <- f a ;; bs <- mapM f l' ;; Some (b :: bs)
  end.

(** ** Scalars *)

Class Scalar : Type := {
  num : Type;
  s_add : num -> num -> num;
  s_sub : num -> num -> num;
  s_mul : num -> num -> num;
  s_div : num -> num -> num;      (* numpy division: x/0 is Inf or NaN *)
  s_exp : num -> num;
  s_sqrt : num -> num;
  s_gt : num -> num -> bool;      (* x > y *)
  s_ge : num -> num -> bool;      (* x >= y *)
  s_max : num -> num -> num;      (* np.maximum: NaN propagates *)
  s_isnan : num -> bool;          (* np.isnan *)
  s_of_Z : Z -> num               (* int -> float conversion *)
}.

(** ** Python numbers and indices *)

Section Python.
Context {F : Scalar}.

(** A Python number whose type is decided by the caller: int or float. *)
Inductive pynum : Type :=
| PyInt (n : Z)
| PyFloat (x : num).

Definition to_float (a : pynum) : num :=
  match a with
  | PyInt n => s_of_Z n
  | PyFloat x => x
  end.

Definition py_is_zero (a : pynum) : bool :=
  match a with
  | PyInt n => (n =? 0)%Z
  | PyFloat x => negb (s_gt x (s_of_Z 0)) && negb (s_gt (s_of_Z 0) x)
                 && negb (s_isnan x)
  end.

(** [n / d] for an int [n]: floor division by an int, true division by a
    float, [ZeroDivisionError] when [d] is zero. *)
Definition py_int_div (n : Z) (d : pynum) : option pynum :=
  if py_is_zero d then None
  else match d with
       | PyInt m => Some (PyInt (n / m))
       | PyFloat x => Some (PyFloat (s_div (s_of_Z n) x))
       end.

(** [x / n] for a Python float [x] and an int [n]. *)
Definition py_float_div (x : num) (n : Z) : option num :=
  if (n =? 0)%Z then None else Some (s_div x (s_of_Z n)).

(** [1 - q] for a Python number [q]. *)
Definition py_one_minus (q : pynum) : pynum :=
  match q with
  | PyInt n => PyInt (1 - n)
  | PyFloat x => PyFloat (s_sub (s_of_Z 1) x)
  end.

(** [step < T] for an int [step]. *)
Definition py_int_lt (n : Z) (d : pynum) : bool :=
  match d with
  | PyInt m => (n <? m)%Z
  | PyFloat x => s_gt x (s_of_Z n)
  end.

(** Index [i] into a sequence of length [len]: negative indices count from
    the end, anything else out of range raises. *)
Definition py_index (len : nat) (i : Z) : option nat :=
  if ((0 <=? i) && (i <? Z.of_nat len))%Z then Some (Z.to_nat i)
  else if ((- Z.of_nat len <=? i) && (i <? 0))%Z
       then Some (Z.to_nat (Z.of_nat len + i))
       else None.

(** [np.mod a b] on ints: sign of the divisor, [0] when [b] is [0]. *)
Definition np_mod (a b : Z) : Z :=
  if (b =? 0)%Z then 0%Z else (a mod b)%Z.

End Python.

(** ** Dense arrays *)

Abbreviation vec := (list num).
Abbreviation mat := (list (list num)).            (* rows *)
Abbreviation tensor := (list (list (list num))).  (* leading axis first *)

Section Arrays.
Context {F : Scalar}.

Definition zero : num := s_of_Z 0.
Definition one : num := s_of_Z 1.

Definition zip_with {A B C : Type} (f : A -> B -> C) (u : list A) (v : list B)
  : list C :=
  map (fun p => f (fst p) (snd p)) (combine u v).

(** [np.sum] of a vector. *)
Definition vsum (v : vec) : num := fold_left s_add v zero.

Definition dotp (u v : vec) : num := vsum (zip_with s_mul u v).

Definition ncols (A : mat) : nat := length (hd [] A).

(** Entry [A[i,j]]. *)
Definition get (A : mat) (i j : nat) : num := nth j (nth i A []) zero.

(** Column [A[:,j]]. *)
Definition col (A : mat) (j : nat) : vec := map (fun r => nth j r zero) A.

(** Shapes: [m] rows of [n] entries; [c] matrices of that shape. *)
Definition shape (m n : nat) (A : mat) : Prop :=
  length A = m /\ Forall (fun r => length r = n) A.

Definition shape3 (c m n : nat) (A : tensor) : Prop :=
  length A = c /\ Forall (shape m n) A.


(** [A.T] *)
Definition transpose (A : mat) : mat := map (col A) (seq 0 (ncols A)).

(** [np.dot(A, B)] *)
Definition dot (A B : mat) : mat :=
  map (fun r => map (fun j => dotp r (col B j)) (seq 0 (ncols B))) A.

(** [np.zeros((m, n))] *)
Definition zeros (m n : nat) : mat := repeat (repeat zero n) m.

Definition vec_add (u v : vec) : vec := zip_with s_add u v.
Definition mat_add (A B : mat) : mat := zip_with vec_add A B.
Definition mat_sub (A B : mat) : mat := zip_with (zip_with s_sub) A B.
Definition mat_mul (A B : mat) : mat := zip_with (zip_with s_mul) A B.
Definition mat_scale (c : num) (A : mat) : mat := map (map (s_mul c)) A.

Definition tensor_add (A B : tensor) : tensor := zip_with mat_add A B.
Definition tensor_sub (A B : tensor) : tensor := zip_with mat_sub A B.
Definition tensor_scale (c : num) (A : tensor) : tensor := map (mat_scale c) A.

(** [A + b] with [b] of shape (1, n) broadcast over the rows of [A]. *)
Definition add_row (A : mat) (b : mat) : mat :=
  map (fun r => vec_add r (hd [] b)) A.

(** [np.sum(A, 0)]: the vector of column sums. *)
Definition colsum (A : mat) : vec :=
  map (fun j => vsum (col A j)) (seq 0 (ncols A)).

(** [A > 0] as a 0/1 array. *)
Definition positive (x : num) : num := if s_gt x zero then one else zero.
Definition mat_positive (A : mat) : mat := map (map positive) A.

(** [A[:,v] += u]: entry [k] of [u] is added to row [k] at column [v]. *)
Definition add_to_col (A : mat) (v : nat) (u : vec) : mat :=
  zip_with
    (fun k r =>
       zip_with (fun j x => if Nat.eqb j v then s_add x (nth k u zero) else x)
                (seq 0 (length r)) r)
    (seq 0 (length A)) A.

(** [A[i] = B] on a list of matrices; [IndexError] past the end. *)
Fixpoint set_item (A : tensor) (i : nat) (B : mat) : option tensor :=
  match A, i with
  | [], _ => None
  | _ :: A', O => Some (B :: A')
  | a :: A', S i' => A'' <- set_item A' i' B ;; Some (a :: A'')
  end.

(** [A * c] and [A / c] for an array [A] and a scalar [c]. *)
Definition mat_scale_r (A : mat) (c : num) : mat :=
  map (map (fun x => s_mul x c)) A.
Definition mat_div (A : mat) (c : num) : mat :=
  map (map (fun x => s_div x c)) A.

(** [A.reshape((m, n))] of a flat array, and [v.reshape((m, n), order='F')]. *)
Definition reshape (m n : nat) (l : vec) : mat :=
  map (fun i => firstn n (skipn (i * n) l)) (seq 0 m).
Definition reshape_F (m n : nat) (v : vec) : mat :=
  map (fun i => map (fun j => nth (i + m * j) v zero) (seq 0 n)) (seq 0 m).

(** [A.flatten(order='F')]: the columns of [A] one after the other. *)
Definition flatten_F (A : mat) : vec := concat (transpose A).

(** [r.max()] of one row; numpy raises on an empty row. *)
Definition row_max (r : vec) : option num :=
  match r with
  | [] => None
  | x :: r' => Some (fold_left s_max r' x)
  end.

End Arrays.

(** ** The model object *)

Section Model.
Context {F : Scalar}.

Record mlbl : Type := {
  name : string;
  loc : string;
  dropout : num;
  seed : Z;
  k : Z;
  V : nat;
  K : nat;
  D : nat;
  h : nat;
  context : nat;
  batchsize : nat;
  maxepoch : nat;
  eta_t : num;
  gamma_r : num;
  gamma_c : num;
  f : num;
  p_i : num;
  p_f : num;
  T : pynum;
  verbose : Z;
  p_t : num;
  (* parameters *)
  R : mat;          (* K x V *)
  C : tensor;       (* context x K x K *)
  bw : mat;         (* 1 x V *)
  M : mat;          (* h x K *)
  J : mat;          (* D x h *)
  bj : mat;         (* 1 x h *)
  (* momentum buffers *)
  deltaR : mat;
  deltaC : tensor;
  deltaB : mat;
  deltaM : mat;
  deltaJ : mat;
  deltaBj : mat;
  (* gradients *)
  dR : mat;
  dM : mat;
  db : vec;
  dC : tensor;
  dJ : mat;
  dBj : vec;
  (* counters *)
  step : Z;
  epoch : nat;
  start : Z
}.

(** Attribute assignments. *)

Definition set_params (self : mlbl) (R' : mat) (C' : tensor) (bw' M' J' bj' : mat)
  (deltaR' : mat) (deltaC' : tensor) (deltaB' deltaM' deltaJ' deltaBj' : mat)
  : mlbl :=
  {| name := self.(name); loc := self.(loc); dropout := self.(dropout);
     seed := self.(seed); k := self.(k); V := self.(V); K := self.(K);
     D := self.(D); h := self.(h); context := self.(context);
     batchsize := self.(batchsize); maxepoch := self.(maxepoch);
     eta_t := self.(eta_t); gamma_r := self.(gamma_r);
     gamma_c := self.(gamma_c); f := self.(f); p_i := self.(p_i);
     p_f := self.(p_f); T := self.(T); verbose := self.(verbose);
     p_t := self.(p_t);
     R := R'; C := C'; bw := bw'; M := M'; J := J'; bj := bj';
     deltaR := deltaR'; deltaC := deltaC'; deltaB := deltaB';
     deltaM := deltaM'; deltaJ := deltaJ'; deltaBj := deltaBj';
     dR := self.(dR); dM := self.(dM); db := self.(db); dC := self.(dC);
     dJ := self.(dJ); dBj := self.(dBj);
     step := self.(step); epoch := self.(epoch); start := self.(start) |}.

Definition set_grads (self : mlbl) (dR' dM' : mat) (db' : vec) (dC' : tensor)
  (dJ' : mat) (dBj' : vec) : mlbl :=
  {| name := self.(name); loc := self.(loc); dropout := self.(dropout);
     seed := self.(seed); k := self.(k); V := self.(V); K := self.(K);
     D := self.(D); h := self.(h); context := self.(context);
     batchsize := self.(batchsize); maxepoch := self.(maxepoch);
     eta_t := self.(eta_t); gamma_r := self.(gamma_r);
     gamma_c := self.(gamma_c); f := self.(f); p_i := self.(p_i);
     p_f := self.(p_f); T := self.(T); verbose := self.(verbose);
     p_t := self.(p_t);
     R := self.(R); C := self.(C); bw := self.(bw); M := self.(M);
     J := self.(J); bj := self.(bj);
     deltaR := self.(deltaR); deltaC := self.(deltaC);
     deltaB := self.(deltaB); deltaM := self.(deltaM);
     deltaJ := self.(deltaJ); deltaBj := self.(deltaBj);
     dR := dR'; dM := dM'; db := db'; dC := dC'; dJ := dJ'; dBj := dBj';
     step := self.(step); epoch := self.(epoch); start := self.(start) |}.

(** Assigns [eta_t], [p_t], [step], [epoch] and [start]. *)
Definition set_sched (self : mlbl) (eta' pt' : num) (step' : Z) (epoch' : nat)
  (start' : Z) : mlbl :=
  {| name := self.(name); loc := self.(loc); dropout := self.(dropout);
     seed := self.(seed); k := self.(k); V := self.(V); K := self.(K);
     D := self.(D); h := self.(h); context := self.(context);
     batchsize := self.(batchsize); maxepoch := self.(maxepoch);
     eta_t := eta'; gamma_r := self.(gamma_r);
     gamma_c := self.(gamma_c); f := self.(f); p_i := self.(p_i);
     p_f := self.(p_f); T := self.(T); verbose := self.(verbose);
     p_t := pt';
     R := self.(R); C := self.(C); bw := self.(bw); M := self.(M);
     J := self.(J); bj := self.(bj);
     deltaR := self.(deltaR); deltaC := self.(deltaC);
     deltaB := self.(deltaB); deltaM := self.(deltaM);
     deltaJ := self.(deltaJ); deltaBj := self.(deltaBj);
     dR := self.(dR); dM := self.(dM); db := self.(db); dC := self.(dC);
     dJ := self.(dJ); dBj := self.(dBj);
     step := step'; epoch := epoch'; start := start' |}.

Definition set_step (self : mlbl) (step' : Z) : mlbl :=
  set_sched self self.(eta_t) self.(p_t) step' self.(epoch) self.(start).
Definition set_epoch (self : mlbl) (epoch' : nat) : mlbl :=
  set_sched self self.(eta_t) self.(p_t) self.(step) epoch' self.(start).
Definition set_start (self : mlbl) (start' : Z) : mlbl :=
  set_sched self self.(eta_t) self.(p_t) self.(step) self.(epoch) start'.

(** *** update_params *)

(** [p_t * delta - (1 - p_t) * (eta_t / batchsize) * grad], the quotient
    [eta_t / batchsize] being [q]. *)
Definition momentum (pt q : num) (delta grad : mat) : mat :=
  mat_sub (mat_scale pt delta) (mat_scale (s_mul (s_sub one pt) q) grad).

Definition momentum3 (pt q : num) (delta grad : tensor) : tensor :=
  tensor_sub (tensor_scale pt delta)
             (tensor_scale (s_mul (s_sub one pt) q) grad).


(** Every parameter, its momentum buffer and its gradient have the shape
    the model's dimensions give them. *)
Definition update_shaped (self : mlbl) : Prop :=
  (shape self.(K) self.(V) self.(R) /\
   shape self.(K) self.(V) self.(deltaR) /\
   shape self.(K) self.(V) self.(dR)) /\
  (shape3 self.(context) self.(K) self.(K) self.(C) /\
   shape3 self.(context) self.(K) self.(K) self.(deltaC) /\
   shape3 self.(context) self.(K) self.(K) self.(dC)) /\
  (shape 1 self.(V) self.(bw) /\
   shape 1 self.(V) self.(deltaB) /\
   length self.(db) = self.(V)) /\
  (shape self.(h) self.(K) self.(M) /\
   shape self.(h) self.(K) self.(deltaM) /\
   shape self.(h) self.(K) self.(dM)) /\
  (shape self.(D) self.(h) self.(J) /\
   shape self.(D) self.(h) self.(deltaJ) /\
   shape self.(D) self.(h) self.(dJ)) /\
  (shape 1 self.(h) self.(bj) /\
   shape 1 self.(h) self.(deltaBj) /\
   length self.(dBj) = self.(h)).

Definition update_params (self : mlbl) (X : list (list Z)) : option mlbl :=
  let batchsize := Z.of_nat (length X) in
  q <- py_float_div self.(eta_t) batchsize ;;
  let deltaC' := momentum3 self.(p_t) q self.(deltaC) self.(dC) in
  let deltaR' := momentum self.(p_t) q self.(deltaR) self.(dR) in
  let deltaB' := momentum self.(p_t) q self.(deltaB) [self.(db)] in
  let deltaM' := momentum self.(p_t) q self.(deltaM) self.(dM) in
  let deltaJ' := momentum self.(p_t) q self.(deltaJ) self.(dJ) in
  let deltaBj' := momentum self.(p_t) q self.(deltaBj) [self.(dBj)] in
  Some (set_params self
          (mat_add self.(R) deltaR') (tensor_add self.(C) deltaC')
          (mat_add self.(bw) deltaB') (mat_add self.(M) deltaM')
          (mat_add self.(J) deltaJ') (mat_add self.(bj) deltaBj')
          deltaR' deltaC' deltaB' deltaM' deltaJ' deltaBj').

(** *** update_hyperparams *)

(** [(1 - (n / T)) * p_i + (n / T) * p_f] *)
Definition anneal (n : Z) (T : pynum) (p_i p_f : num) : option num :=
  q <- py_int_div n T ;;
  Some (s_add (s_mul (to_float (py_one_minus q)) p_i)
              (s_mul (to_float q) p_f)).

Definition update_hyperparams (self : mlbl) : option mlbl :=
  let eta' := s_mul self.(eta_t) self.(f) in
  if py_int_lt self.(step) self.(T) then
    pt <- anneal (self.(step) + 1) self.(T) self.(p_i) self.(p_f) ;;
    Some (set_sched self eta' pt self.(step) self.(epoch) self.(start))
  else
    Some (set_sched self eta' self.(p_f) self.(step) self.(epoch) self.(start)).

(** [self.update_hyperparams(); self.step += 1], the pair of statements of
    both call sites in [train]. *)
Definition scheduled_step (self : mlbl) : option mlbl :=
  self' <- update_hyperparams self ;;
  Some (set_step self' (self'.(step) + 1)).

(** Monadic left fold, for loops whose body may raise. *)
Fixpoint foldM {A B : Type} (body : B -> A -> option B) (l : list A) (b : B)
  : option B :=
  match l with
  | [] => Some b
  | a :: l' => b' <- body b a ;; foldM body l' b'
  end.

(** *** __init__ *)

Definition MLBL_init (name loc : string) (seed : Z) (dropout : num) (k : Z)
  (V K D h context batchsize maxepoch : nat) (eta_t gamma_r gamma_c f p_i p_f : num)
  (T : pynum) (verbose : Z) : option mlbl :=
  pt <- anneal 1 T p_i p_f ;;
  Some {| name := name; loc := loc; dropout := dropout; seed := seed; k := k;
          V := V; K := K; D := D; h := h; context := context;
          batchsize := batchsize; maxepoch := maxepoch; eta_t := eta_t;
          gamma_r := gamma_r; gamma_c := gamma_c; f := f; p_i := p_i;
          p_f := p_f; T := T; verbose := verbose; p_t := pt;
          R := []; C := []; bw := []; M := []; J := []; bj := [];
          deltaR := []; deltaC := []; deltaB := []; deltaM := [];
          deltaJ := []; deltaBj := [];
          dR := []; dM := []; db := []; dC := []; dJ := []; dBj := [];
          step := 0; epoch := 0; start := 0 |}.

(** *** forward *)

Section Generators.

(** numpy's generators are outside the repository: a generator state, the
    seeded constructor [RandomState(seed)] and the draws used by the source.
    Each draw returns the array and the advanced state. *)
Variable rng : Type.
Variable RandomState : Z -> rng.
Variable rand : rng -> nat -> nat -> mat * rng.
Variable randn : rng -> nat -> nat -> mat * rng.
Variable randn3 : rng -> nat -> nat -> nat -> tensor * rng.
Variable shuffle : rng -> list nat -> list nat * rng.

(** [self.R[:, idx]]: the columns of [R] at the indices [idx]. *)
Definition take_cols (A : mat) (idx : list Z) : option mat :=
  js <- mapM (py_index (ncols A)) idx ;;
  Some (map (fun r => map (fun j => nth j r zero) js) A).

(** [words[:,:,i]] *)
Definition position (words : list mat) (i : nat) : mat :=
  map (fun w => col w i) words.

Definition softmax_row (r : vec) : option vec :=
  m <- row_max r ;;
  let e := map (fun x => s_exp (s_sub x m)) r in
  let s := vsum e in
  Some (map (fun x => s_div x s) e).

(** [g] is the state of the global generator [np.random]. *)
Definition forward (self : mlbl) (g : rng) (X : list (list Z)) (Im : mat)
  (test : bool) : option ((list mat * mat * mat * mat) * rng) :=
  let batchsize := length X in
  (* Forwardprop images *)
  let IF := add_row (dot Im self.(J)) self.(bj) in
  let IF := mat_mul IF (mat_positive IF) in
  (* Dropout (if applicable) *)
  let '(IF, g) :=
    if s_gt self.(dropout) zero && negb test then
      let '(u, g') := rand g batchsize self.(h) in
      let dropmask :=
        map (map (fun x => if s_gt x self.(dropout) then one else zero)) u in
      (mat_mul IF dropmask, g')
    else (IF, g) in
  (* Obtain word features *)
  G <- take_cols self.(R) (concat X) ;;
  let tmp := reshape batchsize (self.(K) * self.(context)) (flatten_F G) in
  let words := map (reshape_F self.(K) self.(context)) tmp in
  (* Compute the hidden layer *)
  acts <-
    foldM (fun acts i =>
             Ci <- nth_error self.(C) i ;;
             Some (mat_add acts (dot (position words i) Ci)))
          (seq 0 self.(context)) (zeros batchsize self.(K)) ;;
  let acts :=
    if test
    then mat_add acts (dot IF (mat_scale_r self.(M) (s_sub one self.(dropout))))
    else mat_add acts (dot IF self.(M)) in
  (* Compute softmax *)
  let preds := add_row (dot acts self.(R)) self.(bw) in
  preds <- mapM softmax_row preds ;;
  Some ((words, acts, IF, preds), g).

(** *** backward *)

(** [(preds - Y) / batchsize], the output error of [backward]. *)
Definition output_error (Y preds : mat) : mat :=
  mat_div (mat_sub preds Y) (s_of_Z (Z.of_nat (length preds))).

(** The inner loop [for j in range(X.shape[0]): dR[:,X[j,i]] += delta.T[:,j]];
    [nv] is the number of columns of [dR]. *)
Definition scatter (nv : nat) (X : list (list Z)) (i : nat) (delta : mat)
  (dR : mat) : option mat :=
  foldM (fun dR j =>
           row <- nth_error X j ;;
           x <- nth_error row i ;;
           v <- py_index nv x ;;
           Some (add_to_col dR v (nth j delta [])))
        (seq 0 (length X)) dR.

Definition backward (self : mlbl) (Y preds IF acts : mat) (words : list mat)
  (X : list (list Z)) (Im : mat) : option mlbl :=
  (* Compute part of df/dR *)
  let Ix := output_error Y preds in
  let dR := dot (transpose acts) Ix in
  let db := colsum Ix in
  let nv := ncols Ix in
  (* Compute df/dC and word inputs for df/dR *)
  let Ix := dot Ix (transpose self.(R)) in
  let dC := map (fun c => zeros (length c) (ncols c)) self.(C) in
  '(dC, dR) <-
    foldM (fun acc i =>
             let '(dC, dR) := acc in
             dC <- set_item dC i (dot (transpose (position words i)) Ix) ;;
             let delta := dot Ix (transpose (nth i self.(C) [])) in
             dR <- scatter nv X i delta dR ;;
             Some (dC, dR))
          (seq 0 self.(context)) (dC, dR) ;;
  (* Compute df/dM *)
  let dM := dot (transpose IF) Ix in
  (* Compute df/dJ *)
  let Ix := mat_mul (dot Ix (transpose self.(M))) (mat_positive IF) in
  let dJ := dot (transpose Im) Ix in
  let dBj := colsum Ix in
  (* Weight decay terms *)
  let dR := mat_add dR (mat_scale self.(gamma_r) self.(R)) in
  let dC := tensor_add dC (tensor_scale self.(gamma_c) self.(C)) in
  let dM := mat_add dM (mat_scale self.(gamma_c) self.(M)) in
  let dJ := mat_add dJ (mat_scale self.(gamma_c) self.(J)) in
  Some (set_grads self dR dM db dC dJ dBj).

(** *** init_params *)

(** A Python dict as an association list. *)
Fixpoint lookup {A B : Type} (eqb : A -> A -> bool) (d : list (A * B)) (key : A)
  : option B :=
  match d with
  | [] => None
  | (k', v) :: d' => if eqb key k' then Some v else lookup eqb d' key
  end.

Definition hundredth : num := s_div (s_of_Z 1) (s_of_Z 100).

(** [u * 2 * r - r] on every entry. *)
Definition spread (r : num) (U : mat) : mat :=
  map (map (fun u => s_sub (s_mul (s_mul u (s_of_Z 2)) r) r)) U.

Definition zeros_like (A : mat) : mat := zeros (length A) (ncols A).

Definition init_params (self : mlbl)
  (embed_map : option (list (string * vec))) (count_dict : list (nat * string))
  : option mlbl :=
  let prng := RandomState self.(seed) in
  (* Pre-trained word embedding matrix *)
  '(R, prng) <-
    match embed_map with
    | Some em =>
        es <- mapM (fun i =>
                      word <- lookup Nat.eqb count_dict i ;;
                      match lookup String.eqb em word with
                      | Some e => Some e
                      | None => lookup String.eqb em "*UNKNOWN*"%string
                      end)
                   (seq 0 self.(V)) ;;
        Some (map (fun k => map (fun e => nth k e zero) es) (seq 0 self.(K)), prng)
    | None =>
        let r := s_div (s_sqrt (s_of_Z 6))
                       (s_sqrt (s_of_Z (Z.of_nat (self.(K) + self.(V) + 1)))) in
        let '(U, prng) := rand prng self.(K) self.(V) in
        Some (spread r U, prng)
    end ;;
  let bw := zeros 1 self.(V) in
  (* Context *)
  let '(N3, prng) := randn3 prng self.(context) self.(K) self.(K) in
  let C := tensor_scale hundredth N3 in
  (* Image context *)
  let '(N2, prng) := randn prng self.(h) self.(K) in
  let M := mat_scale hundredth N2 in
  (* Hidden layer *)
  let r := s_div (s_sqrt (s_of_Z 6))
                 (s_sqrt (s_of_Z (Z.of_nat (self.(D) + self.(h) + 1)))) in
  let '(U, prng) := rand prng self.(D) self.(h) in
  let J := spread r U in
  let bj := zeros 1 self.(h) in
  (* Initial deltas used for SGD *)
  Some (set_params self R C bw M J bj
          (zeros_like R) (map zeros_like C) (zeros_like bw)
          (zeros_like M) (zeros_like J) (zeros_like bj)).

(** *** train *)

(** The cadence thresholds [prog['_details']], [prog['_samples']],
    [prog['_update']] and [prog['_bleu']]. *)
Record progress : Type := {
  prog_details : Z;
  prog_samples : Z;
  prog_update : Z;
  prog_bleu : Z
}.

(** What the loop prints or hands to [lm_tools], in order. *)
Inductive event : Type :=
| display_phase (n : Z)
| print_nans
| print_progress (epoch : nat) (pts : Z)
| print_best (scores : list num)
| show_samples (model : mlbl)
| print_rates (eta p : num)
| print_scores (scores : list num)
| save_model (model : mlbl) (loc : string).

(** [lm_tools] is outside the repository.  [compute_bleu] returns the metric
    sequence; it and [generate_and_show] may draw from the global generator,
    and neither changes the model. *)
Variable compute_bleu : mlbl -> rng -> list num * rng.
Variable generate_and_show : mlbl -> rng -> rng.

(** The local variables of [train] that the loops change, with the model
    object, the global generator [np.random] and the output so far. *)
Record run : Type := Run {
  model : mlbl;
  np_random : rng;
  inds : list nat;
  bleu : list num;
  best : num;
  scores : list num;
  count : Z;
  done : bool;
  out : list event
}.

Definition patience : Z := 10.

(** Number of positions of the slice [start::stride]. *)
Definition slice_count (len start stride : nat) : nat :=
  (len - start + stride - 1) / stride.

(** The positions selected by the slice [start::stride] of a sequence of
    length [len]; a zero stride raises. *)
Definition slice_positions (len start stride : nat) : option (list nat) :=
  match stride with
  | O => None
  | _ => Some (map (fun i => start + i * stride)
                   (seq 0 (slice_count len start stride)))
  end.

(** [l[start::stride]] *)
Definition slice (l : list nat) (start stride : nat) : option (list nat) :=
  ps <- slice_positions (length l) start stride ;;
  Some (map (fun p => nth p l O) ps).

(** [A[idx]] for an array of indices: the rows of [A] at [idx]. *)
Definition rows_at {A : Type} (l : list A) (idx : list nat) : option (list A) :=
  mapM (nth_error l) idx.

Definition rows_at_Z {A : Type} (l : list A) (idx : list Z) : option (list A) :=
  mapM (fun i => j <- py_index (length l) i ;; nth_error l j) idx.

(** [l[-1]] *)
Definition last_item {A : Type} (l : list A) : option A := nth_error (rev l) 0.

(** A [for] loop whose body may [break]: the body returns the new state and
    whether it broke out; so does the loop. *)
Fixpoint for_loop {A B : Type} (body : B -> A -> option (B * bool))
  (l : list A) (b : B) : option (B * bool) :=
  match l with
  | [] => Some (b, false)
  | a :: l' =>
      r <- body b a ;;
      if snd r then Some r else for_loop body l' (fst r)
  end.

Definition for_break {A B : Type} (body : B -> A -> option (B * bool))
  (l : list A) (b : B) : option B :=
  r <- for_loop body l b ;; Some (fst r).

Section Train.

Variable X : list (list Z).       (* context word indices, one row per example *)
Variable indX : list Z.           (* caption index of every example *)
Variable XY : mat.                (* target distributions *)
Variable IM : mat.                (* image features *)
Variable prog : progress.

(** The rows of the data that make minibatch [minibatch]:
    [batchX], [batchY] and [batchIm]. *)
Definition batch_of (st : run) (numbatches minibatch : nat)
  : option (list (list Z) * mat * mat) :=
  sel <- slice st.(inds) minibatch numbatches ;;
  batchX <- rows_at X sel ;;
  batchY <- rows_at XY sel ;;
  batchindX <- rows_at indX sel ;;
  let batchindX := map (fun i => (i / 5)%Z) batchindX in
  batchIm <- rows_at_Z IM batchindX ;;
  Some (batchX, batchY, batchIm).

(** [forward], [backward] and [update_params] on one minibatch; [acts] is
    handed back for the check that follows. *)
Definition sgd_step (self : mlbl) (g : rng) (batchX : list (list Z))
  (batchY batchIm : mat) : option (mlbl * rng * mat) :=
  '((words, acts, IF, preds), g) <- forward self g batchX batchIm false ;;
  self <- backward self batchY preds IF acts words batchX batchIm ;;
  self <- update_params self batchX ;;
  Some (self, g, acts).

(** [np.sum(np.isnan(acts)) > 0] *)
Definition any_nan (acts : mat) : bool := existsb (existsb s_isnan) acts.

(** What follows [bleu = lm_tools.compute_bleu(...)]: the comparison with
    [best] and the patience count. *)
Definition judge (self : mlbl) (g : rng) (out : list event) (st : run)
  (bleu : list num) : option (run * bool) :=
  b <- last_item bleu ;;
  if s_ge b st.(best) then
    Some (Run self g st.(inds) bleu b bleu 0 st.(done)
              (out ++ [print_scores bleu; save_model self self.(loc)]),
          false)
  else
    let count := (st.(count) + 1)%Z in
    if (count =? patience)%Z
    then Some (Run self g st.(inds) bleu st.(best) st.(scores) count true out,
               true)
    else Some (Run self g st.(inds) bleu st.(best) st.(scores) count
                   st.(done) out, false).

(** The state in which the loop is left when [acts] holds a NaN. *)
Definition nan_state (st : run) (self : mlbl) (g : rng) : run :=
  Run self g st.(inds) st.(bleu) st.(best) st.(scores) st.(count) true
      (st.(out) ++ [print_nans]).

(** The state after a validation that did not improve on [best]. *)
Definition worse_state (st : run) (self : mlbl) (g : rng)
  (out : list event) (bleu : list num) : run :=
  Run self g st.(inds) bleu st.(best) st.(scores) (st.(count) + 1)
      (st.(done) || (st.(count) + 1 =? 10)%Z) out.

(** [np.mod(minibatch * self.batchsize, every) == 0 and minibatch > 0] *)
Definition due (self : mlbl) (minibatch : nat) (every : Z) : bool :=
  ((np_mod (Z.of_nat (minibatch * self.(batchsize))) every =? 0)%Z
   && (0 <? minibatch))%bool.

(** The three blocks after the NaN check: progress line, samples, and the
    scheduler step on its own cadence. *)
Definition periodic (self : mlbl) (g : rng) (st : run) (minibatch : nat)
  : option (mlbl * rng * list event) :=
  let pts := Z.of_nat (minibatch * self.(batchsize)) in
  (* Print out progress *)
  let out := if due self minibatch prog.(prog_details)
             then st.(out) ++ [print_progress self.(epoch) pts]
             else st.(out) in
  let '(g, out) :=
    if due self minibatch prog.(prog_samples)
    then (generate_and_show self g,
          out ++ [print_best st.(scores); show_samples self])
    else (g, out) in
  if due self minibatch prog.(prog_update)
  then self' <- scheduled_step self ;;
       Some (self', g, out ++ [print_rates self'.(eta_t) self'.(p_t)])
  else Some (self, g, out).

(** The body of [for minibatch in range(numbatches)]. *)
Definition minibatch_body (numbatches : nat) (st : run) (minibatch : nat)
  : option (run * bool) :=
  '(batchX, batchY, batchIm) <- batch_of st numbatches minibatch ;;
  '(self, g, acts) <- sgd_step st.(model) st.(np_random) batchX batchY batchIm ;;
  if any_nan acts then
    Some (Run self g st.(inds) st.(bleu) st.(best) st.(scores) st.(count)
              true (st.(out) ++ [print_nans]), true)
  else
    '(self, g, out) <- periodic self g st minibatch ;;
    (* Compute BLEU *)
    if due self minibatch prog.(prog_bleu) then
      let '(bleu, g) := compute_bleu self g in
      judge self g out st bleu
    else
      Some (Run self g st.(inds) st.(bleu) st.(best) st.(scores) st.(count)
                st.(done) out, false).

(** The state at the head of the minibatch loop of epoch [epoch]:
    [self.epoch] is set and [inds] is shuffled in place by a generator
    seeded with [self.seed + epoch + 1]. *)
Definition epoch_start (st : run) (epoch : nat) : run :=
  let self := set_epoch st.(model) epoch in
  let prng := RandomState (self.(seed) + Z.of_nat epoch + 1) in
  let shuffled := fst (shuffle prng st.(inds)) in
  Run self st.(np_random) shuffled st.(bleu) st.(best) st.(scores)
      st.(count) st.(done) st.(out).

(** The body of [for epoch in range(self.maxepoch)]. *)
Definition epoch_body (numbatches : nat) (st : run) (epoch : nat)
  : option (run * bool) :=
  if st.(done) then Some (st, true)
  else
    st <- for_break (minibatch_body numbatches) (seq 0 numbatches)
            (epoch_start st epoch) ;;
    self <- scheduled_step st.(model) ;;
    Some (Run self st.(np_random) st.(inds) st.(bleu) st.(best) st.(scores)
              st.(count) st.(done) st.(out), false).

(** The locals of [train] before the main loop: [inds = np.arange(len(X))],
    [bleu = [0.0]*4], [best = 0.0], [count = 0], [done = False]. *)
Definition initial_run (self : mlbl) (g : rng) : run :=
  Run self g (seq 0 (length X)) (repeat zero 4) zero (repeat zero 4) 0 false
      [display_phase 1].

(** [train] returns [best]; the final state of the run is returned with it.
    [g] is the state of the global generator when [train] is called.  The
    validation arrays and [word_dict] are only passed on to [lm_tools]. *)
Definition train (self : mlbl) (g : rng)
  (count_dict : list (nat * string)) (embed_map : option (list (string * vec)))
  : option (num * run) :=
  let self := set_start self self.(seed) in
  self <- init_params self embed_map count_dict ;;
  let self := set_step self 0 in
  numbatches <- (if Nat.eqb self.(batchsize) 0 then None
                 else Some (length X / self.(batchsize))) ;;
  (* Main loop *)
  st <- for_break (epoch_body numbatches) (seq 0 self.(maxepoch))
          (initial_run self g) ;;
  Some (st.(best), st).

(** [train] reaches, in epoch [e] and minibatch [m], the run state [st]
    without any break before; [nb] is its [numbatches]. *)
Definition train_reaches (self0 : mlbl) (g0 : rng)
  (count_dict : list (nat * string)) (embed_map : option (list (string * vec)))
  (nb e m : nat) (st : run) : Prop :=
  exists self1 earlier later st_e,
    init_params (set_start self0 self0.(seed)) embed_map count_dict
    = Some self1 /\
    self1.(batchsize) <> 0 /\
    nb = length X / self1.(batchsize) /\
    m < nb /\
    seq 0 self1.(maxepoch) = earlier ++ e :: later /\
    for_loop (epoch_body nb) earlier (initial_run (set_step self1 0) g0)
    = Some (st_e, false) /\
    st_e.(done) = false /\
    for_loop (minibatch_body nb) (seq 0 m) (epoch_start st_e e)
    = Some (st, false).

End Train.

End Generators.

End Model.

(** ** The two carriers *)

(** *** Real numbers *)

Definition Rgtb (x y : real) : bool := if Rlt_dec y x then true else false.
Definition Rgeb (x y : real) : bool := if Rle_dec y x then true else false.

#[export] Instance Rs : Scalar := {|
  num := real;
  s_add := Rplus;
  s_sub := Rminus;
  s_mul := Rmult;
  s_div := Rdiv;
  s_exp := exp;
  s_sqrt := sqrt;
  s_gt := Rgtb;
  s_ge := Rgeb;
  s_max := Rmax;
  s_isnan := fun _ => false;
  s_of_Z := IZR
|}.

(** *** Reals with the special values of IEEE 754 *)

Inductive xreal : Type :=
| Fin (r : real)
| PInf
| NInf
| NaN.

Definition xneg (x : xreal) : xreal :=
  match x with
  | Fin r => Fin (- r)
  | PInf => NInf
  | NInf => PInf
  | NaN => NaN
  end.

Definition xadd (x y : xreal) : xreal :=
  match x, y with
  | NaN, _ | _, NaN => NaN
  | PInf, NInf | NInf, PInf => NaN
  | PInf, _ | _, PInf => PInf
  | NInf, _ | _, NInf => NInf
  | Fin a, Fin b => Fin (a + b)
  end.

Definition xsub (x y : xreal) : xreal := xadd x (xneg y).

(** An infinity times a finite [r]: the sign of [r] decides, zero gives NaN. *)
Definition xscale_inf (r : real) (pos : bool) : xreal :=
  if Rlt_dec 0 r then (if pos then PInf else NInf)
  else if Rlt_dec r 0 then (if pos then NInf else PInf)
  else NaN.

Definition xmul (x y : xreal) : xreal :=
  match x, y with
  | NaN, _ | _, NaN => NaN
  | Fin a, Fin b => Fin (a * b)
  | Fin a, PInf | PInf, Fin a => xscale_inf a true
  | Fin a, NInf | NInf, Fin a => xscale_inf a false
  | PInf, PInf | NInf, NInf => PInf
  | PInf, NInf | NInf, PInf => NInf
  end.

(** Zero is taken as positive zero. *)
Definition xdiv (x y : xreal) : xreal :=
  match x, y with
  | NaN, _ | _, NaN => NaN
  | Fin a, Fin b =>
      if Req_dec_T b 0 then xscale_inf a true else Fin (a / b)
  | Fin _, PInf | Fin _, NInf => Fin 0
  | PInf, Fin b => if Rlt_dec b 0 then NInf else PInf
  | NInf, Fin b => if Rlt_dec b 0 then PInf else NInf
  | PInf, PInf | PInf, NInf | NInf, PInf | NInf, NInf => NaN
  end.

Definition xexp (x : xreal) : xreal :=
  match x with
  | Fin r => Fin (exp r)
  | PInf => PInf
  | NInf => Fin 0
  | NaN => NaN
  end.

Definition xsqrt (x : xreal) : xreal :=
  match x with
  | Fin r => if Rlt_dec r 0 then NaN else Fin (sqrt r)
  | PInf => PInf
  | NInf => NaN
  | NaN => NaN
  end.

Definition xgt (x y : xreal) : bool :=
  match x, y with
  | NaN, _ | _, NaN => false
  | Fin a, Fin b => Rgtb a b
  | PInf, PInf => false
  | PInf, _ => true
  | _, PInf => false
  | NInf, _ => false
  | Fin _, NInf => true
  end.

Definition xeq (x y : xreal) : bool :=
  match x, y with
  | Fin a, Fin b => if Req_dec_T a b then true else false
  | PInf, PInf | NInf, NInf => true
  | _, _ => false
  end.

Definition xge (x y : xreal) : bool := xgt x y || xeq x y.

Definition xmax (x y : xreal) : xreal :=
  match x, y with
  | NaN, _ | _, NaN => NaN
  | _, _ => if xgt y x then y else x
  end.

Definition xisnan (x : xreal) : bool :=
  match x with
  | NaN => true
  | _ => false
  end.

(** [np.isfinite] *)
Definition xisfinite (x : xreal) : bool :=
  match x with
  | Fin _ => true
  | _ => false
  end.

#[export] Instance Xs : Scalar := {|
  num := xreal;
  s_add := xadd;
  s_sub := xsub;
  s_mul := xmul;
  s_div := xdiv;
  s_exp := xexp;
  s_sqrt := xsqrt;
  s_gt := xgt;
  s_ge := xge;
  s_max := xmax;
  s_isnan := xisnan;
  s_of_Z := fun z => Fin (IZR z)
|}.

(** [T] given as the int [n] or as the float [n]. *)
Definition T_is (n : Z) (T : pynum (F := Rs)) : Prop :=
  T = PyInt n \/ T = PyFloat (F := Rs) (IZR n).

(** ** The scheduler as the loop drives it *)

Section Schedule.
Context {F : Scalar}.

Fixpoint scheduled_steps (n : nat) (self : mlbl) : option mlbl :=
  match n with
  | O => Some self
  | S n' => self' <- scheduled_step self ;; scheduled_steps n' self'
  end.

(** A model with [V = K = D = h = context = 1]: every parameter holds the
    single entry [p], every momentum buffer [delta], every gradient [grad]. *)
Definition tiny (eta pt p_i p_f : num) (T : pynum) (step : Z)
  (p delta grad : num) : mlbl :=
  {| name := "lbl"; loc := "models/mlbl.pkl"; dropout := zero; seed := 1234;
     k := 5; V := 1; K := 1; D := 1; h := 1; context := 1; batchsize := 1;
     maxepoch := 1; eta_t := eta; gamma_r := zero; gamma_c := zero;
     f := one; p_i := p_i; p_f := p_f; T := T; verbose := 1; p_t := pt;
     R := [[p]]; C := [[[p]]]; bw := [[p]]; M := [[p]]; J := [[p]];
     bj := [[p]];
     deltaR := [[delta]]; deltaC := [[[delta]]]; deltaB := [[delta]];
     deltaM := [[delta]]; deltaJ := [[delta]]; deltaBj := [[delta]];
     dR := [[grad]]; dM := [[grad]]; db := [grad]; dC := [[[grad]]];
     dJ := [[grad]]; dBj := [grad];
     step := step; epoch := 0; start := 1234 |}.

(** [tiny] with the parameters given one by one and zero momentum buffers. *)
Definition tiny_with (self : mlbl) (r c b m j : num) : mlbl :=
  set_params self [[r]] [[[c]]] [[b]] [[m]] [[j]] [[b]]
             [[zero]] [[[zero]]] [[zero]] [[zero]] [[zero]] [[zero]].

(** Stand-ins for numpy's generators and for [lm_tools], used to run the
    loop on concrete data: the generator state is a counter, a draw is 0
    from an even state and 3/4 from an odd one, a shuffle reverses. *)
Definition demo_RandomState (seed : Z) : nat := Z.to_nat seed.
Definition demo_rand (g : nat) (m n : nat) : mat * nat :=
  (repeat (repeat (if Nat.even g then zero
                   else s_div (s_of_Z 3) (s_of_Z 4)) n) m, S g).
Definition demo_randn (g : nat) (m n : nat) : mat * nat :=
  (zeros m n, S g).
Definition demo_randn3 (g : nat) (c m n : nat) : tensor * nat :=
  (repeat (zeros m n) c, S g).
Definition demo_shuffle (g : nat) (l : list nat) : list nat * nat :=
  (rev l, S g).
Definition demo_bleu (score : num) (self : mlbl) (g : nat) : list num * nat :=
  ([score], g).
Definition demo_show (self : mlbl) (g : nat) : nat := g.

(** Evaluation every point, nothing else before point 7. *)
Definition demo_prog : progress :=
  {| prog_details := 7; prog_samples := 7; prog_update := 7; prog_bleu := 1 |}.

(** Two examples with the one-word context [0], the target word 0 and the
    image 0, whose single feature is [im]. *)
Definition demo_X : list (list Z) := [[0%Z]; [0%Z]].
Definition demo_indX : list Z := [0%Z; 0%Z].
Definition demo_XY : mat := [[one]; [one]].
Definition demo_IM (im : num) : mat := [[im]].

(** A run in its second minibatch loop position: indices in order, nothing
    printed, [best] and [count] as given. *)
Definition demo_run (self : mlbl) (g : nat) (best : num) (count : Z) : run nat :=
  Run self g [0; 1] [] best [] count false [].

End Schedule.

(** ** The two gradient paths into R *)

Section TiedWeights.
Context {F : Scalar}.

(** Entry [(k, v)] of the embedding-lookup contribution to [dR]: over every
    context position [c] and every example [j] whose word at [c] is [v],
    entry [k] of row [j] of [Ix . R^T . C[c]^T]. *)
Definition lookup_grad (self : mlbl) (Ix : mat) (X : list (list Z)) (k v : nat)
  : num :=
  vsum (map (fun c =>
               vsum (map (fun j =>
                            if (nth c (nth j X []) 0 =? Z.of_nat v)%Z
                            then get (dot (dot Ix (transpose self.(R)))
                                          (transpose (nth c self.(C) []))) j k
                            else zero)
                         (seq 0 (length X))))
            (seq 0 self.(context))).

(** Rows of [X]: [ctx] word indices, each in [0, nv). *)
Definition contexts_in_range (ctx nv : nat) (X : list (list Z)) : Prop :=
  Forall (fun row => length row = ctx /\
                     Forall (fun x => (0 <= x < Z.of_nat nv)%Z) row) X.

End TiedWeights.

(** ** A model that uses dropout *)

(** [V = 2], [K = D = h = context = 1], [dropout = 1/2]; the embedding of
    word 0 is 0 and that of word 1 is 1. *)
Definition dropout_model : mlbl (F := Rs) :=
  {| name := "lbl"; loc := "models/mlbl.pkl";
     dropout := ((1 / 2)%R : @num Rs);
     seed := 1234; k := 5; V := 2; K := 1; D := 1; h := 1; context := 1;
     batchsize := 1; maxepoch := 1; eta_t := 1%R; gamma_r := 0%R;
     gamma_c := 0%R; f := 1%R; p_i := (1 / 2)%R; p_f := (1 / 2)%R;
     T := PyInt 20; verbose := 1; p_t := (1 / 2)%R;
     R := [[0%R; 1%R]]; C := [[[1%R]]]; bw := [[0%R; 0%R]]; M := [[1%R]];
     J := [[1%R]]; bj := [[0%R]];
     deltaR := [[0%R; 0%R]]; deltaC := [[[0%R]]]; deltaB := [[0%R; 0%R]];
     deltaM := [[0%R]]; deltaJ := [[0%R]]; deltaBj := [[0%R]];
     dR := [[0%R; 0%R]]; dM := [[0%R]]; db := [0%R; 0%R]; dC := [[[0%R]]];
     dJ := [[0%R]]; dBj := [0%R];
     step := 0; epoch := 0; start := 1234 |}.

(** A negative index and the index it stands for, counted from the front. *)
Definition from_front (len : nat) (x : Z) : Z :=
  if (x <? 0)%Z then (x + Z.of_nat len)%Z else x.

(** [self.bw += c]: the model with [c] added to every entry of the output
    bias. *)
Definition shift_bias (c : real) (self : mlbl (F := Rs)) : mlbl (F := Rs) :=
  set_params self self.(R) self.(C)
             (map (map (fun b => (b + c)%R)) self.(bw))
             self.(M) self.(J) self.(bj)
             self.(deltaR) self.(deltaC) self.(deltaB) self.(deltaM)
             self.(deltaJ) self.(deltaBj).

(** The parameters and their momentum buffers have the shapes the model's
    dimensions give them, and no dimension is empty. *)
Definition params_shaped {F : Scalar} (self : mlbl) : Prop :=
  (0 < self.(V) /\ 0 < self.(K) /\ 0 < self.(D) /\ 0 < self.(h)) /\
  (shape self.(K) self.(V) self.(R) /\
   shape self.(K) self.(V) self.(deltaR)) /\
  (shape3 self.(context) self.(K) self.(K) self.(C) /\
   shape3 self.(context) self.(K) self.(K) self.(deltaC)) /\
  (shape 1 self.(V) self.(bw) /\ shape 1 self.(V) self.(deltaB)) /\
  (shape self.(h) self.(K) self.(M) /\
   shape self.(h) self.(K) self.(deltaM)) /\
  (shape self.(D) self.(h) self.(J) /\
   shape self.(D) self.(h) self.(deltaJ)) /\
  (shape 1 self.(h) self.(bj) /\ shape 1 self.(h) self.(deltaBj)).

(** Numbered training data for the one-entry model: the context of example
    [p] is the word index [p], so that a row of [batchX] names the example
    it comes from; every example has the target [[one]] and the image 0. *)
Definition numbered_X (n : nat) : list (list Z) :=
  map (fun p => [Z.of_nat p]) (seq 0 n).

(** A run whose index array is still in order: position [p] holds the
    example [p]. *)
Definition ordered_run {F : Scalar} (self : mlbl) (n : nat) : run nat :=
  Run self 0 (seq 0 n) [] zero [] 0 false [].




(** ** Array lemmas *)

Unset Implicit Arguments.

Section ArrayFacts.
Context {F : Scalar}.

Lemma zip_with_length {A B C : Type} (g : A -> B -> C) (u : list A) (v : list B) :
  length (zip_with g u v) = Nat.min (length u) (length v).
Proof. unfold zip_with. now rewrite length_map, length_combine. Qed.

Lemma nth_zip_with {A B C : Type} (g : A -> B -> C) (u : list A) (v : list B)
  n dc da db' :
  n < length u -> n < length v ->
  nth n (zip_with g u v) dc = g (nth n u da) (nth n v db').
Proof.
  unfold zip_with. intros Hu Hv.
  rewrite (nth_indep _ dc (g da db')) by (rewrite length_map, length_combine; lia).
  change (g da db') with ((fun p => g (fst p) (snd p)) (da, db')).
  rewrite map_nth. cbv beta.
  revert v n Hu Hv. induction u as [|a u IH]; intros [|b v] [|n]; simpl; intros;
    try lia; auto. apply IH; lia.
Qed.

Lemma shape_row m n A i : shape m n A -> i < m -> length (nth i A []) = n.
Proof.
  intros [Hm Hr] Hi. rewrite Forall_forall in Hr. apply Hr, nth_In. lia.
Qed.


Lemma get_zip_with (g : num -> num -> num) m n A B i j :
  shape m n A -> shape m n B -> i < m -> j < n ->
  get (zip_with (zip_with g) A B) i j = g (get A i j) (get B i j).
Proof.
  intros HA HB Hi Hj. unfold get.
  rewrite nth_zip_with with (da := []) (db' := []).
  all: try (destruct HA, HB; lia).
  apply nth_zip_with.
  - rewrite (shape_row m n A i HA); lia.
  - rewrite (shape_row m n B i HB); lia.
Qed.

Lemma shape_zip_with (g : num -> num -> num) m n A B :
  shape m n A -> shape m n B -> shape m n (zip_with (zip_with g) A B).
Proof.
  intros [HA1 HA2] [HB1 HB2]. split.
  - rewrite zip_with_length. lia.
  - clear HA1 HB1. revert B HB2.
    induction HA2 as [|a A Ha _ IH]; intros B HB2; [constructor|].
    destruct HB2 as [|b B Hb HB]; [constructor|].
    unfold zip_with in *. simpl. constructor; [|now apply IH].
    rewrite length_map, length_combine. lia.
Qed.

Lemma get_map (g : num -> num) m n A i j :
  shape m n A -> i < m -> j < n ->
  get (map (map g) A) i j = g (get A i j).
Proof.
  intros HA Hi Hj. unfold get.
  rewrite (nth_indep _ [] (map g [])) by (rewrite length_map; destruct HA; lia).
  rewrite map_nth.
  rewrite (nth_indep _ zero (g zero))
    by (rewrite length_map, (shape_row m n A i HA); lia).
  now rewrite map_nth.
Qed.

Lemma shape_map (g : num -> num) m n A :
  shape m n A -> shape m n (map (map g) A).
Proof.
  intros [H1 H2]. split; [now rewrite length_map|].
  rewrite Forall_map. eapply Forall_impl; [|exact H2].
  intros r Hr. now rewrite length_map.
Qed.


Lemma shape_momentum pt q m n delta grad :
  shape m n delta -> shape m n grad -> shape m n (momentum pt q delta grad).
Proof. intros. apply shape_zip_with; now apply shape_map. Qed.

Lemma get_mat_add m n A B i j :
  shape m n A -> shape m n B -> i < m -> j < n ->
  get (mat_add A B) i j = s_add (get A i j) (get B i j).
Proof. apply get_zip_with. Qed.


Lemma shape3_momentum pt q c m n delta grad :
  shape3 c m n delta -> shape3 c m n grad ->
  shape3 c m n (momentum3 pt q delta grad).
Proof.
  intros [Hd1 Hd2] [Hg1 Hg2]. unfold momentum3, tensor_sub, tensor_scale. split.
  - rewrite zip_with_length, !length_map. lia.
  - clear Hd1 Hg1. revert grad Hg2.
    induction Hd2 as [|a A Ha _ IH]; intros grad Hg2; [constructor|].
    destruct Hg2 as [|b B Hb HB]; [constructor|].
    unfold zip_with in *. simpl. constructor; [|now apply IH].
    now apply shape_momentum.
Qed.


End ArrayFacts.

(** ** update_params *)

Section UpdateFacts.
Context {F : Scalar}.

Lemma shape_singleton n (v : vec) : length v = n -> shape 1 n [v].
Proof. intros H. split; [reflexivity|]. now constructor. Qed.





End UpdateFacts.

Lemma tiny_shaped {F : Scalar} eta pt pi pf T st p d g :
  update_shaped (tiny eta pt pi pf T st p d g).
Proof. unfold update_shaped, shape3, shape; simpl. repeat split; repeat constructor. Qed.

Local Open Scope R_scope.


(** ** Zero learning rate *)





(** ** update_hyperparams *)

Lemma Rgtb_true (x y : real) : y < x -> Rgtb x y = true.
Proof. intros H. unfold Rgtb. destruct (Rlt_dec y x); [reflexivity | contradiction]. Qed.

Lemma Rgtb_false (x y : real) : x <= y -> Rgtb x y = false.
Proof. intros H. unfold Rgtb. destruct (Rlt_dec y x); [lra | reflexivity]. Qed.

Lemma py_is_zero_float (t : real) :
  t <> 0 -> py_is_zero (F := Rs) (PyFloat (F := Rs) t) = false.
Proof.
  intros H. simpl.
  destruct (Rtotal_order t 0) as [Hlt | [Heq | Hgt]]; [|contradiction|].
  - rewrite (Rgtb_true 0 t Hlt). now rewrite andb_false_r.
  - now rewrite (Rgtb_true t 0 Hgt).
Qed.

Lemma py_int_lt_T_is n T k : T_is n T -> (k < n)%Z -> py_int_lt k T = true.
Proof.
  intros [-> | ->] Hk; simpl.
  - now apply Z.ltb_lt.
  - apply Rgtb_true. now apply IZR_lt.
Qed.

Lemma anneal_T_is_some n T j pi pf :
  T_is n T -> (0 < n)%Z -> exists p, anneal j T pi pf = Some p.
Proof.
  intros [-> | ->] Hn; unfold anneal, py_int_div.
  - simpl. destruct (Z.eqb_spec n 0); [lia|]. simpl. eauto.
  - rewrite py_is_zero_float by (apply not_0_IZR; lia). simpl. eauto.
Qed.

Lemma anneal_T_is_last n T pi pf :
  T_is n T -> (0 < n)%Z -> anneal n T pi pf = Some pf.
Proof.
  intros [-> | ->] Hn; unfold anneal, py_int_div.
  - simpl. destruct (Z.eqb_spec n 0); [lia|]. simpl.
    rewrite Z.div_same by lia. simpl. f_equal. ring.
  - rewrite py_is_zero_float by (apply not_0_IZR; lia). simpl. f_equal.
    field. apply not_0_IZR. lia.
Qed.

Lemma scheduled_steps_reach (m : nat) : forall (self : mlbl (F := Rs)) n,
  T_is n self.(T) -> (0 <= self.(step))%Z ->
  (self.(step) + Z.of_nat (S m) = n)%Z ->
  exists s', scheduled_steps (S m) self = Some s' /\
    s'.(p_t) = self.(p_f) /\ s'.(step) = n.
Proof.
  induction m as [|m IH]; intros self n HT H0 Hn.
  - assert (Hlt : py_int_lt self.(step) self.(T) = true)
      by (apply (py_int_lt_T_is n); [assumption | lia]).
    assert (Ha : anneal (self.(step) + 1) self.(T) self.(p_i) self.(p_f)
                 = Some self.(p_f)).
    { replace (self.(step) + 1)%Z with n by lia.
      apply anneal_T_is_last; [assumption | lia]. }
    unfold scheduled_steps, scheduled_step, update_hyperparams.
    rewrite Hlt, Ha. simpl. eexists. split; [reflexivity|]. simpl.
    split; [reflexivity | lia].
  - assert (Hlt : py_int_lt self.(step) self.(T) = true)
      by (apply (py_int_lt_T_is n); [assumption | lia]).
    destruct (anneal_T_is_some n self.(T) (self.(step) + 1) self.(p_i)
                self.(p_f) HT ltac:(lia)) as [p Hp].
    change (scheduled_steps (S (S m)) self)
      with (self' <- scheduled_step self ;; scheduled_steps (S m) self').
    unfold scheduled_step, update_hyperparams at 1.
    rewrite Hlt, Hp. cbn [bind].
    match goal with |- context [scheduled_steps (S m) ?s] =>
      destruct (IH s n) as (s' & Hs & Hpt & Hst) end.
    + exact HT.
    + simpl. lia.
    + simpl. lia.
    + exists s'. split; [exact Hs|]. split; [exact Hpt | exact Hst].
Qed.

(** C5, as the code has it: called with step counter [step] below a float
    [T], [update_hyperparams] sets [p_t] to
    [(1 - (step+1)/T) * p_i + ((step+1)/T) * p_f]; with [step >= T] it sets
    [p_t] to [p_f]; and after exactly [T] scheduled steps from step 0, [T]
    given as an int or as a float, [p_t] equals [p_f]. *)
Theorem update_hyperparams_annealing (self : mlbl (F := Rs)) :
  (forall t, self.(T) = PyFloat t -> t <> 0 -> IZR self.(step) < t ->
     exists s', update_hyperparams self = Some s' /\
       s'.(p_t) = (1 - IZR (self.(step) + 1) / t) * self.(p_i)
                  + (IZR (self.(step) + 1) / t) * self.(p_f)) /\
  (match self.(T) with
   | PyInt n => (n <= self.(step))%Z
   | PyFloat t => t <= IZR self.(step)
   end ->
   exists s', update_hyperparams self = Some s' /\ s'.(p_t) = self.(p_f)) /\
  (forall n, (0 < n)%Z -> self.(step) = 0%Z -> T_is n self.(T) ->
     exists s', scheduled_steps (Z.to_nat n) self = Some s' /\
       s'.(p_t) = self.(p_f) /\ s'.(step) = n).
Proof.
  split; [|split].
  - intros t HT Ht Hlt. unfold update_hyperparams, anneal, py_int_div.
    rewrite HT. simpl py_int_lt. rewrite (Rgtb_true _ _ Hlt).
    rewrite py_is_zero_float by assumption. simpl.
    eexists. split; reflexivity.
  - intros Hge. unfold update_hyperparams.
    assert (Hlt : py_int_lt self.(step) self.(T) = false).
    { destruct self.(T) as [n | t]; simpl.
      - now apply Z.ltb_ge.
      - now apply Rgtb_false. }
    rewrite Hlt. eexists. split; reflexivity.
  - intros n Hn H0 HT.
    destruct (Z.to_nat n) as [|m] eqn:E; [lia|].
    apply scheduled_steps_reach; [assumption | lia | lia].
Qed.

Lemma update_hyperparams_annealing_witness :
  (exists s',
     update_hyperparams (tiny (F := Rs) 1 0 0 1 (PyFloat (F := Rs) 2) 0 3 1 2) = Some s' /\
     s'.(p_t) = (1 - IZR (0 + 1) / 2) * 0 + (IZR (0 + 1) / 2) * 1) /\
  (exists s',
     update_hyperparams (tiny (F := Rs) 1 0 0 1 (PyInt 2) 5 3 1 2) = Some s' /\
     s'.(p_t) = 1) /\
  (exists s',
     scheduled_steps 20 (tiny (F := Rs) 1 0 0 1 (PyInt 20) 0 3 1 2) = Some s' /\
     s'.(p_t) = 1 /\ s'.(step) = 20%Z).
Proof.
  split; [|split].
  - apply (proj1 (update_hyperparams_annealing
                    (tiny (F := Rs) 1 0 0 1 (PyFloat (F := Rs) 2) 0 3 1 2)) 2 eq_refl);
      simpl; lra.
  - apply (proj1 (proj2 (update_hyperparams_annealing
                           (tiny (F := Rs) 1 0 0 1 (PyInt 2) 5 3 1 2)))).
    simpl. lia.
  - apply (proj2 (proj2 (update_hyperparams_annealing
                           (tiny (F := Rs) 1 0 0 1 (PyInt 20) 0 3 1 2)))
             20%Z); [lia | reflexivity | left; reflexivity].
Defined.

(** C5 as stated fails: called with step counter 0 and [T = 2.0],
    [p_i = 0], [p_f = 1], the code sets [p_t] to 1/2, not to
    [(1 - 0/2) * p_i + (0/2) * p_f = 0]. *)
Lemma annealing_uses_next_step :
  exists s',
    update_hyperparams (tiny (F := Rs) 1 0 0 1 (PyFloat (F := Rs) 2) 0 3 1 2) = Some s' /\
    py_int_lt 0 (PyFloat (F := Rs) 2) = true /\
    s'.(p_t) <> (1 - IZR 0 / 2) * 0 + (IZR 0 / 2) * 1.
Proof.
  assert (Hlt : py_int_lt 0 (PyFloat (F := Rs) 2) = true)
    by (apply Rgtb_true; simpl; lra).
  unfold update_hyperparams, anneal, py_int_div.
  cbn [step T tiny]. rewrite Hlt.
  rewrite py_is_zero_float by lra. cbn [bind].
  eexists. split; [reflexivity|]. split; [reflexivity|].
  simpl. lra.
Qed.

(** With the default int [T] the quotient [(step+1)/T] is a floor division:
    for step 9 of [T = 20], [p_i = 0] and [p_f = 1], [p_t] stays at [p_i]. *)
Example annealing_int_T_is_a_step :
  exists s',
    update_hyperparams (tiny (F := Rs) 1 0 0 1 (PyInt 20) 9 3 1 2) = Some s' /\
    s'.(p_t) = 0.
Proof.
  eexists. split; [reflexivity|]. simpl.
  change (10 / 20)%Z with 0%Z. lra.
Qed.

Local Close Scope R_scope.

(** ** Striped minibatches *)

Lemma slice_count_lt len start stride i :
  stride <> 0 -> (i < slice_count len start stride <-> start + i * stride < len).
Proof.
  intros Hs. unfold slice_count. split; intros H.
  - assert (H1 : S i <= (len - start + stride - 1) / stride) by lia.
    assert (H2 : stride * S i <= len - start + stride - 1).
    { etransitivity; [apply Nat.mul_le_mono_l, H1 | apply Nat.Div0.mul_div_le]. }
    nia.
  - apply (Nat.lt_le_trans _ (S i)); [lia|].
    apply Nat.div_le_lower_bound; [assumption | nia].
Qed.

Lemma slice_positions_some len start stride :
  stride <> 0 ->
  slice_positions len start stride
  = Some (map (fun i => start + i * stride) (seq 0 (slice_count len start stride))).
Proof. intros Hs. unfold slice_positions. now destruct stride. Qed.


Lemma nth_map_seq {A : Type} (g : nat -> A) n i d :
  i < n -> nth i (map g (seq 0 n)) d = g i.
Proof.
  intros Hi. rewrite (nth_indep _ d (g 0)) by (now rewrite length_map, length_seq).
  rewrite map_nth, seq_nth; auto.
Qed.

Lemma slice_some (l : list nat) start stride :
  stride <> 0 ->
  slice l start stride
  = Some (map (fun i => nth (start + i * stride) l 0)
              (seq 0 (slice_count (length l) start stride))).
Proof.
  intros Hs. unfold slice. rewrite slice_positions_some by assumption.
  simpl. now rewrite map_map.
Qed.

(** ** The minibatches of an epoch partition the training set *)

Lemma mapM_map {A B : Type} (g : A -> B) (l : list A) :
  mapM (fun a => Some (g a)) l = Some (map g l).
Proof. induction l as [|a l IH]; simpl; [reflexivity|]. now rewrite IH. Qed.

Lemma mapM_ext_in {A B : Type} (g g' : A -> option B) (l : list A) :
  (forall a, In a l -> g a = g' a) -> mapM g l = mapM g' l.
Proof.
  induction l as [|a l IH]; intros H; simpl; [reflexivity|].
  rewrite (H a) by now left. rewrite IH; [reflexivity|].
  intros b Hb. apply H. now right.
Qed.





(** ** The training loop *)

Section LoopFacts.
Context {F : Scalar}.
Variable rng : Type.
Variable RandomState : Z -> rng.
Variable rand : rng -> nat -> nat -> mat * rng.
Variable randn : rng -> nat -> nat -> mat * rng.
Variable randn3 : rng -> nat -> nat -> nat -> tensor * rng.
Variable shuffle : rng -> list nat -> list nat * rng.
Variable compute_bleu : mlbl -> rng -> list num * rng.
Variable generate_and_show : mlbl -> rng -> rng.
Variable X : list (list Z).
Variable indX : list Z.
Variable XY : mat.
Variable IM : mat.
Variable prog : progress.

Let body := minibatch_body rand compute_bleu generate_and_show X indX XY IM prog.
Let ebody :=
  epoch_body RandomState rand shuffle compute_bleu generate_and_show
             X indX XY IM prog.

Lemma for_loop_app {A B : Type} (bd : B -> A -> option (B * bool)) l1 l2 b :
  for_loop bd (l1 ++ l2) b
  = (r <- for_loop bd l1 b ;; if snd r then Some r else for_loop bd l2 (fst r)).
Proof.
  revert b. induction l1 as [|a l1 IH]; intros b; simpl; [reflexivity|].
  destruct (bd b a) as [[b' brk]|]; simpl; [|reflexivity].
  destruct brk; simpl; [reflexivity | apply IH].
Qed.

(** A body that breaks at element [a], after the elements of [l1] ran
    through, ends the loop there, whatever elements remain. *)
Lemma for_break_stops {A B : Type} (bd : B -> A -> option (B * bool))
  l1 a l2 b b1 b2 :
  for_loop bd l1 b = Some (b1, false) -> bd b1 a = Some (b2, true) ->
  for_break bd (l1 ++ a :: l2) b = Some b2.
Proof.
  intros H1 H2. unfold for_break. rewrite for_loop_app, H1. simpl.
  now rewrite H2.
Qed.

(** Once [done] is set no epoch runs. *)
Lemma epochs_stop_when_done nb (st : run rng) epochs :
  st.(done) = true -> for_break (ebody nb) epochs st = Some st.
Proof.
  intros Hd. destruct epochs as [|e epochs]; [reflexivity|].
  unfold for_break. simpl. unfold ebody, epoch_body. now rewrite Hd.
Qed.

Lemma seq_split_at m nb :
  m < nb -> seq 0 nb = seq 0 m ++ m :: seq (S m) (nb - S m).
Proof.
  intros H. replace nb with (m + S (nb - S m)) at 1 by lia.
  now rewrite seq_app.
Qed.

(** The epoch in which the minibatch loop broke still runs its closing
    scheduler step. *)
Lemma epoch_body_after_break nb (st : run rng) e m st1 st2 self' :
  st.(done) = false -> m < nb ->
  for_loop (body nb) (seq 0 m) (epoch_start RandomState shuffle st e)
  = Some (st1, false) ->
  body nb st1 m = Some (st2, true) ->
  scheduled_step st2.(model) = Some self' ->
  ebody nb st e
  = Some (Run self' st2.(np_random) st2.(inds) st2.(bleu) st2.(best)
              st2.(scores) st2.(count) st2.(done) st2.(out), false).
Proof.
  intros Hd Hm H1 H2 Hs. unfold ebody, epoch_body. rewrite Hd.
  rewrite (seq_split_at m nb Hm).
  fold body.
  rewrite (for_break_stops (body nb) _ m _ _ st1 st2 H1 H2).
  cbn [bind]. now rewrite Hs.
Qed.

(** A break of the minibatch loop that sets [done] ends the whole run:
    the epochs [earlier] ran through, epoch [e] breaks at minibatch [m], and
    none of [later] runs. *)
Lemma run_ends_at_break nb st_init earlier e later (st_e : run rng) m st1 st2 self' :
  for_loop (ebody nb) earlier st_init = Some (st_e, false) ->
  st_e.(done) = false -> m < nb ->
  for_loop (body nb) (seq 0 m) (epoch_start RandomState shuffle st_e e)
  = Some (st1, false) ->
  body nb st1 m = Some (st2, true) ->
  st2.(done) = true ->
  scheduled_step st2.(model) = Some self' ->
  for_break (ebody nb) (earlier ++ e :: later) st_init
  = Some (Run self' st2.(np_random) st2.(inds) st2.(bleu) st2.(best)
              st2.(scores) st2.(count) st2.(done) st2.(out)).
Proof.
  intros He Hd Hm H1 H2 Hd2 Hs. unfold for_break.
  rewrite for_loop_app, He. cbn [bind snd fst].
  cbn [for_loop].
  rewrite (epoch_body_after_break nb st_e e m st1 st2 self' Hd Hm H1 H2 Hs).
  cbn [bind snd fst].
  match goal with |- context [for_loop _ later ?s] =>
    pose proof (epochs_stop_when_done nb s later Hd2) as Hl end.
  unfold for_break in Hl.
  destruct (for_loop (ebody nb) later _) as [[r brk]|]; simpl in *; congruence.
Qed.

Let reaches :=
  train_reaches RandomState rand randn randn3 shuffle compute_bleu
                generate_and_show X indX XY IM prog.

(** When the body of the minibatch loop breaks with [done] set, [train]
    returns the [best] of that moment. *)
Lemma train_ends_at_break self0 g0 count_dict embed_map nb e m st st2 self' :
  reaches self0 g0 count_dict embed_map nb e m st ->
  body nb st m = Some (st2, true) ->
  st2.(done) = true ->
  scheduled_step st2.(model) = Some self' ->
  exists final,
    train RandomState rand randn randn3 shuffle compute_bleu generate_and_show
          X indX XY IM prog self0 g0 count_dict embed_map
    = Some (st2.(best), final) /\
    final.(out) = st2.(out) /\ final.(count) = st2.(count).
Proof.
  intros (self1 & earlier & later & st_e & Hi & Hb & Hnb & Hm & Hseq & He & Hd & Hl)
         Hbody Hd2 Hs.
  unfold train. rewrite Hi. cbn [bind].
  change (batchsize (set_step self1 0)) with (batchsize self1).
  change (maxepoch (set_step self1 0)) with (maxepoch self1).
  destruct (Nat.eqb_spec self1.(batchsize) 0) as [E | _]; [contradiction|].
  cbn [bind]. rewrite Hseq, <- Hnb. fold ebody.
  rewrite (run_ends_at_break nb _ earlier e later st_e m st st2 self'
             He Hd Hm Hl Hbody Hd2 Hs).
  cbn [bind best]. eexists. split; [reflexivity|]. split; reflexivity.
Qed.

(** C3, as the code has it: when the hidden activation of a minibatch holds
    a NaN, the body of the minibatch loop, right after the parameter update,
    sets [done] and breaks; no further minibatch and no further epoch runs,
    and the run ends with [best] as it was. *)
Theorem nan_stops_training nb (st : run rng) m batchX batchY batchIm self g acts :
  batch_of X indX XY IM st nb m = Some (batchX, batchY, batchIm) ->
  sgd_step rand st.(model) st.(np_random) batchX batchY batchIm
  = Some (self, g, acts) ->
  any_nan acts = true ->
  body nb st m = Some (nan_state st self g, true) /\
  (forall st_init earlier e later st_e self',
     for_loop (ebody nb) earlier st_init = Some (st_e, false) ->
     st_e.(done) = false -> m < nb ->
     for_loop (body nb) (seq 0 m) (epoch_start RandomState shuffle st_e e)
     = Some (st, false) ->
     scheduled_step self = Some self' ->
     exists final,
       for_break (ebody nb) (earlier ++ e :: later) st_init = Some final /\
       final.(best) = st.(best) /\ final.(done) = true /\
       final.(out) = st.(out) ++ [print_nans]) /\
  (forall self0 g0 count_dict embed_map e self',
     reaches self0 g0 count_dict embed_map nb e m st ->
     scheduled_step self = Some self' ->
     exists final,
       train RandomState rand randn randn3 shuffle compute_bleu
             generate_and_show X indX XY IM prog self0 g0 count_dict embed_map
       = Some (st.(best), final) /\
       final.(out) = st.(out) ++ [print_nans]).
Proof.
  intros Hb Hs Hn.
  assert (Hbody : body nb st m = Some (nan_state st self g, true)).
  { unfold body, minibatch_body. rewrite Hb. cbn [bind].
    rewrite Hs. cbn [bind]. now rewrite Hn. }
  split; [exact Hbody|]. split.
  - intros st_init earlier e later st_e self' He Hd Hm Hl Hsch.
    eexists. split.
    + eapply (run_ends_at_break nb st_init earlier e later st_e m st _ self');
        eauto.
    + repeat split.
  - intros self0 g0 count_dict embed_map e self' Hreach Hsch.
    destruct (train_ends_at_break self0 g0 count_dict embed_map nb e m st
                (nan_state st self g) self' Hreach Hbody eq_refl Hsch)
      as (final & Ht & Ho & _).
    exists final. split; [exact Ht | exact Ho].
Qed.

(** C8: at a validation evaluation the last metric [b] is compared with
    [best].  If [b >= best], the patience count is reset to 0, [b] becomes
    [best] and the model is saved; otherwise the count grows by one, and when
    it reaches 10 [done] is set and the loop breaks: no further minibatch and
    no further epoch runs. *)
Theorem patience_rule nb (st : run rng) m batchX batchY batchIm self g acts
  self1 g1 out1 bleu g2 b :
  batch_of X indX XY IM st nb m = Some (batchX, batchY, batchIm) ->
  sgd_step rand st.(model) st.(np_random) batchX batchY batchIm
  = Some (self, g, acts) ->
  any_nan acts = false ->
  periodic generate_and_show prog self g st m = Some (self1, g1, out1) ->
  due self1 m prog.(prog_bleu) = true ->
  compute_bleu self1 g1 = (bleu, g2) ->
  last_item bleu = Some b ->
  patience = 10%Z /\
  (s_ge b st.(best) = true ->
   body nb st m
   = Some (Run self1 g2 st.(inds) bleu b bleu 0 st.(done)
               (out1 ++ [print_scores bleu; save_model self1 self1.(loc)]),
           false)) /\
  (s_ge b st.(best) = false ->
   body nb st m
   = Some (worse_state st self1 g2 out1 bleu, (st.(count) + 1 =? 10)%Z)) /\
  (s_ge b st.(best) = false -> (st.(count) + 1 = 10)%Z ->
   forall st_init earlier e later st_e self',
     for_loop (ebody nb) earlier st_init = Some (st_e, false) ->
     st_e.(done) = false -> m < nb ->
     for_loop (body nb) (seq 0 m) (epoch_start RandomState shuffle st_e e)
     = Some (st, false) ->
     scheduled_step self1 = Some self' ->
     exists final,
       for_break (ebody nb) (earlier ++ e :: later) st_init = Some final /\
       final.(best) = st.(best) /\ final.(done) = true /\
       final.(count) = 10%Z) /\
  (s_ge b st.(best) = false -> (st.(count) + 1 = 10)%Z ->
   forall self0 g0 count_dict embed_map e self',
     reaches self0 g0 count_dict embed_map nb e m st ->
     scheduled_step self1 = Some self' ->
     exists final,
       train RandomState rand randn randn3 shuffle compute_bleu
             generate_and_show X indX XY IM prog self0 g0 count_dict embed_map
       = Some (st.(best), final) /\
       final.(count) = 10%Z).
Proof.
  intros Hb Hs Hn Hp Hdue Hc Hl.
  assert (Hbody : body nb st m = judge self1 g2 out1 st bleu).
  { unfold body, minibatch_body. rewrite Hb. cbn [bind]. rewrite Hs.
    cbn [bind]. rewrite Hn, Hp. cbn [bind]. now rewrite Hdue, Hc. }
  assert (Hbrk : s_ge b st.(best) = false -> (st.(count) + 1 = 10)%Z ->
                 body nb st m
                 = Some (Run self1 g2 st.(inds) bleu st.(best) st.(scores)
                             (st.(count) + 1) true out1, true)).
  { intros Hge Hten. rewrite Hbody. unfold judge, patience. rewrite Hl.
    cbn [bind]. rewrite Hge. apply Z.eqb_eq in Hten. now rewrite Hten. }
  split; [reflexivity|]. split; [|split; [|split]].
  - intros Hge. rewrite Hbody. unfold judge. rewrite Hl. cbn [bind].
    now rewrite Hge.
  - intros Hge. rewrite Hbody. unfold judge, worse_state, patience.
    rewrite Hl. cbn [bind]. rewrite Hge.
    destruct (st.(count) + 1 =? 10)%Z; [|now rewrite orb_false_r].
    now rewrite orb_true_r.
  - intros Hge Hten st_init earlier e later st_e self' He Hd Hm Hloop Hsch.
    eexists. split.
    + eapply (run_ends_at_break nb st_init earlier e later st_e m st _ self');
        eauto.
    + repeat split. simpl. exact Hten.
  - intros Hge Hten self0 g0 count_dict embed_map e self' Hreach Hsch.
    destruct (train_ends_at_break self0 g0 count_dict embed_map nb e m st
                _ self' Hreach (Hbrk Hge Hten) eq_refl Hsch)
      as (final & Ht & _ & Hcnt).
    exists final. split; [exact Ht|]. rewrite Hcnt. exact Hten.
Qed.

End LoopFacts.

Local Open Scope R_scope.

Lemma Rgeb_true (x y : real) : y <= x -> Rgeb x y = true.
Proof. intros H. unfold Rgeb. destruct (Rle_dec y x); [reflexivity | contradiction]. Qed.

Lemma Rgeb_false (x y : real) : x < y -> Rgeb x y = false.
Proof. intros H. unfold Rgeb. destruct (Rle_dec y x); [lra | reflexivity]. Qed.

(** Decides the comparisons of concrete reals met while running the model. *)
Ltac decide_reals :=
  repeat match goal with
         | |- context [Rgtb ?a ?b] =>
             first [ rewrite (Rgtb_true a b) by lra
                   | rewrite (Rgtb_false a b) by lra ]
         | |- context [Rgeb ?a ?b] =>
             first [ rewrite (Rgeb_true a b) by lra
                   | rewrite (Rgeb_false a b) by lra ]
         end.

(** The tenth evaluation in a row below [best = 1] ends the run. *)
Lemma patience_rule_witness :
  exists r,
    minibatch_body demo_rand (demo_bleu (F := Rs) 0) demo_show
      demo_X demo_indX demo_XY (demo_IM (F := Rs) 0) demo_prog 2
      (demo_run (tiny (F := Rs) 1 (1/2) (1/2) (1/2) (PyInt 20) 0 3 1 2) 0 1 9)
      1
    = Some (r, true)
    /\ r.(count) = 10%Z /\ r.(done) = true /\ r.(best) = 1.
Proof.
  edestruct (patience_rule (F := Rs) nat demo_RandomState demo_rand
               demo_randn demo_randn3
               demo_shuffle (demo_bleu (F := Rs) 0) demo_show
               demo_X demo_indX demo_XY (demo_IM (F := Rs) 0) demo_prog 2
               (demo_run (tiny (F := Rs) 1 (1/2) (1/2) (1/2) (PyInt 20) 0 3 1 2)
                         0 1 9)
               1%nat)
    as (_ & _ & Hw & _).
  - reflexivity.
  - unfold sgd_step, forward. simpl. decide_reals. simpl. reflexivity.
  - reflexivity.
  - reflexivity.
  - reflexivity.
  - reflexivity.
  - reflexivity.
  - eexists. split.
    + apply Hw. apply Rgeb_false. simpl. lra.
    + repeat split.
Defined.

(** Runs the model on concrete data, leaving real arithmetic alone. *)
Ltac run_model :=
  cbv -[Rgtb Rgeb xscale_inf xdiv xsqrt xeq Rplus Rmult Rminus Rdiv Rinv Ropp
        exp sqrt IZR Rlt_dec Rle_dec Req_dec_T Rmax].

Lemma xscale_inf_pos (r : real) (pos : bool) :
  0 < r -> xscale_inf r pos = if pos then PInf else NInf.
Proof. intros H. unfold xscale_inf. destruct (Rlt_dec 0 r); [reflexivity | contradiction]. Qed.

(** Pretrained embeddings that hold a NaN: the first minibatch of [train]
    ends the run, which returns the initial [best]. *)
Lemma nan_stops_training_witness :
  exists final,
    train demo_RandomState demo_rand demo_randn demo_randn3 demo_shuffle
          (demo_bleu (F := Xs) (Fin 0)) demo_show
          demo_X demo_indX demo_XY (demo_IM (F := Xs) (Fin 0)) demo_prog
          (tiny (F := Xs) (Fin 1) (Fin (1/2)) (Fin (1/2)) (Fin (1/2))
                (PyInt 20) 0 (Fin 0) (Fin 0) (Fin 0))
          0%nat [(0%nat, "a"%string)] (Some [("a"%string, [NaN])])
    = Some (Fin 0, final)
    /\ final.(out) = [display_phase 1; print_nans].
Proof.
  pose (self0 := tiny (F := Xs) (Fin 1) (Fin (1/2)) (Fin (1/2)) (Fin (1/2))
                      (PyInt 20) 0 (Fin 0) (Fin 0) (Fin 0)).
  eassert (Hi : init_params demo_RandomState demo_rand demo_randn demo_randn3
                  (set_start self0 self0.(seed))
                  (Some [("a"%string, [NaN])]) [(0%nat, "a"%string)]
                = Some _) by reflexivity.
  match type of Hi with _ = Some ?s => set (self1 := s) in * end.
  pose (st := epoch_start demo_RandomState demo_shuffle
                (initial_run demo_X (set_step self1 0) 0%nat) 0).
  edestruct (nan_stops_training (F := Xs) nat demo_RandomState demo_rand
               demo_randn demo_randn3
               demo_shuffle (demo_bleu (F := Xs) (Fin 0)) demo_show
               demo_X demo_indX demo_XY (demo_IM (F := Xs) (Fin 0)) demo_prog 2
               st 0%nat)
    as (_ & _ & Hw).
  - reflexivity.
  - assert (Hdrop : s_gt (dropout (model st)) zero = false)
      by (apply Rgtb_false; simpl; lra).
    unfold sgd_step, forward. rewrite Hdrop. run_model. reflexivity.
  - reflexivity.
  - edestruct (Hw self0 0%nat [(0%nat, "a"%string)] (Some [("a"%string, [NaN])])
                  0%nat) as (final & Ht & Ho).
    + exists self1, [], [], (initial_run demo_X (set_step self1 0) 0%nat).
      split; [exact Hi|]. split; [simpl; lia|]. split; [reflexivity|].
      split; [lia|]. split; [reflexivity|]. split; [reflexivity|].
      split; reflexivity.
    + reflexivity.
    + exists final. split; [exact Ht | exact Ho].
Defined.

(** C3 as stated fails for infinities: with an embedding entry [+Inf] the
    hidden activation of the minibatch is [+Inf], which is not a NaN; the
    body of the loop neither breaks nor sets [done]. *)
Lemma inf_does_not_stop :
  let st := demo_run (tiny_with (tiny (F := Xs) (Fin 1) (Fin (1/2)) (Fin (1/2))
                                      (Fin (1/2)) (PyInt 20) 0 (Fin 0) (Fin 0)
                                      (Fin 0))
                                PInf (Fin 1) (Fin 0) (Fin 0) (Fin 0))
                     0 (Fin 0) 0 in
  exists self g r,
    sgd_step demo_rand st.(model) st.(np_random) [[0%Z]] [[Fin 1]] [[Fin 0]]
    = Some (self, g, [[PInf]])
    /\ xisfinite PInf = false
    /\ minibatch_body demo_rand (demo_bleu (F := Xs) (Fin 0)) demo_show
         demo_X demo_indX demo_XY (demo_IM (F := Xs) (Fin 0)) demo_prog 2 st 0
       = Some (r, false)
    /\ r.(done) = false.
Proof.
  intros st.
  assert (Hs : exists self g,
             sgd_step demo_rand st.(model) st.(np_random)
                      [[0%Z]] [[Fin 1]] [[Fin 0]]
             = Some (self, g, [[PInf]])).
  { assert (Hdrop : s_gt (dropout (model st)) zero = false)
      by (apply Rgtb_false; simpl; lra).
    do 2 eexists. unfold sgd_step, forward. rewrite Hdrop. run_model.
    match goal with
    | |- Some (?s, ?g, [[?a]]) = _ =>
        assert (Ha : a = PInf);
        [| exact (f_equal (fun x => Some (s, g, [[x]])) Ha)]
    end.
    rewrite (xscale_inf_pos 1 true) by lra. decide_reals. reflexivity. }
  destruct Hs as (self & g & Hs).
  exists self, g. eexists. split; [exact Hs|]. split; [reflexivity|].
  unfold minibatch_body.
  change (batch_of demo_X demo_indX demo_XY (demo_IM (F := Xs) (Fin 0)) st 2 0)
    with (Some ([[0%Z]], [[Fin 1]] : list (list (@num Xs)),
                [[Fin 0]] : list (list (@num Xs)))).
  cbn [bind]. rewrite Hs. cbn [bind]. simpl. split; reflexivity.
Qed.

(** ** The softmax of forward *)

Lemma mapM_Forall {A B : Type} (g : A -> option B) (P : B -> Prop) (l : list A) :
  (forall a, In a l -> exists b, g a = Some b /\ P b) ->
  exists bs, mapM g l = Some bs /\ Forall P bs /\ length bs = length l.
Proof.
  induction l as [|a l IH]; intros H; simpl.
  - exists []. repeat split. constructor.
  - destruct (H a (or_introl eq_refl)) as (b & Hb & HP).
    destruct IH as (bs & Hbs & HF & Hlen).
    { intros a' Ha'. apply H. now right. }
    exists (b :: bs). rewrite Hb, Hbs. simpl. repeat split; auto.
Qed.

Lemma vsum_shift (l : list real) (a : real) :
  fold_left Rplus l a = a + fold_left Rplus l 0.
Proof.
  revert a. induction l as [|x l IH]; intros a; simpl; [lra|].
  rewrite (IH (a + x)), (IH (0 + x)). lra.
Qed.

Lemma vsum_real (l : list real) : vsum (F := Rs) l = fold_left Rplus l 0.
Proof. reflexivity. Qed.

Lemma vsum_cons (x : real) (l : list real) :
  vsum (F := Rs) (x :: l) = x + vsum (F := Rs) l.
Proof.
  rewrite !vsum_real. simpl. rewrite vsum_shift. lra.
Qed.

Lemma vsum_scaled (l : list real) (s : real) :
  vsum (F := Rs) (map (fun x => x / s) l) = vsum (F := Rs) l / s.
Proof.
  induction l as [|x l IH].
  - rewrite !vsum_real. simpl. unfold Rdiv. ring.
  - cbn [map]. rewrite !vsum_cons, IH. change (@num Rs) with real.
    unfold Rdiv. ring.
Qed.

Lemma vsum_exp_pos (g : real -> real) (l : list real) :
  l <> [] -> 0 < vsum (F := Rs) (map (fun x => exp (g x)) l).
Proof.
  intros Hl. destruct l as [|x l]; [congruence|]. clear Hl.
  revert x. induction l as [|y l IH]; intros x.
  - cbn [map]. rewrite vsum_cons, vsum_real. simpl.
    pose proof (exp_pos (g x)). lra.
  - cbn [map] in *. rewrite vsum_cons.
    pose proof (exp_pos (g x)). pose proof (IH y). lra.
Qed.


Lemma mapM_py_index_some (len : nat) (l : list Z) :
  Forall (fun x => (0 <= x < Z.of_nat len)%Z) l ->
  exists js, mapM (py_index len) l = Some js.
Proof.
  intros H. destruct (mapM_Forall (py_index len) (fun _ => True) l) as (js & Hjs & _).
  - intros a Ha. rewrite Forall_forall in H. specialize (H a Ha).
    unfold py_index.
    destruct (Z.leb_spec 0 a); [|lia]. destruct (Z.ltb_spec a (Z.of_nat len)); [|lia].
    simpl. eauto.
  - eauto.
Qed.

Lemma foldM_invariant {A B : Type} (bd : B -> A -> option B) (P : B -> Prop)
  (l : list A) (b : B) :
  P b ->
  (forall b a, In a l -> P b -> exists b', bd b a = Some b' /\ P b') ->
  exists b', foldM bd l b = Some b' /\ P b'.
Proof.
  revert b. induction l as [|a l IH]; intros b Hb H; simpl; [eauto|].
  destruct (H b a (or_introl eq_refl) Hb) as (b1 & E & Hb1). rewrite E. simpl.
  apply IH; [assumption|]. intros b2 a2 Ha2. apply H. now right.
Qed.

Lemma ncols_shape {F : Scalar} m n (A : mat) :
  shape m n A -> (0 < m)%nat -> ncols A = n.
Proof.
  intros [Hm Hr] Hpos. unfold ncols. destruct A as [|r A]; simpl in *; [lia|].
  now inversion Hr.
Qed.

Section ForwardFacts.
Variable rng : Type.
Variable rand : rng -> nat -> nat -> list (list (@num Rs)) * rng.
Hypothesis rand_rows : forall g m n, length (fst (rand g m n)) = m.


End ForwardFacts.



(** ** backward: both gradient paths reach dR *)

Local Close Scope R_scope.

Section ShapeFacts.
Context {F : Scalar}.

Lemma shape_dot (A B : mat) : shape (length A) (ncols B) (dot A B).
Proof.
  unfold dot. split; [now rewrite length_map|].
  rewrite Forall_map. apply Forall_forall. intros r _.
  now rewrite length_map, length_seq.
Qed.

Lemma length_transpose (A : mat) : length (transpose A) = ncols A.
Proof. unfold transpose. now rewrite length_map, length_seq. Qed.

Lemma get_add_to_col m n (A : mat) v u k j :
  shape m n A -> k < m -> j < n ->
  get (add_to_col A v u) k j
  = if Nat.eqb j v then s_add (get A k j) (nth k u zero) else get A k j.
Proof.
  intros HA Hk Hj. unfold get, add_to_col.
  pose proof (shape_row m n A k HA Hk) as Hr. destruct HA as [Hm _].
  rewrite (nth_zip_with _ _ _ k [] 0 [])
    by (rewrite ?length_seq; lia).
  rewrite seq_nth by lia. cbn [Nat.add].
  rewrite (nth_zip_with _ _ _ j zero 0 zero)
    by (rewrite ?length_seq; lia).
  rewrite seq_nth by lia. reflexivity.
Qed.

Lemma shape_add_to_col m n (A : mat) v u :
  shape m n A -> shape m n (add_to_col A v u).
Proof.
  intros [Hm Hr]. unfold add_to_col. split.
  - rewrite zip_with_length, length_seq. lia.
  - unfold zip_with at 1. rewrite Forall_map. apply Forall_forall.
    intros [k r] Hin. apply in_combine_r in Hin. cbn [fst snd].
    rewrite zip_with_length, length_seq, Nat.min_id.
    rewrite Forall_forall in Hr. now apply Hr.
Qed.

Lemma foldM_seq_invariant {B : Type} (bd : B -> nat -> option B)
  (P : nat -> B -> Prop) (n : nat) (b : B) :
  P 0 b ->
  (forall i b, i < n -> P i b -> exists b', bd b i = Some b' /\ P (S i) b') ->
  exists b', foldM bd (seq 0 n) b = Some b' /\ P n b'.
Proof.
  intros H0 Hstep.
  assert (G : forall len start b, start + len = n -> P start b ->
              exists b', foldM bd (seq start len) b = Some b' /\ P n b').
  { induction len as [|len IH]; intros start b0 Hn Hb; simpl.
    - replace n with start by lia. eauto.
    - destruct (Hstep start b0 ltac:(lia) Hb) as (b1 & E & Hb1).
      rewrite E. simpl. apply IH; [lia | assumption]. }
  apply (G n 0 b); [lia | assumption].
Qed.

End ShapeFacts.

Local Open Scope R_scope.

Lemma vsum_snoc (l : list real) (x : real) :
  vsum (F := Rs) (l ++ [x]) = vsum (F := Rs) l + x.
Proof.
  rewrite !vsum_real, fold_left_app. reflexivity.
Qed.

Lemma vsum_map_seq_S (g : nat -> real) (n : nat) :
  vsum (F := Rs) (map g (seq 0 (S n))) = vsum (F := Rs) (map g (seq 0 n)) + g n.
Proof. rewrite seq_S, map_app. cbn [map Nat.add]. apply vsum_snoc. Qed.

Lemma set_item_some {F : Scalar} (A : tensor) (i : nat) (B : mat) :
  (i < length A)%nat ->
  exists A', set_item A i B = Some A' /\ length A' = length A.
Proof.
  revert i. induction A as [|a A IH]; intros i Hi; simpl in Hi; [lia|].
  destruct i as [|i]; simpl.
  - eexists. split; [reflexivity|]. reflexivity.
  - destruct (IH i ltac:(lia)) as (A' & E & Hl). rewrite E. simpl.
    eexists. split; [reflexivity|]. simpl. now rewrite Hl.
Qed.

Lemma contexts_entry ctx nv X j c :
  contexts_in_range ctx nv X -> (j < length X)%nat -> (c < ctx)%nat ->
  exists row, nth_error X j = Some row /\
    nth_error row c = Some (nth c (nth j X []) 0%Z) /\
    (0 <= nth c (nth j X []) 0 < Z.of_nat nv)%Z.
Proof.
  intros HX Hj Hc. unfold contexts_in_range in HX. rewrite Forall_forall in HX.
  destruct (HX (nth j X []) (nth_In X [] Hj)) as [Hl Hr].
  exists (nth j X []). split; [now apply nth_error_nth'|].
  split; [apply nth_error_nth'; lia|].
  rewrite Forall_forall in Hr. apply Hr, nth_In. lia.
Qed.

Lemma py_index_in_range (len : nat) (x : Z) :
  (0 <= x < Z.of_nat len)%Z -> py_index len x = Some (Z.to_nat x).
Proof.
  intros H. unfold py_index.
  destruct (Z.leb_spec 0 x); [|lia]. destruct (Z.ltb_spec x (Z.of_nat len)); [|lia].
  reflexivity.
Qed.

(** The inner loop adds, to every entry [(k, v)] of [dR], entry [k] of the
    rows of [delta] whose example has word [v] at position [c]. *)
Lemma scatter_adds m n ctx (X : list (list Z)) (c : nat)
  (delta dR0 : list (list (@num Rs))) :
  shape m n dR0 -> contexts_in_range ctx n X -> (c < ctx)%nat ->
  exists dR1, scatter n X c delta dR0 = Some dR1 /\ shape m n dR1 /\
    forall k v, (k < m)%nat -> (v < n)%nat ->
      get dR1 k v
      = get dR0 k v
        + vsum (F := Rs)
            (map (fun j => if (nth c (nth j X []) 0 =? Z.of_nat v)%Z
                           then get delta j k else 0)
                 (seq 0 (length X))).
Proof.
  intros HdR HX Hc. unfold scatter.
  apply (foldM_seq_invariant _
           (fun j (dR1 : list (list (@num Rs))) =>
              shape m n dR1 /\
              forall k v, (k < m)%nat -> (v < n)%nat ->
                get dR1 k v
                = get dR0 k v
                  + vsum (F := Rs)
                      (map (fun j => if (nth c (nth j X []) 0 =? Z.of_nat v)%Z
                                     then get delta j k else 0)
                           (seq 0 j)))).
  - split; [assumption|]. intros k v _ _. rewrite vsum_real. simpl. lra.
  - intros j dR1 Hj [Hs Hget].
    destruct (contexts_entry ctx n X j c HX Hj Hc) as (row & E1 & E2 & Hx).
    rewrite E1. cbn [bind]. rewrite E2. cbn [bind].
    rewrite (py_index_in_range n _ Hx). cbn [bind].
    eexists. split; [reflexivity|]. split; [now apply shape_add_to_col|].
    intros k v Hk Hv.
    rewrite (get_add_to_col m n) by assumption.
    rewrite vsum_map_seq_S, (Hget k v Hk Hv).
    destruct (Z.eqb_spec (nth c (nth j X []) 0%Z) (Z.of_nat v)) as [E | E].
    + rewrite E, Nat2Z.id, Nat.eqb_refl. unfold get. simpl. lra.
    + destruct (Nat.eqb_spec v (Z.to_nat (nth c (nth j X []) 0%Z))) as [E' | _].
      * exfalso. apply E. rewrite E'. lia.
      * change (@num Rs) with real. lra.
Qed.

Lemma shape_output_error (Y preds : list (list (@num Rs))) n :
  shape (length preds) n preds -> shape (length preds) n Y ->
  shape (length preds) n (output_error Y preds).
Proof.
  intros Hp HY. unfold output_error, mat_div, mat_sub.
  apply shape_map. now apply shape_zip_with.
Qed.

(** C1: [backward] returns, and every entry [(k, v)] of the gradient buffer
    [dR] it leaves is the sum of the output-projection contribution
    [acts^T . Ix], of the embedding-lookup contribution (for every context
    position [c] and example [j] with word [v] at [c], entry [k] of row [j]
    of [Ix . R^T . C[c]^T]) and of the weight-decay term [gamma_r * R]; the
    sum is formed in [backward], which leaves the parameters as they are. *)
Theorem backward_accumulates_both_paths (self : mlbl (F := Rs))
  (Y preds IF acts : list (list (@num Rs))) (words : list (list (list (@num Rs))))
  (X : list (list Z)) (Im : list (list (@num Rs))) :
  (0 < length preds)%nat -> (0 < self.(K))%nat ->
  shape (length preds) self.(V) preds -> shape (length preds) self.(V) Y ->
  shape (length preds) self.(K) acts ->
  shape self.(K) self.(V) self.(R) ->
  length self.(C) = self.(context) ->
  contexts_in_range self.(context) self.(V) X ->
  exists self', backward self Y preds IF acts words X Im = Some self' /\
    (forall k v, (k < self.(K))%nat -> (v < self.(V))%nat ->
       get self'.(dR) k v
       = get (dot (transpose acts) (output_error Y preds)) k v
         + lookup_grad self (output_error Y preds) X k v
         + self.(gamma_r) * get self.(R) k v) /\
    (R self', C self', bw self', M self', J self', bj self')
    = (R self, C self, bw self, M self, J self, bj self).
Proof.
  intros HB HK Hp HY Ha HR HC HX.
  pose proof (shape_output_error Y preds self.(V) Hp HY) as HIx.
  assert (Hnv : ncols (output_error Y preds) = self.(V))
    by (apply (ncols_shape (length preds)); assumption).
  assert (HdR0 : shape self.(K) self.(V)
                   (dot (transpose acts) (output_error Y preds))).
  { rewrite <- Hnv at 1.
    rewrite <- (ncols_shape (length preds) self.(K) acts Ha HB) at 1.
    rewrite <- length_transpose. apply shape_dot. }
  unfold backward. rewrite Hnv.
  set (Ix := output_error Y preds) in *.
  set (Ix2 := dot Ix (transpose self.(R))).
  match goal with |- context [foldM ?bd (seq 0 ?n) ?b] =>
    destruct (foldM_seq_invariant bd
                (fun i (acc : list (list (list (@num Rs))) * list (list (@num Rs))) =>
                   length (fst acc) = length self.(C) /\
                   shape self.(K) self.(V) (snd acc) /\
                   forall k v, (k < self.(K))%nat -> (v < self.(V))%nat ->
                     get (snd acc) k v
                     = get (dot (transpose acts) Ix) k v
                       + vsum (F := Rs)
                           (map (fun c =>
                                   vsum (F := Rs)
                                     (map (fun j =>
                                             if (nth c (nth j X []) 0 =? Z.of_nat v)%Z
                                             then get (dot Ix2 (transpose (nth c self.(C) []))) j k
                                             else 0)
                                          (seq 0 (length X))))
                                (seq 0 i)))
                n b) as ([dC1 dR1] & Hfold & _ & HdR1 & Hget)
  end.
  - cbn [fst snd]. split; [now rewrite length_map|]. split; [assumption|].
    intros k v _ _. rewrite !vsum_real. simpl. change (@num Rs) with real. lra.
  - intros i [dC dR0] Hi (Hl & Hs & Hg). cbn [fst snd] in *.
    destruct (set_item_some dC i (dot (transpose (position words i)) Ix2))
      as (dC' & E & Hl'); [lia|].
    rewrite E. cbn [bind].
    destruct (scatter_adds self.(K) self.(V) self.(context) X i
                (dot Ix2 (transpose (nth i self.(C) []))) dR0 Hs HX Hi)
      as (dR' & E' & Hs' & Hg').
    rewrite E'. cbn [bind]. eexists. split; [reflexivity|]. cbn [fst snd].
    split; [congruence|]. split; [assumption|].
    intros k v Hk Hv. rewrite (Hg' k v Hk Hv), (Hg k v Hk Hv), vsum_map_seq_S.
    change (@num Rs) with real. lra.
  - cbn [fst snd] in HdR1, Hget.
    rewrite Hfold. cbn [bind]. eexists. split; [reflexivity|].
    cbn [dR set_grads R C bw M J bj]. split; [|reflexivity].
    intros k v Hk Hv.
    rewrite (get_mat_add self.(K) self.(V));
      [|assumption|apply shape_map; assumption|assumption|assumption].
    unfold mat_scale. rewrite (get_map _ self.(K) self.(V)) by assumption.
    rewrite (Hget k v Hk Hv). reflexivity.
Qed.

Lemma backward_accumulates_both_paths_witness :
  exists self',
    backward (tiny (F := Rs) 1 (1/2) (1/2) (1/2) (PyInt 20) 0 3 1 2)
             [[1]] [[1/2]] [[0]] [[2]] [[[3]]] [[0%Z]] [[0]] = Some self' /\
    get self'.(dR) 0 0
    = get (dot (F := Rs) (transpose (F := Rs) [[2]])
               (output_error (F := Rs) [[1]] [[1/2]])) 0 0
      + lookup_grad (tiny (F := Rs) 1 (1/2) (1/2) (1/2) (PyInt 20) 0 3 1 2)
                    (output_error (F := Rs) [[1]] [[1/2]]) [[0%Z]] 0 0
      + 0 * 3.
Proof.
  destruct (backward_accumulates_both_paths
              (tiny (F := Rs) 1 (1/2) (1/2) (1/2) (PyInt 20) 0 3 1 2)
              [[1]] [[1/2]] [[0]] [[2]] [[[3]]] [[0%Z]] [[0]])
    as (s' & Hs & Hg & _).
  - simpl. lia.
  - simpl. lia.
  - repeat constructor.
  - repeat constructor.
  - repeat constructor.
  - apply tiny_shaped.
  - reflexivity.
  - repeat constructor; simpl; lia.
  - exists s'. split; [exact Hs|]. exact (Hg 0%nat 0%nat (le_n 1%nat) (le_n 1%nat)).
Defined.

(** ** Dropout draws from the global generator *)

(** C6 at a failing input: one minibatch on [dropout_model] (dropout 1/2),
    same model, same data, same seed, run once with the global generator
    [np.random] in state 0 and once in state 1.  The dropout mask keeps the
    hidden unit in one run and drops it in the other, and the image context
    matrix [M] after the update differs. *)
Lemma dropout_mask_ignores_seed :
  exists sA gA actsA sB gB actsB,
    sgd_step demo_rand dropout_model 0%nat [[0%Z]] [[1; 0]] [[1]]
    = Some (sA, gA, actsA) /\
    sgd_step demo_rand dropout_model 1%nat [[0%Z]] [[1; 0]] [[1]]
    = Some (sB, gB, actsB) /\
    seed sA = seed sB /\
    get (M sA) 0 0 <> get (M sB) 0 0.
Proof.
  do 6 eexists. split; [|split; [|split]].
  - run_model. decide_reals. run_model. decide_reals. run_model. reflexivity.
  - run_model. decide_reals. run_model. decide_reals. run_model. reflexivity.
  - reflexivity.
  - run_model.
    repeat match goal with
           | |- context [exp ?a] =>
               generalize (exp_pos a); generalize (exp a); intros ? ?
           end.
    repeat match goal with
           | |- context [?n / (0 + ?x + ?y)] =>
               let Hq := fresh "Hq" in
               assert (Hq : 0 < n / (0 + x + y))
                 by (apply Rdiv_lt_0_compat; lra);
               generalize dependent (n / (0 + x + y)); intros ? ?
           end.
    lra.
Qed.

(** * Further properties of the code *)

Local Close Scope R_scope.

(** ** How a minibatch is put together *)

Lemma mapM_nth {A B : Type} (g : A -> option B) (l : list A) (bs : list B) :
  mapM g l = Some bs ->
  length bs = length l /\
  forall i d d', i < length l -> g (nth i l d) = Some (nth i bs d').
Proof.
  revert bs. induction l as [|a l IH]; intros bs H; simpl in H.
  - injection H as <-. split; [reflexivity|]. intros i d d' Hi. simpl in Hi. lia.
  - destruct (g a) as [b|] eqn:Ea; simpl in H; [|discriminate].
    destruct (mapM g l) as [bs'|] eqn:El; simpl in H; [|discriminate].
    injection H as <-. destruct (IH bs' eq_refl) as [Hlen Hnth].
    split; [simpl; now rewrite Hlen|].
    intros [|i] d d' Hi; simpl; [exact Ea|]. apply Hnth. simpl in Hi. lia.
Qed.

Lemma nth_map_in_range {A B : Type} (g : A -> B) (l : list A) i d d' :
  i < length l -> nth i (map g l) d' = g (nth i l d).
Proof.
  intros Hi. rewrite (nth_indep _ d' (g d)) by (now rewrite length_map).
  apply map_nth.
Qed.

Section BatchFacts.
Context {F : Scalar}.
Variable rng : Type.
Variable X : list (list Z).
Variable indX : list Z.
Variable XY : mat.
Variable IM : mat.

(** The rows of [batchX], [batchY] and [batchIm] belong to the same training
    examples: row [i] of each comes from the example whose index is at
    position [minibatch + i * numbatches] of the shuffled index array, the
    image being the one numbered [floor(indX / 5)]. *)
Theorem batch_rows_aligned (st : run rng) (numbatches minibatch : nat)
  (batchX : list (list Z)) (batchY batchIm : mat) :
  batch_of X indX XY IM st numbatches minibatch = Some (batchX, batchY, batchIm) ->
  let n := slice_count (length st.(inds)) minibatch numbatches in
  length batchX = n /\ length batchY = n /\ length batchIm = n /\
  forall i, i < n ->
    let p := nth (minibatch + i * numbatches) st.(inds) 0 in
    nth_error X p = Some (nth i batchX []) /\
    nth_error XY p = Some (nth i batchY []) /\
    exists z j, nth_error indX p = Some z /\
      py_index (length IM) (z / 5) = Some j /\
      nth_error IM j = Some (nth i batchIm []).
Proof.
  unfold batch_of, slice. intros H.
  destruct numbatches as [|nb']; [discriminate|].
  rewrite slice_positions_some in H by discriminate. cbn [bind] in H.
  rewrite map_map in H.
  set (nb := S nb') in *.
  set (n := slice_count (length st.(inds)) minibatch nb) in *.
  set (sel := map (fun i => nth (minibatch + i * nb) st.(inds) 0) (seq 0 n)) in *.
  unfold rows_at, rows_at_Z in H.
  destruct (mapM (nth_error X) sel) as [bX|] eqn:EX; [|discriminate].
  cbn [bind] in H.
  destruct (mapM (nth_error XY) sel) as [bY|] eqn:EY; [|discriminate].
  cbn [bind] in H.
  destruct (mapM (nth_error indX) sel) as [bI|] eqn:EI; [|discriminate].
  cbn [bind] in H.
  match type of H with bind ?m _ = _ => destruct m as [bIm|] eqn:EIm end;
    [|discriminate].
  cbn [bind] in H. injection H as <- <- <-.
  assert (Hsel : length sel = n) by (unfold sel; now rewrite length_map, length_seq).
  apply mapM_nth in EX, EY, EI, EIm.
  destruct EX as [LX NX], EY as [LY NY], EI as [LI NI], EIm as [LIm NIm].
  rewrite length_map in LIm.
  cbv zeta. repeat split; try congruence.
  - specialize (NX i 0 [] ltac:(lia)). unfold sel in NX at 1.
    now rewrite nth_map_seq in NX.
  - specialize (NY i 0 [] ltac:(lia)). unfold sel in NY at 1.
    now rewrite nth_map_seq in NY.
  - specialize (NI i 0 0%Z ltac:(lia)). unfold sel in NI at 1.
    rewrite nth_map_seq in NI by assumption.
    specialize (NIm i 0%Z [] ltac:(rewrite length_map; lia)).
    cbv beta in NIm.
    rewrite (nth_map_in_range (fun z => (z / 5)%Z) bI i 0%Z 0%Z) in NIm by lia.
    destruct (py_index (length IM) (nth i bI 0%Z / 5)) as [j|] eqn:Ej;
      [|discriminate].
    exists (nth i bI 0%Z), j. repeat split; assumption.
Qed.

End BatchFacts.

Lemma batch_rows_aligned_witness :
  batch_of demo_X demo_indX demo_XY (demo_IM (F := Rs) 0%R)
           (demo_run (tiny (F := Rs) 1 (1/2) (1/2) (1/2) (PyInt 20) 0 3 1 2)%R
                     0 0%R 0) 2 1
  = Some ([[0%Z]], [[1%R]], [[0%R]])
  /\ nth_error demo_X 1 = Some [0%Z].
Proof.
  split; [reflexivity|].
  assert (H : batch_of demo_X demo_indX demo_XY (demo_IM (F := Rs) 0%R)
                (demo_run (tiny (F := Rs) 1 (1/2) (1/2) (1/2) (PyInt 20) 0 3 1 2)%R
                          0 0%R 0) 2 1
              = Some ([[0%Z]], [[1%R]], [[0%R]])) by reflexivity.
  destruct (batch_rows_aligned nat demo_X demo_indX demo_XY (demo_IM (F := Rs) 0%R)
              _ 2 1 _ _ _ H) as (_ & _ & _ & Hrow).
  exact (proj1 (Hrow 0 (le_n 1))).
Defined.

Lemma slice_count_balanced (N numbatches m : nat) :
  m < numbatches -> numbatches <= N ->
  slice_count N m numbatches
  = N / numbatches + (if m <? N mod numbatches then 1 else 0).
Proof.
  intros Hm HN. unfold slice_count.
  pose proof (Nat.div_mod_eq N numbatches) as E.
  pose proof (Nat.mod_upper_bound N numbatches ltac:(lia)) as Hr.
  set (q := N / numbatches) in *. set (r := N mod numbatches) in *.
  assert (Hq : 1 <= q).
  { unfold q. apply Nat.div_le_lower_bound; lia. }
  destruct (Nat.ltb_spec m r) as [Hlt | Hge].
  - symmetry. apply (Nat.div_unique _ _ _ (r - m - 1)); nia.
  - symmetry. apply (Nat.div_unique _ _ _ (numbatches - 1 - (m - r))); nia.
Qed.

Section BatchSizes.
Context {F : Scalar}.
Variable rng : Type.
Variable X : list (list Z).
Variable indX : list Z.
Variable XY : mat.
Variable IM : mat.

(** The index set of a minibatch that [batch_of] builds, and the rows it
    hands back. *)
Lemma batch_of_selection (st : run rng) (numbatches minibatch : nat)
  (batchX : list (list Z)) (batchY batchIm : mat) :
  batch_of X indX XY IM st numbatches minibatch
  = Some (batchX, batchY, batchIm) ->
  numbatches <> 0 /\
  rows_at X (map (fun i => nth (minibatch + i * numbatches) st.(inds) 0)
                 (seq 0 (slice_count (length st.(inds)) minibatch numbatches)))
  = Some batchX /\
  rows_at XY (map (fun i => nth (minibatch + i * numbatches) st.(inds) 0)
                  (seq 0 (slice_count (length st.(inds)) minibatch numbatches)))
  = Some batchY /\
  length batchX = slice_count (length st.(inds)) minibatch numbatches /\
  length batchY = slice_count (length st.(inds)) minibatch numbatches /\
  length batchIm = slice_count (length st.(inds)) minibatch numbatches.
Proof.
  unfold batch_of. intros H.
  destruct numbatches as [|nb']; [discriminate|].
  rewrite slice_some in H by discriminate. cbn [bind] in H.
  set (nb := S nb') in *.
  set (n := slice_count (length st.(inds)) minibatch nb) in *.
  set (sel := map (fun i => nth (minibatch + i * nb) st.(inds) 0) (seq 0 n)) in *.
  destruct (rows_at X sel) as [bX|] eqn:EX; [|discriminate].
  cbn [bind] in H.
  destruct (rows_at XY sel) as [bY|] eqn:EY; [|discriminate].
  cbn [bind] in H.
  destruct (rows_at indX sel) as [bI|] eqn:EI; [|discriminate].
  cbn [bind] in H.
  match type of H with bind ?m _ = _ => destruct m as [bIm|] eqn:EIm end;
    [|discriminate].
  cbn [bind] in H. injection H as <- <- <-.
  assert (Hsel : length sel = n)
    by (unfold sel; now rewrite length_map, length_seq).
  split; [discriminate|]. split; [reflexivity|]. split; [reflexivity|].
  unfold rows_at, rows_at_Z in *.
  apply mapM_nth in EX, EY, EI, EIm.
  destruct EX as [LX _], EY as [LY _], EI as [LI _], EIm as [LIm _].
  rewrite length_map in LIm. repeat split; congruence.
Qed.

(** The minibatches that [batch_of] builds are balanced: with [N] shuffled
    indices, minibatch [m] of [numbatches] holds [floor(N / numbatches)]
    examples, and one more when [m] is below the remainder
    [N mod numbatches]. *)
Theorem minibatch_sizes_balanced (st : run rng) (numbatches m : nat)
  (batchX : list (list Z)) (batchY batchIm : mat) :
  batch_of X indX XY IM st numbatches m = Some (batchX, batchY, batchIm) ->
  m < numbatches -> numbatches <= length st.(inds) ->
  let size := length st.(inds) / numbatches
              + (if m <? length st.(inds) mod numbatches then 1 else 0) in
  length batchX = size /\ length batchY = size /\ length batchIm = size.
Proof.
  intros H Hm HN size.
  destruct (batch_of_selection _ _ _ _ _ _ H) as (_ & _ & _ & LX & LY & LIm).
  unfold size. rewrite <- (slice_count_balanced _ _ _ Hm HN).
  repeat split; assumption.
Qed.

End BatchSizes.

Lemma minibatch_sizes_balanced_witness :
  exists batchX batchY batchIm,
    batch_of (F := Rs) (numbered_X 23) (repeat 0%Z 23) (repeat [1%R] 23)
             [[0%R]]
             (ordered_run (tiny (F := Rs) 1 (1/2) (1/2) (1/2) (PyInt 20) 0 3 1 2)%R
                          23) 4 1
    = Some (batchX, batchY, batchIm) /\
    length batchX = 6 /\ length batchY = 6 /\ length batchIm = 6.
Proof.
  eassert (H : batch_of (F := Rs) (numbered_X 23) (repeat 0%Z 23)
                 (repeat [1%R] 23) [[0%R]]
                 (ordered_run
                    (tiny (F := Rs) 1 (1/2) (1/2) (1/2) (PyInt 20) 0 3 1 2)%R
                    23) 4 1
               = Some (_, _, _)) by reflexivity.
  do 3 eexists. split; [exact H|].
  apply (minibatch_sizes_balanced nat _ _ _ _ _ _ _ _ _ _ H);
    [lia | cbn [inds ordered_run]; rewrite length_seq; lia].
Defined.

(** ** What the first minibatch of an epoch never does *)

Section FirstMinibatch.
Context {F : Scalar}.
Variable rng : Type.
Variable rand : rng -> nat -> nat -> mat * rng.
Variable compute_bleu : mlbl -> rng -> list num * rng.
Variable generate_and_show : mlbl -> rng -> rng.
Variable X : list (list Z).
Variable indX : list Z.
Variable XY : mat.
Variable IM : mat.
Variable prog : progress.

Lemma due_at_zero (self : mlbl) (every : Z) : due self 0 every = false.
Proof. unfold due. simpl. apply andb_false_r. Qed.

(** Minibatch 0 only takes its gradient step: whatever the thresholds in
    [prog], it prints no progress, shows no samples, leaves the schedule
    alone, runs no validation and saves nothing; it stops the run only on a
    NaN. *)
Theorem first_minibatch_only_steps (numbatches : nat) (st r : run rng)
  (brk : bool) :
  minibatch_body rand compute_bleu generate_and_show X indX XY IM prog
                 numbatches st 0 = Some (r, brk) ->
  exists batchX batchY batchIm self g acts,
    batch_of X indX XY IM st numbatches 0 = Some (batchX, batchY, batchIm) /\
    sgd_step rand st.(model) st.(np_random) batchX batchY batchIm
    = Some (self, g, acts) /\
    r.(model) = self /\ r.(np_random) = g /\
    brk = any_nan acts /\
    r.(done) = (st.(done) || any_nan acts)%bool /\
    r.(out) = (if any_nan acts then st.(out) ++ [print_nans] else st.(out)) /\
    (r.(bleu), r.(best), r.(scores), r.(count), r.(inds))
    = (st.(bleu), st.(best), st.(scores), st.(count), st.(inds)).
Proof.
  unfold minibatch_body. intros H.
  destruct (batch_of X indX XY IM st numbatches 0) as [[[bX bY] bIm]|] eqn:Eb;
    [|discriminate].
  cbn [bind] in H.
  destruct (sgd_step rand st.(model) st.(np_random) bX bY bIm)
    as [[[self g] acts]|] eqn:Es; [|discriminate].
  cbn [bind] in H.
  exists bX, bY, bIm, self, g, acts. split; [reflexivity|]. split; [exact Es|].
  destruct (any_nan acts).
  - injection H as <- <-. cbn. repeat split. now rewrite orb_true_r.
  - unfold periodic in H. rewrite !due_at_zero in H. cbn [bind] in H.
    rewrite due_at_zero in H. injection H as <- <-. cbn.
    repeat split. now rewrite orb_false_r.
Qed.

End FirstMinibatch.

Lemma any_nan_real (acts : list (list real)) : any_nan (F := Rs) acts = false.
Proof.
  unfold any_nan. induction acts as [|r acts IH]; [reflexivity|].
  cbn [existsb]. rewrite IH, orb_false_r.
  induction r as [|x r IHr]; [reflexivity|]. cbn [existsb]. now rewrite IHr.
Qed.

Local Open Scope R_scope.

(** One gradient step of the one-entry real model on the demo example. *)
Lemma demo_sgd_step_real :
  exists self g acts,
    sgd_step demo_rand (tiny (F := Rs) 1 (1/2) (1/2) (1/2) (PyInt 20) 0 3 1 2)
             0%nat [[0%Z]] [[1]] [[0]]
    = Some (self, g, acts).
Proof.
  unfold sgd_step, forward. simpl. decide_reals. simpl.
  do 3 eexists. reflexivity.
Qed.

Lemma first_minibatch_only_steps_witness :
  exists r,
    minibatch_body demo_rand (demo_bleu (F := Rs) 0) demo_show
      demo_X demo_indX demo_XY (demo_IM (F := Rs) 0) demo_prog 2
      (demo_run (tiny (F := Rs) 1 (1/2) (1/2) (1/2) (PyInt 20) 0 3 1 2) 0 1 9)
      0
    = Some (r, false)
    /\ r.(best) = 1 /\ r.(count) = 9%Z /\ r.(out) = [].
Proof.
  destruct demo_sgd_step_real as (self & g & acts & Hs).
  assert (Hm : minibatch_body demo_rand (demo_bleu (F := Rs) 0) demo_show
                 demo_X demo_indX demo_XY (demo_IM (F := Rs) 0) demo_prog 2
                 (demo_run (tiny (F := Rs) 1 (1/2) (1/2) (1/2) (PyInt 20) 0 3 1 2)
                           0 1 9) 0
               = Some (Run self g [0; 1]%nat [] 1 [] 9 false [], false)).
  { unfold minibatch_body.
    change (batch_of demo_X demo_indX demo_XY (demo_IM (F := Rs) 0) _ 2 0)
      with (Some ([[0%Z]], [[1]] : list (list (@num Rs)),
                  [[0]] : list (list (@num Rs)))).
    cbn [bind]. cbn [model np_random demo_run]. rewrite Hs. cbn [bind].
    rewrite any_nan_real. unfold periodic. rewrite !due_at_zero. cbn [bind].
    rewrite due_at_zero. reflexivity. }
  eexists. split; [exact Hm|].
  destruct (first_minibatch_only_steps nat demo_rand (demo_bleu (F := Rs) 0)
              demo_show demo_X demo_indX demo_XY (demo_IM (F := Rs) 0)
              demo_prog 2 _ _ _ Hm)
    as (bX & bY & bIm & s' & g' & a' & _ & _ & _ & _ & _ & _ & Ho & He).
  split; [exact (f_equal (fun t => snd (fst (fst (fst t)))) He)|].
  split; [exact (f_equal (fun t => snd (fst t)) He)|].
  rewrite Ho. rewrite any_nan_real. reflexivity.
Defined.

(** ** The schedules *)

Lemma blend_at_zero (a b : real) : IZR (1 - 0) * a + IZR 0 * b = a.
Proof. simpl. ring. Qed.

Lemma blend_at_one (a b : real) : IZR (1 - 1) * a + IZR 1 * b = b.
Proof. simpl. ring. Qed.


Lemma update_hyperparams_some (self : mlbl (F := Rs)) :
  py_is_zero self.(T) = false ->
  exists pt, update_hyperparams self
             = Some (set_sched self (self.(eta_t) * self.(f)) pt self.(step)
                               self.(epoch) self.(start)).
Proof.
  intros HT. unfold update_hyperparams, anneal, py_int_div. rewrite HT.
  destruct (py_int_lt self.(step) self.(T)).
  - destruct self.(T); cbn [bind]; eexists; reflexivity.
  - eexists. reflexivity.
Qed.

(** After [n] scheduled steps the learning rate is [eta_t * f^n] and the
    step counter has grown by [n]; the scheduler changes neither the
    parameters nor the momentum buffers, and it cannot fail once the model
    was constructed ([T] is not zero). *)
Theorem learning_rate_decays (n : nat) : forall self : mlbl (F := Rs),
  py_is_zero self.(T) = false ->
  exists s', scheduled_steps n self = Some s' /\
    s'.(eta_t) = self.(eta_t) * self.(f) ^ n /\
    s'.(step) = (self.(step) + Z.of_nat n)%Z /\
    (R s', C s', bw s', M s', J s', bj s')
    = (R self, C self, bw self, M self, J self, bj self) /\
    (deltaR s', deltaC s', deltaB s', deltaM s', deltaJ s', deltaBj s')
    = (deltaR self, deltaC self, deltaB self, deltaM self, deltaJ self,
       deltaBj self).
Proof.
  induction n as [|n IH]; intros self HT.
  - exists self. split; [reflexivity|].
    split; [simpl; symmetry; apply Rmult_1_r|].
    split; [lia|]. split; reflexivity.
  - destruct (update_hyperparams_some self HT) as (pt & Hu).
    cbn [scheduled_steps]. unfold scheduled_step. rewrite Hu. cbn [bind].
    match goal with |- context [scheduled_steps n ?s] =>
      destruct (IH s) as (s' & Hs & He & Hst & Hp & Hd) end.
    + exact HT.
    + exists s'. split; [exact Hs|]. split.
      * rewrite He. cbn. apply Rmult_assoc.
      * split; [rewrite Hst; cbn; lia|]. split; assumption.
Qed.

Lemma learning_rate_decays_witness :
  exists s',
    scheduled_steps 3 (tiny (F := Rs) 1 0 0 1 (PyInt 20) 0 3 1 2) = Some s' /\
    s'.(eta_t) = 1 * 1 ^ 3 /\ s'.(step) = 3%Z.
Proof.
  destruct (learning_rate_decays 3 (tiny (F := Rs) 1 0 0 1 (PyInt 20) 0 3 1 2)
              eq_refl) as (s' & Hs & He & Hst & _).
  exists s'. split; [exact Hs|]. split; [exact He | exact Hst].
Defined.

(** With an int [T] the quotient [(step + 1) / T] of [update_hyperparams] is
    a floor division: as long as [step + 1 < T] the momentum coefficient is
    set to [p_i], whatever [p_f] is. *)
Theorem momentum_steps_with_int_T (self : mlbl (F := Rs)) (n : Z) :
  self.(T) = PyInt n -> (0 <= self.(step))%Z -> (self.(step) + 1 < n)%Z ->
  exists s', update_hyperparams self = Some s' /\ s'.(p_t) = self.(p_i).
Proof.
  intros HT H0 Hn. unfold update_hyperparams, anneal, py_int_div.
  rewrite HT. cbn [py_int_lt py_is_zero].
  destruct (Z.ltb_spec self.(step) n); [|lia].
  destruct (Z.eqb_spec n 0); [lia|]. cbn [bind].
  rewrite Z.div_small by lia.
  eexists. split; [reflexivity|]. apply blend_at_zero.
Qed.

Lemma momentum_steps_with_int_T_witness :
  exists s',
    update_hyperparams (tiny (F := Rs) 1 0 0 1 (PyInt 20) 9 3 1 2) = Some s' /\
    s'.(p_t) = 0.
Proof.
  apply (momentum_steps_with_int_T
           (tiny (F := Rs) 1 0 0 1 (PyInt 20) 9 3 1 2) 20 eq_refl);
    simpl; lia.
Defined.

(** The constructor computes the first momentum coefficient with the
    Python 2 quotient [1 / T]: for an int [T] above 1 it is [p_i], for
    [T = 1] it is [p_f], and [T = 0] raises. *)
Theorem init_momentum_floor_division (name loc : string) (seed k verbose : Z)
  (V K D h context batchsize maxepoch : nat)
  (dropout eta_t gamma_r gamma_c f p_i p_f : real) (n : Z) :
  (0 <= n)%Z ->
  match MLBL_init (F := Rs) name loc seed dropout k V K D h context batchsize
                  maxepoch eta_t gamma_r gamma_c f p_i p_f (PyInt n) verbose with
  | Some self =>
      (1 <= n)%Z /\ self.(p_t) = (if (n =? 1)%Z then p_f else p_i) /\
      self.(step) = 0%Z /\ self.(T) = PyInt n
  | None => n = 0%Z
  end.
Proof.
  intros Hn. unfold MLBL_init, anneal, py_int_div. cbn [py_is_zero].
  destruct (Z.eqb_spec n 0) as [-> | Hne]; [reflexivity|]. cbn [bind].
  split; [lia|]. split; [|split; reflexivity].
  cbn [p_t]. destruct (Z.eqb_spec n 1) as [-> | Hn1].
  - change (1 / 1)%Z with 1%Z. apply blend_at_one.
  - rewrite Z.div_small by lia. apply blend_at_zero.
Qed.

Lemma init_momentum_floor_division_witness :
  match MLBL_init (F := Rs) "lbl" "models/mlbl.pkl" 1234 0 5 5 3 2 2 2 4
                  10 (2/10) 0 0 (995/1000) (1/2) (9/10) (PyInt 20) 1 with
  | Some self => self.(p_t) = 1/2
  | None => False
  end.
Proof.
  pose proof (init_momentum_floor_division "lbl" "models/mlbl.pkl" 1234 5 1
                5 3 2 2 2 4 10 0 (2/10) 0 0 (995/1000) (1/2) (9/10) 20
                ltac:(lia)) as H.
  destruct (MLBL_init _ _ _ _ _ _ _ _ _ _ _ _ _ _ _ _ _ _ _ _);
    [exact (proj1 (proj2 H)) | discriminate H].
Defined.

(** ** forward: word indices *)

Local Close Scope R_scope.

Lemma py_index_none (len : nat) (x : Z) :
  (x < - Z.of_nat len \/ Z.of_nat len <= x)%Z -> py_index len x = None.
Proof.
  intros H. unfold py_index.
  destruct (Z.leb_spec 0 x), (Z.ltb_spec x (Z.of_nat len)),
    (Z.leb_spec (- Z.of_nat len) x), (Z.ltb_spec x 0); simpl; try reflexivity; lia.
Qed.

Lemma mapM_none {A B : Type} (g : A -> option B) (l : list A) (a : A) :
  In a l -> g a = None -> mapM g l = None.
Proof.
  induction l as [|b l IH]; intros Hin Ha; [contradiction|]. simpl.
  destruct Hin as [-> | Hin].
  - now rewrite Ha.
  - destruct (g b); [|reflexivity]. simpl. now rewrite (IH Hin Ha).
Qed.

Lemma py_index_from_front (len : nat) (x : Z) :
  (- Z.of_nat len <= x)%Z -> py_index len (from_front len x) = py_index len x.
Proof.
  intros H. unfold from_front.
  destruct (Z.ltb_spec x 0) as [Hneg | Hpos]; [|reflexivity].
  unfold py_index.
  destruct (Z.leb_spec 0 x); [lia|].
  destruct (Z.ltb_spec x 0); [|lia].
  destruct (Z.leb_spec (- Z.of_nat len) x); [|lia].
  destruct (Z.leb_spec 0 (x + Z.of_nat len)); [|lia].
  destruct (Z.ltb_spec (x + Z.of_nat len) (Z.of_nat len)); [|lia].
  cbn [andb]. now rewrite Z.add_comm.
Qed.

Section ForwardIndices.
Context {F : Scalar}.
Variable rng : Type.
Variable rand : rng -> nat -> nat -> mat * rng.

(** [forward] raises ([IndexError]) as soon as one word index lies outside
    [-V, V), [V] the number of columns of [R], in train and in test mode. *)
Theorem forward_index_error (self : mlbl) (g : rng) (X : list (list Z))
  (Im : mat) (test : bool) (row : list Z) (x : Z) :
  In row X -> In x row ->
  (x < - Z.of_nat (ncols self.(R)) \/ Z.of_nat (ncols self.(R)) <= x)%Z ->
  forward rand self g X Im test = None.
Proof.
  intros Hrow Hx Hout. unfold forward.
  match goal with |- context [if ?c then _ else (?a, g)] =>
    destruct (if c then _ else (a, g)) as [IF1 g1] end.
  unfold take_cols.
  rewrite (mapM_none (py_index (ncols self.(R))) (concat X) x);
    [reflexivity | | now apply py_index_none].
  apply in_concat. eauto.
Qed.

(** A word index in [-V, 0) counts from the end of the vocabulary:
    [forward] returns the same result as with the index [x + V]. *)
Theorem forward_negative_indices (self : mlbl) (g : rng) (X : list (list Z))
  (Im : mat) (test : bool) :
  Forall (Forall (fun x => (- Z.of_nat (ncols self.(R)) <= x)%Z)) X ->
  forward rand self g (map (map (from_front (ncols self.(R)))) X) Im test
  = forward rand self g X Im test.
Proof.
  intros HX. unfold forward. rewrite length_map.
  replace (take_cols self.(R) (concat (map (map (from_front (ncols self.(R)))) X)))
    with (take_cols self.(R) (concat X)); [reflexivity|].
  unfold take_cols. rewrite <- concat_map. f_equal.
  apply Forall_concat in HX. clear -HX.
  induction HX as [|x l Hx _ IH]; [reflexivity|]. cbn [map mapM].
  now rewrite py_index_from_front, IH.
Qed.

End ForwardIndices.

Lemma forward_index_error_witness :
  forward demo_rand (tiny (F := Rs) 1 (1/2) (1/2) (1/2) (PyInt 20) 0 3 1 2)%R
          0 [[1%Z]] [[0%R]] true = None.
Proof.
  apply (forward_index_error nat demo_rand _ _ _ _ _ [1%Z] 1%Z);
    [now left | now left | right; simpl; lia].
Defined.

Lemma forward_negative_indices_witness :
  forward demo_rand (tiny (F := Rs) 1 (1/2) (1/2) (1/2) (PyInt 20) 0 3 1 2)%R
          0 (map (map (from_front 1)) [[(-1)%Z]]) [[0%R]] true
  = forward demo_rand (tiny (F := Rs) 1 (1/2) (1/2) (1/2) (PyInt 20) 0 3 1 2)%R
            0 [[(-1)%Z]] [[0%R]] true.
Proof.
  apply (forward_negative_indices nat demo_rand
           (tiny (F := Rs) 1 (1/2) (1/2) (1/2) (PyInt 20) 0 3 1 2)%R).
  repeat constructor. simpl. lia.
Defined.

(** ** forward: the gathered word features *)

Lemma length_concat_uniform {A : Type} (L : list (list A)) (n : nat) :
  Forall (fun r => length r = n) L -> length (concat L) = length L * n.
Proof.
  induction 1 as [|r L Hr _ IH]; [reflexivity|].
  simpl. rewrite length_app, IH, Hr. reflexivity.
Qed.

(** Entry [c] of block [j] of a concatenation of blocks of length [n]. *)
Lemma nth_concat_uniform {A : Type} (L : list (list A)) (n j c : nat) (d : A) :
  Forall (fun r => length r = n) L -> j < length L -> c < n ->
  nth (j * n + c) (concat L) d = nth c (nth j L []) d.
Proof.
  intros H. revert j. induction H as [|r L Hr _ IH]; intros j Hj Hc.
  - simpl in Hj. lia.
  - destruct j as [|j]; simpl.
    + apply app_nth1. lia.
    + replace (n + j * n + c) with (length r + (j * n + c)) by lia.
      rewrite app_nth2_plus. apply IH; [simpl in Hj; lia | assumption].
Qed.

Section Gather.
Context {F : Scalar}.
Variable rng : Type.
Variable rand : rng -> nat -> nat -> mat * rng.

Lemma gather_entry (A : mat) (js : list nat) (B K ctx j k c : nat) :
  length A = K -> length js = B * ctx -> j < B -> k < K -> c < ctx ->
  get (nth j (map (reshape_F K ctx)
                  (reshape B (K * ctx)
                     (flatten_F (map (fun r => map (fun i => nth i r zero) js) A))))
             []) k c
  = get A k (nth (j * ctx + c) js 0).
Proof.
  intros HA Hjs Hj Hk Hc.
  set (G := map (fun r => map (fun i => nth i r zero) js) A).
  assert (HG : length G = K) by (unfold G; now rewrite length_map).
  assert (Hnc : ncols G = B * ctx).
  { unfold ncols, G. destruct A as [|r A]; [simpl in HA; lia|].
    simpl. now rewrite length_map. }
  assert (Hq : j * ctx + c < B * ctx) by nia.
  (* the blocks of the column-major flattening *)
  assert (Hcols : Forall (fun r => length r = K) (transpose G)).
  { unfold transpose. rewrite Forall_map. apply Forall_forall. intros q _.
    unfold col. now rewrite length_map. }
  assert (Hflat : nth ((j * ctx + c) * K + k) (flatten_F G) zero
                  = get A k (nth (j * ctx + c) js 0)).
  { unfold flatten_F.
    rewrite (nth_concat_uniform _ K) by
      (try assumption; rewrite length_transpose, Hnc; assumption).
    unfold transpose. rewrite Hnc.
    rewrite (nth_map_seq (col G)) by assumption. unfold col.
    rewrite (nth_map_in_range _ G k []) by lia.
    unfold G. rewrite (nth_map_in_range _ A k []) by lia.
    rewrite (nth_map_in_range _ js _ 0) by lia. reflexivity. }
  rewrite <- Hflat. fold G.
  rewrite (nth_map_in_range _ _ j []) by (unfold reshape; rewrite length_map, length_seq; lia).
  unfold reshape. rewrite nth_map_seq by assumption.
  unfold get, reshape_F.
  rewrite nth_map_seq by assumption. rewrite nth_map_seq by assumption.
  rewrite nth_firstn.
  destruct (Nat.ltb_spec (k + K * c) (K * ctx)) as [_ | Hge]; [|nia].
  rewrite nth_skipn. f_equal. nia.
Qed.

(** The feature tensor that [forward] builds by flattening and reshaping
    holds, for example [j] and context position [c], the embedding of the
    word at that position: [words[j][k][c] = R[k][X[j][c]]]. *)
Theorem forward_gathers_embeddings (self : mlbl) (g g' : rng)
  (X : list (list Z)) (Im : mat) (test : bool) (words : tensor)
  (acts IF preds : mat) :
  forward rand self g X Im test = Some ((words, acts, IF, preds), g') ->
  length self.(R) = self.(K) ->
  Forall (fun row => length row = self.(context)) X ->
  forall j k c, j < length X -> k < self.(K) -> c < self.(context) ->
    exists v, py_index (ncols self.(R)) (nth c (nth j X []) 0%Z) = Some v /\
      get (nth j words []) k c = get self.(R) k v.
Proof.
  intros Hf HR HX j k c Hj Hk Hc. unfold forward in Hf.
  match type of Hf with context [if ?cnd then _ else (?a, g)] =>
    destruct (if cnd then _ else (a, g)) as [IF1 g1] end.
  unfold take_cols in Hf.
  destruct (mapM (py_index (ncols self.(R))) (concat X)) as [js|] eqn:Ejs;
    [|discriminate].
  cbn [bind] in Hf.
  match type of Hf with bind ?m _ = _ => destruct m as [acts0|]; [|discriminate] end.
  cbn [bind] in Hf.
  match type of Hf with bind ?m _ = _ => destruct m as [preds0|]; [|discriminate] end.
  cbn [bind] in Hf. injection Hf as <- _ _ _ _.
  apply mapM_nth in Ejs. destruct Ejs as [Hlen Hnth].
  rewrite (length_concat_uniform X self.(context) HX) in Hlen, Hnth.
  assert (Hq : j * self.(context) + c < length X * self.(context)) by nia.
  exists (nth (j * self.(context) + c) js 0). split.
  - rewrite <- (Hnth _ 0%Z 0 Hq).
    now rewrite (nth_concat_uniform X self.(context)).
  - now apply gather_entry.
Qed.

End Gather.

Lemma forward_gathers_embeddings_witness :
  exists words acts IF preds g',
    forward demo_rand (tiny (F := Rs) 1 (1/2) (1/2) (1/2) (PyInt 20) 0 3 1 2)%R
            0 [[0%Z]] [[0%R]] true = Some ((words, acts, IF, preds), g') /\
    get (nth 0 words []) 0 0 = 3%R.
Proof.
  assert (Hf : exists r g',
             forward demo_rand
               (tiny (F := Rs) 1 (1/2) (1/2) (1/2) (PyInt 20) 0 3 1 2)%R
               0 [[0%Z]] [[0%R]] true = Some (r, g')).
  { unfold forward. simpl. decide_reals. simpl. do 2 eexists. reflexivity. }
  destruct Hf as ([[[words acts] IF] preds] & g' & Hf).
  exists words, acts, IF, preds, g'. split; [exact Hf|].
  destruct (forward_gathers_embeddings nat demo_rand _ _ _ _ _ _ _ _ _ _ Hf
              eq_refl ltac:(repeat constructor) 0 0 0
              ltac:(simpl; lia) ltac:(simpl; lia) ltac:(simpl; lia))
    as (v & Hv & Hg).
  injection Hv as <-. exact Hg.
Defined.

(** ** forward: dropout and the global generator *)

Section ForwardGenerator.
Context {F : Scalar}.
Variable rng : Type.
Variable rand : rng -> nat -> nat -> mat * rng.

(** In test mode, and whenever [dropout] is not positive, [forward] draws
    nothing: it hands the global generator back in the state it got. *)
Theorem forward_draws_only_for_dropout (self : mlbl) (g g' : rng)
  (X : list (list Z)) (Im : mat) (test : bool)
  (res : tensor * mat * mat * mat) :
  test = true \/ s_gt self.(dropout) zero = false ->
  forward rand self g X Im test = Some (res, g') -> g' = g.
Proof.
  intros Hc Hf. unfold forward in Hf.
  assert (E : (s_gt self.(dropout) zero && negb test)%bool = false).
  { destruct Hc as [-> | ->]; [apply andb_false_r | reflexivity]. }
  rewrite E in Hf.
  match type of Hf with bind ?m _ = _ => destruct m; [|discriminate] end.
  cbn [bind] in Hf.
  match type of Hf with bind ?m _ = _ => destruct m; [|discriminate] end.
  cbn [bind] in Hf.
  match type of Hf with bind ?m _ = _ => destruct m; [|discriminate] end.
  cbn [bind] in Hf. now injection Hf.
Qed.

End ForwardGenerator.

Local Open Scope R_scope.

Lemma scale_by_one_minus_zero (M : list (list real)) (d : real) :
  d = 0 -> mat_scale_r (F := Rs) M (s_sub (Scalar := Rs) one d) = M.
Proof.
  intros ->. unfold mat_scale_r. rewrite <- (map_id M) at 2.
  apply map_ext. intros r. rewrite <- (map_id r) at 2.
  apply map_ext. intros x. cbn. ring.
Qed.

(** With [dropout = 0] the train-mode pass and the test-mode pass of
    [forward] are the same computation. *)
Theorem forward_modes_agree_without_dropout (rng : Type)
  (rand : rng -> nat -> nat -> list (list real) * rng)
  (self : mlbl (F := Rs)) (g : rng) (X : list (list Z)) (Im : list (list real)) :
  self.(dropout) = 0 ->
  forward (F := Rs) rand self g X Im false
  = forward (F := Rs) rand self g X Im true.
Proof.
  intros Hd. unfold forward.
  rewrite (scale_by_one_minus_zero self.(M) self.(dropout) Hd).
  assert (E : s_gt self.(dropout) (zero (F := Rs)) = false).
  { rewrite Hd. apply Rgtb_false. simpl. lra. }
  rewrite E. reflexivity.
Qed.

Lemma forward_draws_only_for_dropout_witness :
  exists res g',
    forward demo_rand (tiny (F := Rs) 1 (1/2) (1/2) (1/2) (PyInt 20) 0 3 1 2)
            5%nat [[0%Z]] [[0]] true = Some (res, g') /\
    g' = 5%nat.
Proof.
  assert (Hf : exists res g',
             forward demo_rand
               (tiny (F := Rs) 1 (1/2) (1/2) (1/2) (PyInt 20) 0 3 1 2)
               5%nat [[0%Z]] [[0]] true = Some (res, g')).
  { unfold forward. simpl. decide_reals. simpl. do 2 eexists. reflexivity. }
  destruct Hf as (res & g' & Hf). exists res, g'. split; [exact Hf|].
  apply (forward_draws_only_for_dropout nat demo_rand _ _ _ _ _ true res
           (or_introl eq_refl) Hf).
Defined.

Lemma forward_modes_agree_without_dropout_witness :
  forward demo_rand (tiny (F := Rs) 1 (1/2) (1/2) (1/2) (PyInt 20) 0 3 1 2)
          0%nat [[0%Z]] [[0]] false
  = forward demo_rand (tiny (F := Rs) 1 (1/2) (1/2) (1/2) (PyInt 20) 0 3 1 2)
            0%nat [[0%Z]] [[0]] true.
Proof.
  apply (forward_modes_agree_without_dropout nat (demo_rand (F := Rs))).
  reflexivity.
Defined.

(** ** backward: the gradient of the output bias *)

Lemma vsum_map_add {A : Type} (g1 g2 : A -> real) (l : list A) :
  vsum (F := Rs) (map (fun a => g1 a + g2 a) l)
  = vsum (F := Rs) (map g1 l) + vsum (F := Rs) (map g2 l).
Proof.
  induction l as [|a l IH]; cbn [map].
  - rewrite !vsum_real. simpl. lra.
  - rewrite !vsum_cons, IH. lra.
Qed.

Lemma vsum_all_zero (l : list real) :
  Forall (fun x => x = 0) l -> vsum (F := Rs) l = 0.
Proof.
  induction 1 as [|x l Hx _ IH]; [reflexivity|].
  rewrite vsum_cons, IH, Hx. lra.
Qed.

Lemma map_nth_seq_id {A : Type} (d : A) (r : list A) :
  map (fun j => nth j r d) (seq 0 (length r)) = r.
Proof.
  apply (nth_ext _ _ d d); [now rewrite length_map, length_seq|].
  intros i Hi. rewrite length_map, length_seq in Hi.
  now rewrite nth_map_seq.
Qed.

(** Summing the column sums is summing the row sums. *)
Lemma vsum_colsum (n : nat) (A : list (list real)) :
  Forall (fun r => length r = n) A ->
  vsum (F := Rs) (map (fun j => vsum (F := Rs) (col (F := Rs) A j)) (seq 0 n))
  = vsum (F := Rs) (map (vsum (F := Rs)) A).
Proof.
  induction 1 as [|r A Hr _ IH].
  - cbn [col map]. apply vsum_all_zero. rewrite Forall_map.
    apply Forall_forall. reflexivity.
  - cbn [map]. rewrite vsum_cons, <- IH.
    rewrite (map_ext _ (fun j => nth j r 0 + vsum (F := Rs) (col (F := Rs) A j)))
      by (intros j; cbn [col map]; apply vsum_cons).
    rewrite (vsum_map_add (fun j => nth j r 0)). f_equal.
    rewrite <- Hr. now rewrite map_nth_seq_id.
Qed.

Lemma vsum_zip_sub (p y : list real) :
  length p = length y ->
  vsum (F := Rs) (zip_with Rminus p y) = vsum (F := Rs) p - vsum (F := Rs) y.
Proof.
  revert y. induction p as [|a p IH]; intros [|b y] Hl; try discriminate.
  - rewrite !vsum_real. simpl. lra.
  - injection Hl as Hl. unfold zip_with in *. cbn [combine map fst snd].
    rewrite !vsum_cons, (IH y Hl). lra.
Qed.

Lemma output_error_rows_cancel (n : nat) (b : real) (preds : list (list real)) :
  forall Y : list (list real),
  Forall (fun r => length r = n) preds -> Forall (fun r => length r = n) Y ->
  Forall (fun r => vsum (F := Rs) r = 1) preds ->
  Forall (fun r => vsum (F := Rs) r = 1) Y ->
  Forall (fun r => vsum (F := Rs) r = 0)
         (mat_div (F := Rs) (mat_sub (F := Rs) preds Y) b).
Proof.
  induction preds as [|p preds IH]; intros [|y Y] Hp HY Sp SY;
    try (constructor; fail).
  inversion Hp; inversion HY; inversion Sp; inversion SY; subst.
  unfold mat_div, mat_sub, zip_with at 1. cbn [combine map fst snd].
  constructor.
  - etransitivity; [exact (vsum_scaled (zip_with Rminus p y) b)|].
    rewrite vsum_zip_sub by congruence.
    match goal with
    | Ha : vsum p = 1, Hb : vsum y = 1 |- _ => rewrite Ha, Hb
    end.
    change (@eq real ((1 - 1) / b) 0). unfold Rdiv. ring.
  - now apply IH.
Qed.

Lemma backward_db (self s2 : mlbl (F := Rs)) Y preds IF acts words X Im :
  backward self Y preds IF acts words X Im = Some s2 ->
  s2.(db) = colsum (output_error Y preds).
Proof.
  unfold backward. intros H.
  match type of H with bind ?m _ = _ => destruct m as [[dC' dR']|] end;
    simpl in H; [|discriminate].
  injection H as <-. reflexivity.
Qed.

(** When every row of [preds] and every row of the targets [Y] sums to 1,
    the entries of the bias gradient [db] that [backward] leaves sum to 0. *)
Theorem bias_gradient_sums_to_zero (self self' : mlbl (F := Rs))
  (Y preds IF acts : list (list real)) (words : list (list (list real)))
  (X : list (list Z)) (Im : list (list real)) (n : nat) :
  (0 < length preds)%nat ->
  shape (F := Rs) (length preds) n preds ->
  shape (F := Rs) (length preds) n Y ->
  Forall (fun r => vsum (F := Rs) r = 1) preds ->
  Forall (fun r => vsum (F := Rs) r = 1) Y ->
  backward self Y preds IF acts words X Im = Some self' ->
  vsum (F := Rs) self'.(db) = 0.
Proof.
  intros HB Hp HY Sp SY Hb. rewrite (backward_db _ _ _ _ _ _ _ _ _ Hb).
  pose proof (shape_output_error Y preds n Hp HY) as HIx.
  unfold colsum. rewrite (ncols_shape (length preds) n _ HIx HB).
  rewrite (vsum_colsum n) by apply HIx.
  apply vsum_all_zero. rewrite Forall_map.
  apply (output_error_rows_cancel n); [apply Hp | apply HY | assumption..].
Qed.

Lemma bias_gradient_sums_to_zero_witness :
  exists self',
    backward dropout_model [[1; 0]] [[1/4; 3/4]] [[0]] [[2]] [[[3]]]
             [[0%Z]] [[0]] = Some self' /\
    vsum (F := Rs) self'.(db) = 0.
Proof.
  assert (Hb : exists self',
             backward dropout_model [[1; 0]] [[1/4; 3/4]] [[0]] [[2]] [[[3]]]
                      [[0%Z]] [[0]] = Some self').
  { unfold backward. simpl. eexists. reflexivity. }
  destruct Hb as (self' & Hb). exists self'. split; [exact Hb|].
  apply (bias_gradient_sums_to_zero dropout_model self'
           [[1; 0]] [[1/4; 3/4]] [[0]] [[2]] [[[3]]] [[0%Z]] [[0]] 2%nat);
    [simpl; lia | repeat constructor | repeat constructor
    | repeat constructor; rewrite vsum_real; simpl; lra
    | repeat constructor; rewrite vsum_real; simpl; lra
    | exact Hb].
Defined.

(** ** forward: the softmax *)

Lemma bind_ext {A B : Type} (m : option A) (k1 k2 : A -> option B) :
  (forall a, k1 a = k2 a) -> bind m k1 = bind m k2.
Proof. intros H. destruct m; simpl; auto. Qed.

Lemma vsum_scaled_l (l : list real) (s : real) :
  vsum (F := Rs) (map (fun x => x * s) l) = vsum (F := Rs) l * s.
Proof.
  induction l as [|x l IH].
  - rewrite !vsum_real. simpl. ring.
  - cbn [map]. rewrite !vsum_cons, IH. change (@num Rs) with real. ring.
Qed.

Lemma forward_preds (rng : Type)
  (rand : rng -> nat -> nat -> list (list real) * rng)
  (self : mlbl (F := Rs)) (g g' : rng) (X : list (list Z))
  (Im : list (list real)) (test : bool) words acts IF preds :
  forward (F := Rs) rand self g X Im test = Some ((words, acts, IF, preds), g') ->
  mapM (softmax_row (F := Rs))
       (add_row (F := Rs) (dot (F := Rs) acts self.(R)) self.(bw)) = Some preds.
Proof.
  intros Hf. unfold forward in Hf.
  match type of Hf with context [if ?cnd then _ else (?a, g)] =>
    destruct (if cnd then _ else (a, g)) as [IF1 g1] end.
  match type of Hf with bind ?m _ = _ => destruct m; [|discriminate] end.
  cbn [bind] in Hf.
  match type of Hf with bind ?m _ = _ => destruct m as [acts0|]; [|discriminate] end.
  cbn [bind] in Hf.
  match type of Hf with bind ?m _ = _ => destruct m as [preds0|] eqn:Ep;
    [|discriminate] end.
  cbn [bind] in Hf. injection Hf as _ <- _ <- _. exact Ep.
Qed.

(** Over the reals the row maximum that is subtracted cancels: a softmax
    row is [exp z / sum (exp z)]. *)
Lemma softmax_row_textbook (r p : list real) :
  softmax_row (F := Rs) r = Some p ->
  p = map (fun x => exp x / vsum (F := Rs) (map exp r)) r.
Proof.
  unfold softmax_row. destruct r as [|x0 r']; [discriminate|].
  cbn [row_max bind]. set (r := x0 :: r'). set (m := fold_left (@s_max Rs) r' x0).
  intros H.
  enough (Hp : Some p = Some (map (fun x => exp x / vsum (F := Rs) (map exp r)) r))
    by now injection Hp.
  rewrite <- H. f_equal. clear H. cbv zeta.
  assert (Hs : 0 < vsum (F := Rs) (map exp r)).
  { apply (vsum_exp_pos (fun y => y)). discriminate. }
  assert (He : map (fun y => @s_exp Rs (@s_sub Rs y m)) r
               = map (fun y => y * exp (- m)) (map exp r)).
  { rewrite map_map. apply map_ext. intros y. cbn.
    unfold Rminus. apply exp_plus. }
  rewrite He, vsum_scaled_l, !map_map.
  pose proof (exp_pos (- m)) as Hm.
  set (S := vsum (F := Rs) (map exp r)) in *. clearbody S.
  set (em := exp (- m)) in *. clearbody em.
  apply map_ext. intros y. cbn.
  change (@eq real (exp y * em / (S * em)) (exp y / S)). field. lra.
Qed.

Lemma mapM_softmax_textbook (L P : list (list real)) :
  mapM (softmax_row (F := Rs)) L = Some P ->
  P = map (fun z => map (fun x => exp x / vsum (F := Rs) (map exp z)) z) L.
Proof.
  revert P. induction L as [|z L IH]; intros P H; cbn [mapM] in H.
  - now injection H as <-.
  - destruct (softmax_row (F := Rs) z) as [p|] eqn:Ep; [|discriminate].
    cbn [bind] in H.
    destruct (mapM (softmax_row (F := Rs)) L) as [P'|]; [|discriminate].
    cbn [bind] in H. injection H as <-. cbn [map].
    now rewrite (softmax_row_textbook z p Ep), (IH P' eq_refl).
Qed.

(** The predictions of [forward] are the softmax of [acts . R + bw]: in
    row [z] of that array, the entry [x] becomes [exp x / sum (exp z)];
    over the reals the subtraction of the row maximum changes nothing. *)
Theorem forward_softmax_textbook (rng : Type)
  (rand : rng -> nat -> nat -> list (list real) * rng)
  (self : mlbl (F := Rs)) (g g' : rng) (X : list (list Z))
  (Im : list (list real)) (test : bool)
  (words : list (list (list real))) (acts IF preds : list (list real)) :
  forward (F := Rs) rand self g X Im test = Some ((words, acts, IF, preds), g') ->
  preds = map (fun z => map (fun x => exp x / vsum (F := Rs) (map exp z)) z)
              (add_row (F := Rs) (dot (F := Rs) acts self.(R)) self.(bw)).
Proof.
  intros Hf. apply mapM_softmax_textbook.
  exact (forward_preds rng rand self g g' X Im test words acts IF preds Hf).
Qed.

Lemma forward_softmax_textbook_witness :
  exists words acts IF preds g',
    forward (F := Rs) demo_rand dropout_model 0%nat [[0%Z]] [[1]] true
    = Some ((words, acts, IF, preds), g') /\
    preds = map (fun z => map (fun x => exp x / vsum (F := Rs) (map exp z)) z)
                (add_row (F := Rs) (dot (F := Rs) acts dropout_model.(R))
                         dropout_model.(bw)).
Proof.
  assert (Hf : exists r g',
             forward (F := Rs) demo_rand dropout_model 0%nat [[0%Z]] [[1]] true
             = Some (r, g')).
  { run_model. decide_reals. run_model. do 2 eexists. reflexivity. }
  destruct Hf as ([[[words acts] IF] preds] & g' & Hf).
  exists words, acts, IF, preds, g'. split; [exact Hf|].
  exact (forward_softmax_textbook nat (demo_rand (F := Rs)) dropout_model 0%nat g'
           [[0%Z]] [[1]] true words acts IF preds Hf).
Defined.

Lemma Rmax_shift (a b c : real) : Rmax (a + c) (b + c) = Rmax a b + c.
Proof. unfold Rmax. repeat destruct Rle_dec; lra. Qed.

Lemma row_max_shift (c : real) (r : list real) :
  row_max (F := Rs) (map (fun x => x + c) r)
  = option_map (fun m => m + c) (row_max (F := Rs) r).
Proof.
  destruct r as [|x r]; [reflexivity|]. cbn [map row_max option_map]. f_equal.
  revert x. induction r as [|y r IH]; intros x; [reflexivity|].
  cbn [map fold_left]. rewrite <- IH. f_equal. apply Rmax_shift.
Qed.

Lemma softmax_row_shift (c : real) (r : list real) :
  softmax_row (F := Rs) (map (fun x => x + c) r) = softmax_row (F := Rs) r.
Proof.
  unfold softmax_row. rewrite row_max_shift.
  destruct (row_max (F := Rs) r) as [m|]; [|reflexivity]. cbn [option_map bind].
  assert (He : map (fun y => @s_exp Rs (@s_sub Rs y (m + c)))
                   (map (fun x => x + c) r)
               = map (fun y => @s_exp Rs (@s_sub Rs y m)) r).
  { rewrite map_map. apply map_ext. intros x. cbn. f_equal. ring. }
  now rewrite He.
Qed.

Lemma add_row_shift (c : real) (A b : list (list real)) :
  add_row (F := Rs) A (map (map (fun x => x + c)) b)
  = map (map (fun x => x + c)) (add_row (F := Rs) A b).
Proof.
  unfold add_row.
  etransitivity; [|symmetry; apply map_map].
  apply map_ext. intros r.
  assert (G : forall l : list real,
             vec_add (F := Rs) r (map (fun x => x + c) l)
             = map (fun x => x + c) (vec_add (F := Rs) r l)).
  { unfold vec_add, zip_with.
    induction r as [|x r IH]; intros [|y l]; try reflexivity.
    cbn [map combine fst snd]. rewrite IH. f_equal. cbn. ring. }
  destruct b as [|b0 b]; [exact (G [])|exact (G b0)].
Qed.

Lemma mapM_softmax_shift (c : real) (P : list (list real)) :
  mapM (softmax_row (F := Rs)) (map (map (fun x => x + c)) P)
  = mapM (softmax_row (F := Rs)) P.
Proof.
  induction P as [|p P IH]; [reflexivity|].
  cbn [map mapM]. now rewrite softmax_row_shift, IH.
Qed.

(** Adding a constant to every entry of the output bias [bw] changes
    nothing of what [forward] returns. *)
Theorem forward_ignores_bias_shift (rng : Type)
  (rand : rng -> nat -> nat -> list (list real) * rng)
  (self : mlbl (F := Rs)) (c : real) (g : rng) (X : list (list Z))
  (Im : list (list real)) (test : bool) :
  forward (F := Rs) rand (shift_bias c self) g X Im test
  = forward (F := Rs) rand self g X Im test.
Proof.
  unfold forward, shift_bias.
  cbn [R C bw M J bj K h context dropout set_params].
  match goal with |- context [if ?cnd then _ else (?a, g)] =>
    destruct (if cnd then _ else (a, g)) as [IF1 g1] end.
  apply bind_ext. intros G. apply bind_ext. intros acts. cbv zeta.
  f_equal.
  etransitivity; [apply f_equal; apply add_row_shift|].
  apply mapM_softmax_shift.
Qed.

(** ** train: a training set smaller than one minibatch *)

Local Close Scope R_scope.

Section NoMinibatch.
Variable rng : Type.
Variable RandomState : Z -> rng.
Variable rand : rng -> nat -> nat -> list (list real) * rng.
Variable randn : rng -> nat -> nat -> list (list real) * rng.
Variable randn3 : rng -> nat -> nat -> nat -> list (list (list real)) * rng.
Variable shuffle : rng -> list nat -> list nat * rng.
Variable compute_bleu : mlbl (F := Rs) -> rng -> list real * rng.
Variable generate_and_show : mlbl (F := Rs) -> rng -> rng.
Variable X : list (list Z).
Variable indX : list Z.
Variable XY : list (list real).
Variable IM : list (list real).
Variable prog : progress.

(** [init_params] assigns the parameters and the momentum buffers only. *)
Lemma init_params_frame (self self1 : mlbl (F := Rs)) embed_map count_dict :
  init_params (F := Rs) RandomState rand randn randn3 self embed_map count_dict
  = Some self1 ->
  (batchsize self1, maxepoch self1, T self1, eta_t self1, f self1, step self1)
  = (batchsize self, maxepoch self, T self, eta_t self, f self, step self).
Proof.
  unfold init_params. intros H.
  match type of H with bind ?m _ = _ => destruct m as [[R0 g0]|] end;
    [|discriminate].
  cbn [bind] in H.
  destruct (randn3 g0 _ _ _) as [N3 g1].
  destruct (randn g1 _ _) as [N2 g2].
  destruct (rand g2 _ _) as [U g3].
  now injection H as <-.
Qed.

Lemma epochs_without_minibatches (epochs : list nat) :
  forall st : run (F := Rs) rng,
  st.(done) = false -> py_is_zero (T st.(model)) = false ->
  exists st',
    for_loop (epoch_body (F := Rs) RandomState rand shuffle compute_bleu
                generate_and_show X indX XY IM prog 0) epochs st
    = Some (st', false) /\
    st'.(done) = false /\ st'.(best) = st.(best) /\ st'.(out) = st.(out) /\
    st'.(np_random) = st.(np_random) /\ st'.(count) = st.(count) /\
    (R st'.(model), C st'.(model), bw st'.(model), M st'.(model),
     J st'.(model), bj st'.(model))
    = (R st.(model), C st.(model), bw st.(model), M st.(model),
       J st.(model), bj st.(model)) /\
    T st'.(model) = T st.(model) /\ f st'.(model) = f st.(model) /\
    eta_t st'.(model) = (eta_t st.(model) * f st.(model) ^ length epochs)%R /\
    step st'.(model) = (step st.(model) + Z.of_nat (length epochs))%Z.
Proof.
  induction epochs as [|e epochs IH]; intros st Hd HT.
  - exists st. split; [reflexivity|].
    repeat split; try assumption.
    + simpl. symmetry. apply Rmult_1_r.
    + simpl. lia.
  - cbn [for_loop]. unfold epoch_body at 1. rewrite Hd.
    cbn [seq for_break for_loop bind fst].
    destruct (update_hyperparams_some
                (model (epoch_start (F := Rs) RandomState shuffle st e)) HT)
      as (pt & Hu).
    unfold scheduled_step. rewrite Hu. cbn [bind snd fst].
    match goal with |- context [for_loop _ epochs ?s] =>
      destruct (IH s Hd HT) as (st' & Hl & Hi) end.
    exists st'. split; [exact Hl|].
    destruct Hi as (H1 & H2 & H3 & H4 & H5 & H6 & H7 & H8 & H9 & H10).
    repeat split; try assumption.
    + rewrite H9. cbn. apply Rmult_assoc.
    + rewrite H10. cbn. lia.
Qed.

(** A run without any minibatch. *)
Lemma train_skips_minibatches (self self1 : mlbl (F := Rs)) (g : rng)
  (count_dict : list (nat * string))
  (embed_map : option (list (string * list real))) :
  init_params (F := Rs) RandomState rand randn randn3 (set_start self self.(seed))
              embed_map count_dict = Some self1 ->
  self.(batchsize) <> 0 -> length X < self.(batchsize) ->
  py_is_zero self.(T) = false ->
  exists st,
    train (F := Rs) RandomState rand randn randn3 shuffle compute_bleu generate_and_show
          X indX XY IM prog self g count_dict embed_map = Some (0%R, st) /\
    (R st.(model), C st.(model), bw st.(model), M st.(model), J st.(model),
     bj st.(model))
    = (R self1, C self1, bw self1, M self1, J self1, bj self1) /\
    eta_t st.(model) = (eta_t self * f self ^ maxepoch self)%R /\
    step st.(model) = Z.of_nat self.(maxepoch) /\
    st.(np_random) = g /\ st.(out) = [display_phase 1].
Proof.
  intros Hi Hb Hlen HT.
  pose proof (init_params_frame _ _ _ _ Hi) as Hfr.
  cbn [batchsize maxepoch T eta_t f step set_start set_sched] in Hfr.
  injection Hfr as Hbs Hme HT1 Heta Hf Hstep.
  unfold train. rewrite Hi. cbn [bind].
  change (batchsize (set_step self1 0)) with (batchsize self1).
  change (maxepoch (set_step self1 0)) with (maxepoch self1).
  rewrite Hbs, Hme.
  destruct (Nat.eqb_spec self.(batchsize) 0) as [E | _]; [contradiction|].
  cbn [bind]. rewrite (Nat.div_small _ _ Hlen).
  destruct (epochs_without_minibatches (seq 0 self.(maxepoch))
              (initial_run (F := Rs) X (set_step self1 0) g) eq_refl)
    as (st & Hl & Hidle).
  { cbn. now rewrite HT1. }
  unfold for_break. rewrite Hl. cbn [bind fst].
  destruct Hidle as (_ & H2 & H3 & H4 & _ & H6 & _ & _ & H9 & H10).
  exists st. rewrite H2. split; [reflexivity|].
  split; [exact H6|]. rewrite length_seq in H9, H10.
  split; [|split; [|split; [exact H4 | exact H3]]].
  - rewrite H9. cbn. now rewrite Heta, Hf.
  - rewrite H10. cbn. lia.
Qed.

(** With fewer training examples than [batchsize], [numbatches] is 0 and
    [train] takes no gradient step: it returns [best = 0.0] with the
    parameters [init_params] made, nothing printed after the phase banner
    and the global generator untouched, while the scheduler still runs once
    per epoch. *)
Theorem train_without_minibatches (self self1 : mlbl (F := Rs)) (g : rng)
  (count_dict : list (nat * string))
  (embed_map : option (list (string * list real))) :
  init_params (F := Rs) RandomState rand randn randn3 (set_start self self.(seed))
              embed_map count_dict = Some self1 ->
  self.(batchsize) <> 0 -> length X < self.(batchsize) ->
  py_is_zero self.(T) = false ->
  exists st,
    train (F := Rs) RandomState rand randn randn3 shuffle compute_bleu generate_and_show
          X indX XY IM prog self g count_dict embed_map = Some (0%R, st) /\
    (R st.(model), C st.(model), bw st.(model), M st.(model), J st.(model),
     bj st.(model))
    = (R self1, C self1, bw self1, M self1, J self1, bj self1) /\
    eta_t st.(model) = (eta_t self * f self ^ maxepoch self)%R /\
    step st.(model) = Z.of_nat self.(maxepoch) /\
    st.(np_random) = g /\ st.(out) = [display_phase 1].
Proof. exact (train_skips_minibatches self self1 g count_dict embed_map). Qed.

End NoMinibatch.

Lemma train_without_minibatches_witness :
  exists st,
    train (F := Rs) demo_RandomState demo_rand demo_randn demo_randn3
          demo_shuffle (demo_bleu (F := Rs) 0%R) demo_show
          [] [] [] (demo_IM (F := Rs) 0%R) demo_prog
          (tiny (F := Rs) 1 (1/2) (1/2) (1/2) (PyInt 20) 0 3 1 2)%R
          0%nat [] None
    = Some (0%R, st) /\
    step st.(model) = 1%Z /\ st.(out) = [display_phase 1].
Proof.
  pose (self0 := (tiny (F := Rs) 1 (1/2) (1/2) (1/2) (PyInt 20) 0 3 1 2)%R).
  eassert (Hi : init_params (F := Rs) demo_RandomState demo_rand demo_randn
                  demo_randn3 (set_start self0 self0.(seed)) None []
                = Some _) by reflexivity.
  destruct (train_without_minibatches nat demo_RandomState
              (demo_rand (F := Rs)) (demo_randn (F := Rs))
              (demo_randn3 (F := Rs)) demo_shuffle
              (demo_bleu (F := Rs) 0%R) (demo_show (F := Rs))
              [] [] [] (demo_IM (F := Rs) 0%R) demo_prog
              self0 _ 0%nat [] None Hi)
    as (st & Ht & _ & _ & Hs & _ & Ho).
  - simpl. lia.
  - simpl. lia.
  - reflexivity.
  - exists st. split; [exact Ht|]. split; [exact Hs | exact Ho].
Defined.

(** ** A gradient step without dropout *)

Section StepGenerator.
Context {F : Scalar}.
Variable rng : Type.
Variable rand : rng -> nat -> nat -> mat * rng.

Lemma forward_any_generator (self : mlbl) (g g2 : rng) (X : list (list Z))
  (Im : mat) (test : bool) :
  (s_gt self.(dropout) zero && negb test)%bool = false ->
  forward rand self g2 X Im test
  = match forward rand self g X Im test with
    | Some (res, _) => Some (res, g2)
    | None => None
    end.
Proof.
  intros E. unfold forward. rewrite E.
  match goal with |- bind ?m _ = _ => destruct m; [|reflexivity] end.
  cbn [bind].
  match goal with |- bind ?m _ = _ => destruct m; [|reflexivity] end.
  cbn [bind].
  match goal with |- bind ?m _ = _ => destruct m; reflexivity end.
Qed.

(** When [dropout] is not above 0, a minibatch step reads nothing from the
    global generator [np.random]: it hands the generator back as it got it,
    and from any other generator state it computes the same model and the
    same activations. *)
Theorem sgd_step_reproducible_without_dropout (self self' : mlbl)
  (g g1 g2 : rng) (batchX : list (list Z)) (batchY batchIm acts : mat) :
  s_gt self.(dropout) zero = false ->
  sgd_step rand self g batchX batchY batchIm = Some (self', g1, acts) ->
  g1 = g /\
  sgd_step rand self g2 batchX batchY batchIm = Some (self', g2, acts).
Proof.
  intros Hd Hs. unfold sgd_step in *.
  assert (E : (s_gt self.(dropout) zero && negb false)%bool = false)
    by now rewrite Hd.
  rewrite (forward_any_generator self g g2 batchX batchIm false E).
  destruct (forward rand self g batchX batchIm false)
    as [[[[[words acts0] IF] preds] g0]|] eqn:Ef; [|discriminate].
  cbn [bind] in *.
  assert (Hg : g0 = g).
  { unfold forward in Ef. rewrite E in Ef.
    match type of Ef with bind ?m _ = _ => destruct m; [|discriminate] end.
    cbn [bind] in Ef.
    match type of Ef with bind ?m _ = _ => destruct m; [|discriminate] end.
    cbn [bind] in Ef.
    match type of Ef with bind ?m _ = _ => destruct m; [|discriminate] end.
    cbn [bind] in Ef. now injection Ef. }
  destruct (backward self batchY preds IF acts0 words batchX batchIm)
    as [s1|]; [|discriminate].
  cbn [bind] in *.
  destruct (update_params s1 batchX) as [s2|]; [|discriminate].
  cbn [bind] in *. injection Hs as <- <- <-. now split.
Qed.

End StepGenerator.

Local Open Scope R_scope.

Lemma sgd_step_reproducible_without_dropout_witness :
  exists self' acts,
    sgd_step demo_rand (tiny (F := Rs) 1 (1/2) (1/2) (1/2) (PyInt 20) 0 3 1 2)
             0%nat [[0%Z]] [[1]] [[0]] = Some (self', 0%nat, acts) /\
    sgd_step demo_rand (tiny (F := Rs) 1 (1/2) (1/2) (1/2) (PyInt 20) 0 3 1 2)
             1%nat [[0%Z]] [[1]] [[0]] = Some (self', 1%nat, acts).
Proof.
  destruct demo_sgd_step_real as (self' & g1 & acts & Hs).
  assert (Hd : s_gt (dropout (tiny (F := Rs) 1 (1/2) (1/2) (1/2) (PyInt 20)
                                   0 3 1 2)) zero = false)
    by (apply Rgtb_false; simpl; lra).
  destruct (sgd_step_reproducible_without_dropout nat (demo_rand (F := Rs))
              _ _ _ _ 1%nat _ _ _ _ Hd Hs) as [Hg H2].
  exists self', acts. split; [|exact H2].
  rewrite Hg in Hs. exact Hs.
Defined.

(** ** train: the score it returns *)

Lemma for_loop_invariant {A B : Type} (bd : B -> A -> option (B * bool))
  (P : B -> Prop) (l : list A) :
  (forall b a r, bd b a = Some r -> P b -> P (fst r)) ->
  forall b r, for_loop bd l b = Some r -> P b -> P (fst r).
Proof.
  intros Hbd. induction l as [|a l IH]; intros b r H Hb; cbn [for_loop] in H.
  - now injection H as <-.
  - destruct (bd b a) as [r1|] eqn:E; [|discriminate]. cbn [bind] in H.
    pose proof (Hbd b a r1 E Hb) as H1.
    destruct (snd r1).
    + now injection H as <-.
    + exact (IH (fst r1) r H H1).
Qed.

Section BestScore.
Variable rng : Type.
Variable RandomState : Z -> rng.
Variable rand : rng -> nat -> nat -> list (list real) * rng.
Variable randn : rng -> nat -> nat -> list (list real) * rng.
Variable randn3 : rng -> nat -> nat -> nat -> list (list (list real)) * rng.
Variable shuffle : rng -> list nat -> list nat * rng.
Variable compute_bleu : mlbl (F := Rs) -> rng -> list real * rng.
Variable generate_and_show : mlbl (F := Rs) -> rng -> rng.
Variable X : list (list Z).
Variable indX : list Z.
Variable XY : list (list real).
Variable IM : list (list real).
Variable prog : progress.

(** [best] is not negative, and it is the initial 0.0 or the last entry of
    a metric sequence that [compute_bleu] returned. *)
Let scored (st : run (F := Rs) rng) : Prop :=
  0 <= st.(best) /\
  (st.(best) = 0 \/
   exists self' g', last_item (fst (compute_bleu self' g')) = Some st.(best)).

Lemma judge_scored (self : mlbl (F := Rs)) (g g0 : rng)
  (out : list (event (F := Rs)))
  (st : run (F := Rs) rng) (self0 : mlbl (F := Rs)) r :
  judge (F := Rs) self g out st (fst (compute_bleu self0 g0)) = Some r ->
  scored st -> scored (fst r).
Proof.
  unfold judge, scored. intros H [H0 Hb].
  match type of H with bind ?m _ = _ => destruct m as [b|] eqn:El end;
    [|discriminate].
  cbn [bind] in H.
  match type of H with (if ?c then _ else _) = _ => destruct c eqn:Ege end.
  - injection H as <-. cbn [fst best]. split.
    + cbn in Ege. unfold Rgeb in Ege.
      destruct (Rle_dec st.(best) b); [lra | discriminate].
    + right. exists self0, g0. exact El.
  - destruct (st.(count) + 1 =? patience)%Z; injection H as <-;
      cbn [fst best]; now split.
Qed.

Lemma minibatch_body_scored nb (st : run (F := Rs) rng) m r :
  minibatch_body (F := Rs) rand compute_bleu generate_and_show X indX XY IM
                 prog nb st m = Some r ->
  scored st -> scored (fst r).
Proof.
  unfold minibatch_body. intros H Hs.
  match type of H with bind ?m _ = _ =>
    destruct m as [[[bX bY] bIm]|]; [|discriminate] end.
  cbn [bind] in H.
  match type of H with bind ?m _ = _ =>
    destruct m as [[[s1 g1] acts]|]; [|discriminate] end.
  cbn [bind] in H.
  match type of H with (if ?c then _ else _) = _ => destruct c end.
  - injection H as <-. exact Hs.
  - match type of H with bind ?m _ = _ =>
      destruct m as [[[s2 g2] out2]|]; [|discriminate] end.
    cbn [bind] in H.
    match type of H with (if ?c then _ else _) = _ => destruct c end.
    + destruct (compute_bleu s2 g2) as [bl g3] eqn:Eb.
      change bl with (fst (bl, g3)) in H. rewrite <- Eb in H.
      exact (judge_scored _ _ _ _ _ _ _ H Hs).
    + injection H as <-. exact Hs.
Qed.

Lemma epoch_body_scored nb (st : run (F := Rs) rng) e r :
  epoch_body (F := Rs) RandomState rand shuffle compute_bleu generate_and_show
             X indX XY IM prog nb st e = Some r ->
  scored st -> scored (fst r).
Proof.
  unfold epoch_body. intros H Hs. destruct st.(done).
  - now injection H as <-.
  - unfold for_break in H.
    destruct (for_loop _ (seq 0 nb) _) as [r1|] eqn:El; [|discriminate].
    cbn [bind] in H.
    pose proof (for_loop_invariant _ scored (seq 0 nb)
                  (fun b a r0 => minibatch_body_scored nb b a r0) _ _ El Hs)
      as H1.
    destruct (scheduled_step (model (fst r1))); [|discriminate].
    cbn [bind] in H. injection H as <-. exact H1.
Qed.

(** The score [train] returns is not negative: it is the initial 0.0 or
    the last entry of a metric sequence that [compute_bleu] returned during
    the run. *)
Theorem train_returns_a_score (self : mlbl (F := Rs)) (g : rng)
  (count_dict : list (nat * string))
  (embed_map : option (list (string * list real))) (b : real)
  (st : run (F := Rs) rng) :
  train (F := Rs) RandomState rand randn randn3 shuffle compute_bleu
        generate_and_show X indX XY IM prog self g count_dict embed_map
  = Some (b, st) ->
  0 <= b /\
  (b = 0 \/ exists self' g', last_item (fst (compute_bleu self' g')) = Some b).
Proof.
  unfold train. intros H.
  destruct (init_params _ _ _ _ _ _ _) as [self1|]; [|discriminate].
  cbn [bind] in H.
  destruct (Nat.eqb _ 0); [discriminate|]. cbn [bind] in H.
  unfold for_break in H.
  destruct (for_loop _ _ _) as [r|] eqn:El; [|discriminate].
  cbn [bind] in H. injection H as <- <-.
  refine (for_loop_invariant _ scored _
            (fun s e r0 => epoch_body_scored _ s e r0) _ _ El _).
  split; [apply Rle_refl | now left].
Qed.

End BestScore.

Lemma train_returns_a_score_witness :
  exists b st,
    train (F := Rs) demo_RandomState demo_rand demo_randn demo_randn3
          demo_shuffle (demo_bleu (F := Rs) 1) demo_show
          [] [] [] (demo_IM (F := Rs) 0) demo_prog
          (tiny (F := Rs) 1 (1/2) (1/2) (1/2) (PyInt 20) 0 3 1 2)
          0%nat [] None
    = Some (b, st) /\ 0 <= b.
Proof.
  assert (Ht : exists b st,
             train (F := Rs) demo_RandomState demo_rand demo_randn
               demo_randn3 demo_shuffle (demo_bleu (F := Rs) 1) demo_show
               [] [] [] (demo_IM (F := Rs) 0) demo_prog
               (tiny (F := Rs) 1 (1/2) (1/2) (1/2) (PyInt 20) 0 3 1 2)
               0%nat [] None
             = Some (b, st)).
  { run_model. do 2 eexists. reflexivity. }
  destruct Ht as (b & st & Ht). exists b, st. split; [exact Ht|].
  exact (proj1 (train_returns_a_score nat demo_RandomState
                  (demo_rand (F := Rs)) (demo_randn (F := Rs))
                  (demo_randn3 (F := Rs)) demo_shuffle
                  (demo_bleu (F := Rs) 1) (demo_show (F := Rs))
                  [] [] [] (demo_IM (F := Rs) 0) demo_prog
                  _ _ _ _ _ _ Ht)).
Defined.

(** ** A gradient step on well-shaped arrays *)

Local Close Scope R_scope.

Section StepShapes.
Context {F : Scalar}.

Lemma shape_dot_dims m k n (A B : mat) :
  shape m k A -> shape k n B -> 0 < k -> shape m n (dot A B).
Proof.
  intros [HA _] HB Hk.
  pose proof (shape_dot A B) as H.
  now rewrite HA, (ncols_shape k n B HB Hk) in H.
Qed.

Lemma shape_transpose m n (A : mat) :
  shape m n A -> 0 < m -> shape n m (transpose A).
Proof.
  intros HA Hm. unfold transpose. rewrite (ncols_shape m n A HA Hm).
  split; [now rewrite length_map, length_seq|].
  rewrite Forall_map. apply Forall_forall. intros j _.
  unfold col. rewrite length_map. apply HA.
Qed.

Lemma shape_add_row m n (A b : mat) :
  shape m n A -> shape 1 n b -> shape m n (add_row A b).
Proof.
  intros [HA1 HA2] Hb. unfold add_row. split; [now rewrite length_map|].
  rewrite Forall_map. eapply Forall_impl; [|exact HA2].
  intros r Hr. cbv beta. unfold vec_add. rewrite zip_with_length, Hr.
  change (length (hd [] b)) with (ncols b).
  rewrite (ncols_shape 1 n b Hb) by lia. apply Nat.min_id.
Qed.

Lemma shape_zeros m n : shape m n (zeros m n).
Proof.
  unfold zeros. split; [apply repeat_length|].
  apply Forall_forall. intros r Hr. apply repeat_spec in Hr. subst.
  apply repeat_length.
Qed.

Lemma shape_position (words : list mat) B K ctx i :
  length words = B -> Forall (shape K ctx) words ->
  shape B K (position words i).
Proof.
  intros Hl Hw. unfold position. split; [now rewrite length_map|].
  rewrite Forall_map. eapply Forall_impl; [|exact Hw].
  intros w [Hw1 _]. unfold col. now rewrite length_map.
Qed.

Lemma shape_reshape_F m n (v : vec) : shape m n (reshape_F m n v).
Proof.
  unfold reshape_F. split; [now rewrite length_map, length_seq|].
  rewrite Forall_map. apply Forall_forall. intros i _.
  now rewrite length_map, length_seq.
Qed.

Lemma length_colsum (A : mat) : length (colsum A) = ncols A.
Proof. unfold colsum. now rewrite length_map, length_seq. Qed.

Lemma set_item_shape3 m n (Bm : mat) (A : tensor) :
  forall i A', Forall (shape m n) A -> shape m n Bm ->
  set_item A i Bm = Some A' -> Forall (shape m n) A'.
Proof.
  induction A as [|a A IH]; intros i A' HA HB H; [discriminate|].
  inversion HA as [|? ? Ha HA']; subst.
  destruct i as [|i]; cbn [set_item] in H.
  - injection H as <-. now constructor.
  - destruct (set_item A i Bm) as [A''|] eqn:E; [|discriminate].
    cbn [bind] in H. injection H as <-. constructor; [assumption|].
    exact (IH i A'' HA' HB E).
Qed.

Lemma softmax_rows_shape m n (P : mat) :
  shape m n P -> 0 < n ->
  exists Q, mapM softmax_row P = Some Q /\ shape m n Q.
Proof.
  intros [HP1 HP2] Hn.
  destruct (mapM_Forall softmax_row (fun q : vec => length q = n) P)
    as (Q & HQ & HF & Hl).
  - intros r Hr. rewrite Forall_forall in HP2. specialize (HP2 r Hr).
    unfold softmax_row. destruct r as [|x r]; [simpl in HP2; lia|].
    cbn [row_max bind]. eexists. split; [reflexivity|].
    now rewrite !length_map.
  - exists Q. split; [exact HQ|]. split; [congruence | exact HF].
Qed.

End StepShapes.

Section StepTotal.
Context {F : Scalar}.
Variable rng : Type.
Variable rand : rng -> nat -> nat -> mat * rng.
Hypothesis rand_shape : forall g m n, shape m n (fst (rand g m n)).

Lemma shape_mat_add m n (A B : mat) :
  shape m n A -> shape m n B -> shape m n (mat_add A B).
Proof. exact (shape_zip_with s_add m n A B). Qed.

Lemma shape_mat_mul m n (A B : mat) :
  shape m n A -> shape m n B -> shape m n (mat_mul A B).
Proof. exact (shape_zip_with s_mul m n A B). Qed.

Lemma contexts_flat ctx nv (X : list (list Z)) :
  contexts_in_range ctx nv X ->
  Forall (fun x => (0 <= x < Z.of_nat nv)%Z) (concat X).
Proof.
  intros H. apply Forall_concat. eapply Forall_impl; [|exact H].
  intros row [_ Hr]. exact Hr.
Qed.

(** On a well-shaped model and minibatch [forward] returns, and what it
    returns has the shapes of the source's comments. *)
Lemma forward_shapes (self : mlbl) (g : rng) (X : list (list Z)) (Im : mat)
  (test : bool) :
  params_shaped self -> X <> [] ->
  contexts_in_range self.(context) self.(V) X ->
  shape (length X) self.(D) Im ->
  exists words acts IF preds g',
    forward rand self g X Im test = Some ((words, acts, IF, preds), g') /\
    length words = length X /\
    Forall (shape self.(K) self.(context)) words /\
    shape (length X) self.(K) acts /\ shape (length X) self.(h) IF /\
    shape (length X) self.(V) preds.
Proof.
  intros ((HV & HK & HD & Hh) & (HR & _) & (HC & _) & (Hbw & _) & (HM & _)
          & (HJ & _) & (Hbj & _)) HX Hctx HIm.
  assert (Hnc : ncols self.(R) = self.(V)) by (apply (ncols_shape self.(K)); auto).
  unfold forward.
  set (IF0 := mat_mul _ (mat_positive _)).
  assert (HIF0 : shape (length X) self.(h) IF0).
  { unfold IF0, mat_positive.
    assert (H0 : shape (length X) self.(h)
                   (add_row (dot Im self.(J)) self.(bj))).
    { apply shape_add_row; [|assumption].
      now apply (shape_dot_dims _ self.(D)). }
    apply shape_mat_mul; [assumption | now apply shape_map]. }
  match goal with |- context [if ?c then _ else (IF0, g)] =>
    set (dr := if c then _ else (IF0, g)) end.
  assert (Hdr : shape (length X) self.(h) (fst dr)).
  { unfold dr. destruct (s_gt _ _ && negb test)%bool; [|exact HIF0].
    pose proof (rand_shape g (length X) self.(h)) as Hu.
    destruct (rand g (length X) self.(h)) as [u g1]. cbn [fst] in *.
    apply shape_mat_mul; [assumption | now apply shape_map]. }
  destruct dr as [IF1 g1]. cbn [fst] in Hdr.
  destruct (mapM_py_index_some (ncols self.(R)) (concat X)) as (js & Hjs).
  { rewrite Hnc. exact (contexts_flat _ _ _ Hctx). }
  unfold take_cols. rewrite Hjs. cbn [bind].
  set (words := map (reshape_F _ _) _).
  assert (Hw : length words = length X).
  { unfold words, reshape. now rewrite !length_map, length_seq. }
  assert (Hws : Forall (shape self.(K) self.(context)) words).
  { unfold words. rewrite Forall_map. apply Forall_forall.
    intros v _. apply shape_reshape_F. }
  destruct (foldM_invariant
              (fun acts i =>
                 Ci <- nth_error self.(C) i ;;
                 Some (mat_add acts (dot (position words i) Ci)))
              (shape (length X) self.(K))
              (seq 0 self.(context)) (zeros (length X) self.(K)))
    as (acts0 & Hacts0 & Hs0).
  { apply shape_zeros. }
  { intros acts i Hi Hs. apply in_seq in Hi.
    destruct (nth_error self.(C) i) as [Ci|] eqn:E.
    - eexists. split; [reflexivity|]. apply shape_mat_add; [assumption|].
      apply (shape_dot_dims _ self.(K)); [|  | assumption].
      + now apply (shape_position _ _ _ self.(context)).
      + destruct HC as [_ HC]. rewrite Forall_forall in HC.
        apply HC. eapply nth_error_In. exact E.
    - apply nth_error_None in E. destruct HC as [HC _]. lia. }
  rewrite Hacts0. cbn [bind].
  set (acts := if test then _ else _).
  assert (Hacts : shape (length X) self.(K) acts).
  { unfold acts. destruct test; (apply shape_mat_add; [assumption|]);
      apply (shape_dot_dims _ self.(h)); try assumption.
    unfold mat_scale_r. now apply shape_map. }
  destruct (softmax_rows_shape (length X) self.(V)
              (add_row (dot acts self.(R)) self.(bw)))
    as (preds & Hp & Hps).
  { apply shape_add_row; [|assumption].
    now apply (shape_dot_dims _ self.(K)). }
  { assumption. }
  rewrite Hp. cbn [bind].
  exists words, acts, IF1, preds, g1. split; [reflexivity|].
  repeat split; try assumption; [apply Hacts | apply Hacts | apply Hdr | apply Hdr
                                 | apply Hps | apply Hps].
Qed.

Lemma shape3_tensor_add c m n (A B : tensor) :
  shape3 c m n A -> shape3 c m n B -> shape3 c m n (tensor_add A B).
Proof.
  intros [HA1 HA2] [HB1 HB2]. unfold tensor_add. split.
  - rewrite zip_with_length. lia.
  - clear HA1 HB1. revert B HB2.
    induction HA2 as [|a A Ha _ IH]; intros B HB2; [constructor|].
    destruct HB2 as [|b B Hb HB]; [constructor|].
    unfold zip_with in *. simpl. constructor; [|now apply IH].
    now apply shape_mat_add.
Qed.

Lemma shape3_tensor_scale c m n (x : num) (A : tensor) :
  shape3 c m n A -> shape3 c m n (tensor_scale x A).
Proof.
  intros [HA1 HA2]. unfold tensor_scale. split; [now rewrite length_map|].
  rewrite Forall_map. eapply Forall_impl; [|exact HA2].
  intros a Ha. now apply shape_map.
Qed.

Lemma scatter_shape m n ctx (X : list (list Z)) (c : nat) (delta dR0 : mat) :
  shape m n dR0 -> contexts_in_range ctx n X -> c < ctx ->
  exists dR1, scatter n X c delta dR0 = Some dR1 /\ shape m n dR1.
Proof.
  intros HdR HX Hc. unfold scatter.
  apply (foldM_seq_invariant _ (fun _ dR1 => shape m n dR1));
    [assumption|].
  intros j dR1 Hj Hs.
  destruct (contexts_entry ctx n X j c HX Hj Hc) as (row & E1 & E2 & Hx).
  rewrite E1. cbn [bind]. rewrite E2. cbn [bind].
  rewrite (py_index_in_range n _ Hx). cbn [bind].
  eexists. split; [reflexivity|]. now apply shape_add_to_col.
Qed.

Lemma shape_output_error_dims m n (Y preds : mat) :
  shape m n preds -> shape m n Y -> shape m n (output_error Y preds).
Proof.
  intros Hp HY. unfold output_error, mat_div, mat_sub.
  apply shape_map. now apply shape_zip_with.
Qed.

(** On the arrays of a well-shaped forward pass [backward] returns, and
    every gradient has the shape of its parameter. *)
Lemma backward_shapes (self : mlbl) (Y preds IF acts : mat)
  (words : list mat) (X : list (list Z)) (Im : mat) :
  params_shaped self -> X <> [] ->
  contexts_in_range self.(context) self.(V) X ->
  length words = length X ->
  Forall (shape self.(K) self.(context)) words ->
  shape (length X) self.(K) acts -> shape (length X) self.(h) IF ->
  shape (length X) self.(V) preds -> shape (length X) self.(V) Y ->
  shape (length X) self.(D) Im ->
  exists dR' dM' db' dC' dJ' dBj',
    backward self Y preds IF acts words X Im
    = Some (set_grads self dR' dM' db' dC' dJ' dBj') /\
    shape self.(K) self.(V) dR' /\
    shape3 self.(context) self.(K) self.(K) dC' /\
    length db' = self.(V) /\
    shape self.(h) self.(K) dM' /\
    shape self.(D) self.(h) dJ' /\
    length dBj' = self.(h).
Proof.
  intros ((HV & HK & HD & Hh) & (HR & _) & (HC & _) & (Hbw & _) & (HM & _)
          & (HJ & _) & (Hbj & _)) HX Hctx Hwl Hws Ha HIF Hp HY HIm.
  assert (HB : 0 < length X) by (destruct X; [congruence | simpl; lia]).
  pose proof (shape_output_error_dims _ _ Y preds Hp HY) as HIx.
  assert (Hnv : ncols (output_error Y preds) = self.(V))
    by (apply (ncols_shape (length X)); assumption).
  unfold backward. rewrite Hnv.
  set (Ix := output_error Y preds) in *.
  set (Ix2 := dot Ix (transpose self.(R))).
  assert (HIx2 : shape (length X) self.(K) Ix2).
  { apply (shape_dot_dims _ self.(V)); [assumption | | assumption].
    now apply shape_transpose. }
  assert (HdR0 : shape self.(K) self.(V) (dot (transpose acts) Ix)).
  { apply (shape_dot_dims _ (length X)); [|assumption..].
    now apply shape_transpose. }
  match goal with |- context [foldM ?bd (seq 0 ?n) ?b] =>
    destruct (foldM_seq_invariant bd
                (fun (i : nat) (acc : tensor * mat) =>
                   shape3 self.(context) self.(K) self.(K) (fst acc) /\
                   shape self.(K) self.(V) (snd acc))
                n b) as ([dC1 dR1] & Hfold & HdC1 & HdR1)
  end.
  - cbn [fst snd]. split; [|assumption]. destruct HC as [HC1 HC2]. split.
    + now rewrite length_map.
    + rewrite Forall_map. eapply Forall_impl; [|exact HC2].
      intros c Hc. cbv beta. destruct Hc as [Hc1 Hc2].
      rewrite (ncols_shape self.(K) self.(K) c (conj Hc1 Hc2) HK), Hc1.
      apply shape_zeros.
  - intros i [dC dR0] Hi ([Hl HdC] & Hs). cbn [fst snd] in *.
    destruct (set_item_some dC i (dot (transpose (position words i)) Ix2))
      as (dC' & E & Hl'); [lia|].
    rewrite E. cbn [bind].
    destruct (scatter_shape self.(K) self.(V) self.(context) X i
                (dot Ix2 (transpose (nth i self.(C) []))) dR0 Hs Hctx Hi)
      as (dR' & E' & Hs').
    rewrite E'. cbn [bind]. eexists. split; [reflexivity|]. cbn [fst snd].
    split; [|assumption]. split; [congruence|].
    apply (set_item_shape3 _ _ _ _ _ _ HdC) in E; [assumption|].
    apply (shape_dot_dims _ (length X)); [|assumption..].
    apply shape_transpose; [|assumption].
    now apply (shape_position _ _ _ self.(context)).
  - cbn [fst snd] in HdC1, HdR1.
    rewrite Hfold. cbn [bind].
    assert (HIx3 : shape (length X) self.(h)
                     (mat_mul (dot Ix2 (transpose self.(M))) (mat_positive IF))).
    { apply shape_mat_mul; [|now apply shape_map].
      apply (shape_dot_dims _ self.(K)); [assumption | | assumption].
      now apply shape_transpose. }
    do 6 eexists. split; [reflexivity|].
    split; [|split; [|split; [|split; [|split]]]].
    + apply shape_mat_add; [assumption | now apply shape_map].
    + apply shape3_tensor_add; [assumption | now apply shape3_tensor_scale].
    + rewrite length_colsum. exact Hnv.
    + apply shape_mat_add; [|now apply shape_map].
      apply (shape_dot_dims _ (length X)); [|assumption..].
      now apply shape_transpose.
    + apply shape_mat_add; [|now apply shape_map].
      apply (shape_dot_dims _ (length X)); [|assumption..].
      now apply shape_transpose.
    + rewrite length_colsum. now apply (ncols_shape (length X)).
Qed.

(** The three calls of a minibatch step fit together; the step leaves the
    dimensions and the settings of the model as they are. *)
Lemma sgd_step_shaped (self : mlbl) (g : rng)
  (batchX : list (list Z)) (batchY batchIm : mat) :
  params_shaped self -> batchX <> [] ->
  contexts_in_range self.(context) self.(V) batchX ->
  shape (length batchX) self.(V) batchY ->
  shape (length batchX) self.(D) batchIm ->
  exists self' g' acts,
    sgd_step rand self g batchX batchY batchIm = Some (self', g', acts) /\
    params_shaped self' /\
    shape (length batchX) self.(K) acts /\
    (V self', K self', D self', h self', context self')
    = (V self, K self, D self, h self, context self) /\
    (batchsize self', maxepoch self', T self', seed self')
    = (batchsize self, maxepoch self, T self, seed self).
Proof.
  intros Hsh HX Hctx HY HIm.
  destruct (forward_shapes self g batchX batchIm false Hsh HX Hctx HIm)
    as (words & acts & IF & preds & g' & Hf & Hwl & Hws & Ha & HIF & Hp).
  destruct (backward_shapes self batchY preds IF acts words batchX batchIm
              Hsh HX Hctx Hwl Hws Ha HIF Hp HY HIm)
    as (dR' & dM' & db' & dC' & dJ' & dBj' & Hb & HdR & HdC & Hdb & HdM
        & HdJ & HdBj).
  destruct Hsh as (Hdims & (HR & HR') & (HC & HC') & (Hbw & Hbw')
                   & (HM & HM') & (HJ & HJ') & (Hbj & Hbj')).
  apply shape_singleton in Hdb, HdBj.
  assert (Hn : (Z.of_nat (length batchX) =? 0)%Z = false).
  { apply Z.eqb_neq. destruct batchX; [congruence | simpl; lia]. }
  unfold sgd_step. rewrite Hf. cbn [bind]. rewrite Hb. cbn [bind].
  unfold update_params, py_float_div. rewrite Hn. cbn [bind].
  do 3 eexists. split; [reflexivity|].
  split; [|split; [exact Ha | split; reflexivity]].
  unfold params_shaped.
  cbn [V K D h context R C bw M J bj deltaR deltaC deltaB deltaM deltaJ
       deltaBj dR dC db dM dJ dBj eta_t p_t set_params set_grads].
  split; [exact Hdims|].
  split; [|split; [|split; [|split; [|split]]]]; (split;
    first [ apply shape_mat_add; [assumption|]; apply shape_momentum; assumption
          | apply shape3_tensor_add; [assumption|]; apply shape3_momentum; assumption
          | apply shape_momentum; assumption
          | apply shape3_momentum; assumption ]).
Qed.

(** A gradient step on a well-shaped model and a well-shaped minibatch
    does not fail, and the model it leaves is well-shaped again: the three
    calls [forward], [backward] and [update_params] fit together. *)
Theorem sgd_step_keeps_shapes (self : mlbl) (g : rng)
  (batchX : list (list Z)) (batchY batchIm : mat) :
  params_shaped self -> batchX <> [] ->
  contexts_in_range self.(context) self.(V) batchX ->
  shape (length batchX) self.(V) batchY ->
  shape (length batchX) self.(D) batchIm ->
  exists self' g' acts,
    sgd_step rand self g batchX batchY batchIm = Some (self', g', acts) /\
    params_shaped self' /\
    shape (length batchX) self.(K) acts /\
    (V self', K self', D self', h self', context self')
    = (V self, K self, D self, h self, context self).
Proof.
  intros Hsh HX Hctx HY HIm.
  destruct (sgd_step_shaped self g batchX batchY batchIm Hsh HX Hctx HY HIm)
    as (self' & g' & acts & Hs & Hp & Ha & Hd & _).
  exists self', g', acts.
  split; [exact Hs | split; [exact Hp | split; [exact Ha | exact Hd]]].
Qed.

End StepTotal.

Lemma demo_rand_shape {F : Scalar} (g m n : nat) :
  shape m n (fst (demo_rand g m n)).
Proof.
  unfold demo_rand. cbn [fst]. split; [apply repeat_length|].
  apply Forall_forall. intros r Hr. apply repeat_spec in Hr. subst.
  apply repeat_length.
Qed.

Lemma dropout_model_shaped : params_shaped dropout_model.
Proof.
  unfold params_shaped, shape3, shape. simpl.
  repeat split; try lia; repeat constructor.
Qed.

Lemma sgd_step_keeps_shapes_witness :
  exists self' g' acts,
    sgd_step (F := Rs) demo_rand dropout_model 0 [[0%Z]]
             [[1%R; 0%R]] [[1%R]] = Some (self', g', acts) /\
    params_shaped self' /\ shape (F := Rs) 1 1 acts.
Proof.
  destruct (sgd_step_keeps_shapes nat (demo_rand (F := Rs))
              (demo_rand_shape (F := Rs)) dropout_model 0
              [[0%Z]] [[1%R; 0%R]] [[1%R]] dropout_model_shaped)
    as (self' & g' & acts & Hs & Hp & Ha & _).
  - discriminate.
  - repeat constructor; simpl; lia.
  - repeat constructor.
  - repeat constructor.
  - exists self', g', acts. split; [exact Hs|]. split; [exact Hp | exact Ha].
Defined.

(** ** init_params *)

Lemma lookup_in {A B : Type} (eqb : A -> A -> bool) (d : list (A * B))
  (key : A) (v : B) :
  lookup eqb d key = Some v -> exists k', In (k', v) d.
Proof.
  induction d as [|[k' v'] d IH]; intros H; cbn [lookup] in H; [discriminate|].
  destruct (eqb key k').
  - injection H as <-. exists k'. now left.
  - destruct (IH H) as (k2 & Hin). exists k2. now right.
Qed.

Section InitParams.
Context {F : Scalar}.
Variable rng : Type.
Variable RandomState : Z -> rng.
Variable rand : rng -> nat -> nat -> mat * rng.
Variable randn : rng -> nat -> nat -> mat * rng.
Variable randn3 : rng -> nat -> nat -> nat -> tensor * rng.

(** The embedding that [init_params] writes into column [i] of [R]. *)
Lemma init_params_embeddings (self self1 : mlbl)
  (em : list (string * vec)) (count_dict : list (nat * string)) :
  init_params RandomState rand randn randn3 self (Some em) count_dict
  = Some self1 ->
  exists es,
    mapM (fun i =>
            word <- lookup Nat.eqb count_dict i ;;
            match lookup String.eqb em word with
            | Some e => Some e
            | None => lookup String.eqb em "*UNKNOWN*"%string
            end) (seq 0 self.(V)) = Some es /\
    self1.(R) = map (fun k => map (fun e => nth k e zero) es) (seq 0 self.(K)).
Proof.
  unfold init_params. intros H. cbn [bind] in H.
  match type of H with
  | context [mapM ?g ?l] => destruct (mapM g l) as [es|] eqn:Ees
  end; [|discriminate].
  cbn [bind] in H.
  destruct (randn3 _ _ _ _) as [N3 g1].
  destruct (randn g1 _ _) as [N2 g2].
  destruct (rand g2 _ _) as [U g3].
  injection H as <-. exists es. split; [reflexivity|]. reflexivity.
Qed.

(** With pre-trained embeddings of length [K], column [i] of [R] is the
    embedding of word [count_dict[i]] when [embed_map] has that word, and
    the embedding stored under ['*UNKNOWN*'] otherwise. *)
Theorem init_params_pretrained (self self1 : mlbl)
  (em : list (string * vec)) (count_dict : list (nat * string)) :
  init_params RandomState rand randn randn3 self (Some em) count_dict
  = Some self1 ->
  Forall (fun p => length (snd p) = self.(K)) em ->
  forall i, i < self.(V) ->
    exists word e,
      lookup Nat.eqb count_dict i = Some word /\
      (lookup String.eqb em word = Some e \/
       lookup String.eqb em word = None /\
       lookup String.eqb em "*UNKNOWN*"%string = Some e) /\
      col self1.(R) i = e.
Proof.
  intros H Hem i Hi.
  destruct (init_params_embeddings _ _ _ _ H) as (es & Hes & HR).
  apply mapM_nth in Hes. destruct Hes as [Hlen Hnth].
  rewrite length_seq in Hlen, Hnth.
  specialize (Hnth i 0 [] Hi). rewrite seq_nth in Hnth by assumption.
  cbn [Nat.add] in Hnth.
  destruct (lookup Nat.eqb count_dict i) as [word|]; [|discriminate].
  cbn [bind] in Hnth. exists word, (nth i es []). split; [reflexivity|].
  assert (Hl : length (nth i es []) = self.(K)).
  { rewrite Forall_forall in Hem.
    destruct (lookup String.eqb em word) as [e|] eqn:E.
    - injection Hnth as <-. destruct (lookup_in _ _ _ _ E) as (k' & Hin).
      exact (Hem _ Hin).
    - destruct (lookup_in _ _ _ _ Hnth) as (k' & Hin). exact (Hem _ Hin). }
  split.
  - destruct (lookup String.eqb em word) as [e|]; [left | right; split];
      congruence.
  - rewrite HR. unfold col. rewrite map_map.
    etransitivity; [|apply (map_nth_seq_id zero (nth i es []))]. rewrite Hl.
    apply map_ext. intros k.
    rewrite (nth_indep _ zero (nth k [] zero)) by (rewrite length_map; lia).
    now rewrite (map_nth (fun e => nth k e zero)).
Qed.

(** [init_params] raises (KeyError) when [count_dict] has no word for an
    index below [V], or when a word is missing from [embed_map] and
    [embed_map] has no ['*UNKNOWN*'] entry. *)
Theorem init_params_key_error (self : mlbl)
  (em : list (string * vec)) (count_dict : list (nat * string)) (i : nat) :
  i < self.(V) ->
  lookup Nat.eqb count_dict i = None \/
  (exists word, lookup Nat.eqb count_dict i = Some word /\
     lookup String.eqb em word = None /\
     lookup String.eqb em "*UNKNOWN*"%string = None) ->
  init_params RandomState rand randn randn3 self (Some em) count_dict = None.
Proof.
  intros Hi Hk. unfold init_params.
  match goal with
  | |- context [mapM ?g ?l] => rewrite (mapM_none g l i)
  end; [reflexivity | apply in_seq; lia |].
  destruct Hk as [-> | (word & -> & Hw & Hu)]; [reflexivity|].
  cbn [bind]. now rewrite Hw.
Qed.

End InitParams.

Lemma init_params_pretrained_witness :
  exists self1,
    init_params (F := Rs) demo_RandomState demo_rand demo_randn demo_randn3
      (tiny (F := Rs) 1 (1/2) (1/2) (1/2) (PyInt 20) 0 3 1 2)%R
      (Some [("a"%string, [7%R]); ("*UNKNOWN*"%string, [9%R])])
      [(0, "b"%string)] = Some self1 /\
    col (F := Rs) self1.(R) 0 = [9%R].
Proof.
  eassert (Hi : init_params (F := Rs) demo_RandomState demo_rand demo_randn
                  demo_randn3
                  (tiny (F := Rs) 1 (1/2) (1/2) (1/2) (PyInt 20) 0 3 1 2)%R
                  (Some [("a"%string, [7%R]); ("*UNKNOWN*"%string, [9%R])])
                  [(0, "b"%string)] = Some _) by reflexivity.
  eexists. split; [exact Hi|].
  destruct (init_params_pretrained (F := Rs) nat demo_RandomState demo_rand
              demo_randn demo_randn3 _ _ _ _ Hi
              ltac:(repeat constructor) 0 ltac:(simpl; lia))
    as (word & e & Hw & Hor & Hcol).
  rewrite Hcol. cbn in Hw. injection Hw as <-.
  destruct Hor as [H1 | [_ H2]]; cbn in *; congruence.
Defined.

Lemma init_params_key_error_witness :
  init_params (F := Rs) demo_RandomState demo_rand demo_randn demo_randn3
    (tiny (F := Rs) 1 (1/2) (1/2) (1/2) (PyInt 20) 0 3 1 2)%R
    (Some [("a"%string, [7%R])]) [(0, "b"%string)] = None.
Proof.
  apply (init_params_key_error (F := Rs) nat demo_RandomState demo_rand
           demo_randn demo_randn3 _ _ _ 0); [simpl; lia|].
  right. exists "b"%string. repeat split.
Defined.

Section InitShapes.
Context {F : Scalar}.
Variable rng : Type.
Variable RandomState : Z -> rng.
Variable rand : rng -> nat -> nat -> mat * rng.
Variable randn : rng -> nat -> nat -> mat * rng.
Variable randn3 : rng -> nat -> nat -> nat -> tensor * rng.
Hypothesis rand_shape : forall g m n, shape m n (fst (rand g m n)).
Hypothesis randn_shape : forall g m n, shape m n (fst (randn g m n)).
Hypothesis randn3_shape : forall g c m n, shape3 c m n (fst (randn3 g c m n)).

Lemma shape_zeros_like m n (A : mat) :
  shape m n A -> 0 < m -> shape m n (zeros_like A).
Proof.
  intros HA Hm. unfold zeros_like.
  rewrite (ncols_shape m n A HA Hm). destruct HA as [-> _].
  apply shape_zeros.
Qed.

Lemma shape3_zeros_like c m n (A : tensor) :
  shape3 c m n A -> 0 < m -> shape3 c m n (map zeros_like A).
Proof.
  intros [HA1 HA2] Hm. split; [now rewrite length_map|].
  rewrite Forall_map. eapply Forall_impl; [|exact HA2].
  intros a Ha. now apply shape_zeros_like.
Qed.

(** The tail of [init_params], from the output bias on, for an embedding
    matrix [R0] of the right shape. *)
Lemma init_params_tail_shapes (self : mlbl) (R0 : mat) (g0 : rng) :
  0 < self.(V) -> 0 < self.(K) -> 0 < self.(D) -> 0 < self.(h) ->
  shape self.(K) self.(V) R0 ->
  params_shaped
    (let '(N3, prng) := randn3 g0 self.(context) self.(K) self.(K) in
     let C := tensor_scale hundredth N3 in
     let '(N2, prng) := randn prng self.(h) self.(K) in
     let M := mat_scale hundredth N2 in
     let r := s_div (s_sqrt (s_of_Z 6))
                    (s_sqrt (s_of_Z (Z.of_nat (self.(D) + self.(h) + 1)))) in
     let '(U, prng) := rand prng self.(D) self.(h) in
     let J := spread r U in
     set_params self R0 C (zeros 1 self.(V)) M J (zeros 1 self.(h))
       (zeros_like R0) (map zeros_like C) (zeros_like (zeros 1 self.(V)))
       (zeros_like M) (zeros_like J) (zeros_like (zeros 1 self.(h)))).
Proof.
  intros HV HK HD Hh HR.
  pose proof (randn3_shape g0 self.(context) self.(K) self.(K)) as H3.
  destruct (randn3 g0 _ _ _) as [N3 g1]. cbn [fst] in H3.
  pose proof (randn_shape g1 self.(h) self.(K)) as H2.
  destruct (randn g1 _ _) as [N2 g2]. cbn [fst] in H2.
  pose proof (rand_shape g2 self.(D) self.(h)) as H1.
  destruct (rand g2 _ _) as [U g3]. cbn [fst] in H1.
  cbv zeta. unfold params_shaped.
  cbn [V K D h context R C bw M J bj deltaR deltaC deltaB deltaM deltaJ
       deltaBj set_params].
  assert (HC : shape3 self.(context) self.(K) self.(K)
                 (tensor_scale hundredth N3))
    by now apply shape3_tensor_scale.
  assert (HM : shape self.(h) self.(K) (mat_scale hundredth N2))
    by now apply shape_map.
  assert (HJ : forall r, shape self.(D) self.(h) (spread r U))
    by (intros r; now apply shape_map).
  split; [auto|].
  split; [split; [assumption | now apply shape_zeros_like]|].
  split; [split; [assumption | now apply shape3_zeros_like]|].
  split; [split; [apply shape_zeros
                 | apply shape_zeros_like; [apply shape_zeros | lia]]|].
  split; [split; [assumption | now apply shape_zeros_like]|].
  split; [split; [apply HJ | apply shape_zeros_like; [apply HJ | assumption]]|].
  split; [apply shape_zeros
         | apply shape_zeros_like; [apply shape_zeros | lia]].
Qed.

Lemma init_params_shaped (self : mlbl)
  (embed_map : option (list (string * vec)))
  (count_dict : list (nat * string)) :
  0 < self.(V) -> 0 < self.(K) -> 0 < self.(D) -> 0 < self.(h) ->
  match embed_map with
  | Some em => Forall (fun p => length (snd p) = self.(K)) em
  | None => True
  end ->
  (embed_map = None ->
   exists self1,
     init_params RandomState rand randn randn3 self embed_map count_dict
     = Some self1) /\
  (forall self1,
     init_params RandomState rand randn randn3 self embed_map count_dict
     = Some self1 -> params_shaped self1).
Proof.
  intros HV HK HD Hh Hem. unfold init_params. split.
  - intros ->.
    destruct (rand (RandomState self.(seed)) self.(K) self.(V)) as [U0 g0].
    cbn [bind].
    destruct (randn3 g0 _ _ _) as [N3 g1].
    destruct (randn g1 _ _) as [N2 g2].
    destruct (rand g2 _ _) as [U g3]. eexists. reflexivity.
  - intros self1 H.
    match type of H with bind ?m _ = _ =>
      destruct m as [[R0 g0]|] eqn:ER end; [|discriminate].
    cbn [bind] in H.
    assert (HR : shape self.(K) self.(V) R0).
    { destruct embed_map as [em|].
      - match type of ER with bind ?m _ = _ =>
          destruct m as [es|] eqn:Ees end; [|discriminate].
        cbn [bind] in ER. injection ER as <- _.
        apply mapM_nth in Ees. destruct Ees as [Hlen _].
        rewrite length_seq in Hlen.
        split; [now rewrite length_map, length_seq|].
        rewrite Forall_map. apply Forall_forall. intros k _.
        now rewrite length_map.
      - pose proof (rand_shape (RandomState self.(seed)) self.(K) self.(V))
          as HU.
        destruct (rand (RandomState self.(seed)) self.(K) self.(V))
          as [U0 g0'].
        cbn [fst] in HU. injection ER as <- _. now apply shape_map. }
    pose proof (init_params_tail_shapes self R0 g0 HV HK HD Hh HR) as Ht.
    destruct (randn3 g0 _ _ _) as [N3 g1].
    destruct (randn g1 _ _) as [N2 g2].
    destruct (rand g2 _ _) as [U g3].
    injection H as <-. exact Ht.
Qed.

(** [init_params] leaves a well-shaped model, with zero momentum buffers
    of the parameters' shapes, provided the generators return arrays of the
    shape they are asked for; without pre-trained embeddings it cannot
    fail.  Pre-trained embeddings are taken to have length [K]. *)
Theorem init_params_shapes (self : mlbl)
  (embed_map : option (list (string * vec)))
  (count_dict : list (nat * string)) :
  0 < self.(V) -> 0 < self.(K) -> 0 < self.(D) -> 0 < self.(h) ->
  match embed_map with
  | Some em => Forall (fun p => length (snd p) = self.(K)) em
  | None => True
  end ->
  (embed_map = None ->
   exists self1,
     init_params RandomState rand randn randn3 self embed_map count_dict
     = Some self1) /\
  (forall self1,
     init_params RandomState rand randn randn3 self embed_map count_dict
     = Some self1 -> params_shaped self1).
Proof. exact (init_params_shaped self embed_map count_dict). Qed.

End InitShapes.

Lemma demo_randn_shape {F : Scalar} (g m n : nat) :
  shape m n (fst (demo_randn g m n)).
Proof. unfold demo_randn. cbn [fst]. apply shape_zeros. Qed.

Lemma demo_randn3_shape {F : Scalar} (g c m n : nat) :
  shape3 c m n (fst (demo_randn3 g c m n)).
Proof.
  unfold demo_randn3. cbn [fst]. split; [apply repeat_length|].
  apply Forall_forall. intros a Ha. apply repeat_spec in Ha. subst.
  apply shape_zeros.
Qed.

Lemma init_params_shapes_witness :
  exists self1,
    init_params (F := Rs) demo_RandomState demo_rand demo_randn demo_randn3
      (tiny (F := Rs) 1 (1/2) (1/2) (1/2) (PyInt 20) 0 3 1 2)%R None []
    = Some self1 /\ params_shaped self1.
Proof.
  destruct (init_params_shapes (F := Rs) nat demo_RandomState demo_rand
              demo_randn demo_randn3 demo_rand_shape demo_randn_shape
              demo_randn3_shape
              (tiny (F := Rs) 1 (1/2) (1/2) (1/2) (PyInt 20) 0 3 1 2)%R
              None [])
    as [Hex Hsh]; try (simpl; lia).
  destruct (Hex eq_refl) as (self1 & Hi).
  exists self1. split; [exact Hi | exact (Hsh self1 Hi)].
Defined.

(** ** train on well-formed data *)

Lemma for_loop_total {A B : Type} (bd : B -> A -> option (B * bool))
  (P : B -> Prop) (l : list A) :
  (forall b a, In a l -> P b -> exists r, bd b a = Some r /\ P (fst r)) ->
  forall b, P b -> exists r, for_loop bd l b = Some r /\ P (fst r).
Proof.
  induction l as [|a l IH]; intros Hbd b Hb; cbn [for_loop].
  - exists (b, false). split; [reflexivity | exact Hb].
  - destruct (Hbd b a (or_introl eq_refl) Hb) as (r & E & Hr).
    rewrite E. cbn [bind].
    destruct (snd r); [exists r; split; [reflexivity | assumption]|].
    apply IH; [|assumption]. intros b' a' Ha'. apply Hbd. now right.
Qed.

Lemma last_item_some {A : Type} (l : list A) :
  l <> [] -> exists a, last_item l = Some a.
Proof.
  unfold last_item. intros H. destruct (rev l) as [|a r] eqn:E.
  - apply (f_equal (@length A)) in E. rewrite length_rev in E.
    destruct l; [congruence | discriminate].
  - exists a. reflexivity.
Qed.

Lemma rows_at_total {A : Type} (l : list A) (sel : list nat) :
  Forall (fun p => p < length l) sel ->
  exists rows, rows_at l sel = Some rows /\
    Forall (fun r => In r l) rows /\ length rows = length sel.
Proof.
  intros H. unfold rows_at. apply mapM_Forall.
  intros p Hp. rewrite Forall_forall in H. specialize (H p Hp).
  destruct (nth_error l p) as [r|] eqn:E.
  - exists r. split; [reflexivity|]. eapply nth_error_In. exact E.
  - apply nth_error_None in E. lia.
Qed.

Section ScheduledStep.
Context {F : Scalar}.

(** The scheduler step fails only on [T = 0], and it writes the schedule
    fields only. *)
Lemma scheduled_step_total (s : mlbl) :
  py_is_zero s.(T) = false ->
  exists s', scheduled_step s = Some s' /\
    (params_shaped s -> params_shaped s') /\
    (V s', K s', D s', h s', context s') = (V s, K s, D s, h s, context s) /\
    (batchsize s', maxepoch s', T s', seed s')
    = (batchsize s, maxepoch s, T s, seed s).
Proof.
  intros HT.
  assert (Hu : exists eta pt,
             update_hyperparams s
             = Some (set_sched s eta pt s.(step) s.(epoch) s.(start))).
  { unfold update_hyperparams, anneal, py_int_div. rewrite HT.
    destruct (py_int_lt s.(step) s.(T)).
    - destruct s.(T); cbn [bind]; do 2 eexists; reflexivity.
    - do 2 eexists. reflexivity. }
  destruct Hu as (eta & pt & Hu). unfold scheduled_step. rewrite Hu.
  cbn [bind]. eexists. split; [reflexivity|].
  split; [intros H; exact H|]. split; reflexivity.
Qed.

End ScheduledStep.

Section TrainTotal.
Context {F : Scalar}.
Variable rng : Type.
Variable RandomState : Z -> rng.
Variable rand : rng -> nat -> nat -> mat * rng.
Variable randn : rng -> nat -> nat -> mat * rng.
Variable randn3 : rng -> nat -> nat -> nat -> tensor * rng.
Variable shuffle : rng -> list nat -> list nat * rng.
Variable compute_bleu : mlbl -> rng -> list num * rng.
Variable generate_and_show : mlbl -> rng -> rng.
Variable X : list (list Z).
Variable indX : list Z.
Variable XY : mat.
Variable IM : mat.
Variable prog : progress.
Variable self : mlbl.

(** The generators return arrays of the shape they are asked for, a
    shuffle permutes, and [compute_bleu] returns at least one metric. *)
Hypothesis rand_shape : forall g m n, shape m n (fst (rand g m n)).
Hypothesis randn_shape : forall g m n, shape m n (fst (randn g m n)).
Hypothesis randn3_shape : forall g c m n, shape3 c m n (fst (randn3 g c m n)).
Hypothesis shuffle_perm : forall g l, Permutation l (fst (shuffle g l)).
Hypothesis bleu_nonempty : forall s g, fst (compute_bleu s g) <> [].

(** The settings: positive dimensions and batch size, [T] not zero. *)
Hypothesis dims_positive :
  0 < self.(V) /\ 0 < self.(K) /\ 0 < self.(D) /\ 0 < self.(h).
Hypothesis batchsize_positive : self.(batchsize) <> 0.
Hypothesis T_not_zero : py_is_zero self.(T) = false.

(** The data: [context] word indices in [0, V) per example, one target row
    of [V] entries and one caption index per example, every caption index
    [z] with an image [floor(z / 5)] of [D] features. *)
Hypothesis X_in_range : contexts_in_range self.(context) self.(V) X.
Hypothesis XY_shape : shape (length X) self.(V) XY.
Hypothesis indX_length : length indX = length X.
Hypothesis indX_in_range :
  Forall (fun z => (0 <= z / 5 < Z.of_nat (length IM))%Z) indX.
Hypothesis IM_rows : Forall (fun r => length r = self.(D)) IM.

(** What every state of the loops satisfies. *)
Let inv (st : run rng) : Prop :=
  params_shaped st.(model) /\
  (V st.(model), K st.(model), D st.(model), h st.(model),
   context st.(model))
  = (V self, K self, D self, h self, context self) /\
  (batchsize st.(model), maxepoch st.(model), T st.(model), seed st.(model))
  = (batchsize self, maxepoch self, T self, seed self) /\
  Forall (fun i => i < length X) st.(inds) /\
  length st.(inds) = length X.

Lemma batch_of_total (st : run rng) (m : nat) :
  inv st -> m < length X / self.(batchsize) ->
  exists bX bY bIm,
    batch_of X indX XY IM st (length X / self.(batchsize)) m
    = Some (bX, bY, bIm) /\
    bX <> [] /\ contexts_in_range self.(context) self.(V) bX /\
    shape (length bX) self.(V) bY /\ shape (length bX) self.(D) bIm.
Proof.
  intros (_ & _ & _ & Hinds & Hlen) Hm.
  set (nb := length X / self.(batchsize)) in *.
  assert (Hnb : nb <> 0) by lia.
  assert (Hle : nb <= length X).
  { unfold nb. apply Nat.Div0.div_le_upper_bound. nia. }
  unfold batch_of. rewrite slice_some by assumption. cbn [bind].
  set (n := slice_count (length st.(inds)) m nb).
  set (sel := map (fun i => nth (m + i * nb) st.(inds) 0) (seq 0 n)).
  assert (Hn : 0 < n).
  { apply (slice_count_lt (length st.(inds)) m nb 0 Hnb). lia. }
  assert (Hsl : length sel = n) by (unfold sel; now rewrite length_map, length_seq).
  assert (Hsel : Forall (fun p => p < length X) sel).
  { unfold sel. rewrite Forall_map. apply Forall_forall. intros i Hi.
    apply in_seq in Hi. rewrite Forall_forall in Hinds. apply Hinds, nth_In.
    apply slice_count_lt; [assumption | lia]. }
  destruct (rows_at_total X sel Hsel) as (bX & EX & HbX & LX).
  destruct (rows_at_total XY sel) as (bY & EY & HbY & LY).
  { destruct XY_shape as [-> _]. exact Hsel. }
  destruct (rows_at_total indX sel) as (bI & EI & HbI & LI).
  { now rewrite indX_length. }
  rewrite EX. cbn [bind]. rewrite EY. cbn [bind]. rewrite EI. cbn [bind].
  destruct (mapM_Forall
              (fun i => j <- py_index (length IM) i ;; nth_error IM j)
              (fun r => In r IM) (map (fun i => (i / 5)%Z) bI))
    as (bIm & EIm & HbIm & LIm).
  { intros a Ha. apply in_map_iff in Ha. destruct Ha as (z & <- & Hz).
    rewrite Forall_forall in HbI, indX_in_range.
    pose proof (indX_in_range z (HbI z Hz)) as Hr.
    rewrite (py_index_in_range _ _ Hr). cbn [bind].
    destruct (nth_error IM (Z.to_nat (z / 5))) as [r|] eqn:E.
    - exists r. split; [reflexivity|]. eapply nth_error_In. exact E.
    - apply nth_error_None in E. lia. }
  unfold rows_at_Z. rewrite EIm. cbn [bind].
  rewrite length_map in LIm.
  exists bX, bY, bIm. split; [reflexivity|]. split; [|split; [|split]].
  - intros ->. simpl in LX. lia.
  - unfold contexts_in_range in *. rewrite Forall_forall in *.
    intros row Hrow. apply X_in_range, HbX, Hrow.
  - split; [congruence|]. destruct XY_shape as [_ HXY].
    rewrite Forall_forall in *. intros r Hr. apply HXY, HbY, Hr.
  - split; [congruence|].
    rewrite Forall_forall in *. intros r Hr. apply IM_rows, HbIm, Hr.
Qed.

Lemma judge_total (s1 : mlbl) (g : rng) (out : list event) (st : run rng)
  (bl : list num) :
  bl <> [] ->
  exists r, judge s1 g out st bl = Some r /\
    model (fst r) = s1 /\ inds (fst r) = inds st.
Proof.
  intros Hb. unfold judge. destruct (last_item_some bl Hb) as (b & ->).
  cbn [bind]. destruct (s_ge b st.(best)).
  - eexists. split; [reflexivity|]. split; reflexivity.
  - destruct (st.(count) + 1 =? patience)%Z;
      (eexists; split; [reflexivity|]; split; reflexivity).
Qed.

Lemma periodic_total (s1 : mlbl) (g : rng) (st : run rng) (m : nat) :
  py_is_zero s1.(T) = false ->
  exists s2 g2 out2,
    periodic generate_and_show prog s1 g st m = Some (s2, g2, out2) /\
    (params_shaped s1 -> params_shaped s2) /\
    (V s2, K s2, D s2, h s2, context s2)
    = (V s1, K s1, D s1, h s1, context s1) /\
    (batchsize s2, maxepoch s2, T s2, seed s2)
    = (batchsize s1, maxepoch s1, T s1, seed s1).
Proof.
  intros HT. unfold periodic.
  match goal with
  | |- context [let '(g0, out0) := ?p in _] => destruct p as [g1 out1]
  end.
  destruct (due s1 m prog.(prog_update)).
  - destruct (scheduled_step_total s1 HT) as (s2 & E & Hp & Hd & Hs).
    rewrite E. cbn [bind]. do 3 eexists. split; [reflexivity|].
    split; [exact Hp | split; assumption].
  - do 3 eexists. split; [reflexivity|].
    split; [intros H; exact H | split; reflexivity].
Qed.

Lemma minibatch_body_total (st : run rng) (m : nat) :
  inv st -> m < length X / self.(batchsize) ->
  exists r,
    minibatch_body rand compute_bleu generate_and_show X indX XY IM prog
                   (length X / self.(batchsize)) st m = Some r /\
    inv (fst r).
Proof.
  intros Hinv Hm.
  destruct (batch_of_total st m Hinv Hm)
    as (bX & bY & bIm & Eb & HbX & Hctx & HbY & HbIm).
  destruct Hinv as (Hsh & Hd & Hs & Hinds & Hlen).
  injection Hd as HV HK HD Hh Hc. injection Hs as Hbs Hme HT Hseed.
  destruct (sgd_step_shaped rng rand rand_shape st.(model) st.(np_random)
              bX bY bIm Hsh HbX)
    as (s1 & g1 & acts & Es & Hsh1 & _ & Hd1 & Hs1).
  { now rewrite Hc, HV. }
  { now rewrite HV. }
  { now rewrite HD. }
  injection Hd1 as HV1 HK1 HD1 Hh1 Hc1. injection Hs1 as Hbs1 Hme1 HT1 Hseed1.
  unfold minibatch_body. rewrite Eb. cbn [bind]. rewrite Es. cbn [bind].
  destruct (any_nan acts).
  - eexists. split; [reflexivity|]. cbn [fst]. unfold inv. cbn [model inds].
    split; [exact Hsh1|]. split; [|split; [|split; assumption]]; congruence.
  - destruct (periodic_total s1 g1 st m) as (s2 & g2 & out2 & Ep & Hp2 & Hd2 & Hs2).
    { rewrite HT1, HT. exact T_not_zero. }
    injection Hd2 as HV2 HK2 HD2 Hh2 Hc2.
    injection Hs2 as Hbs2 Hme2 HT2 Hseed2.
    rewrite Ep. cbn [bind].
    assert (Hinv2 : forall r : run rng,
               model r = s2 -> inds r = inds st -> inv r).
    { intros r Hm2 Hi2. unfold inv. rewrite Hm2, Hi2.
      split; [exact (Hp2 Hsh1)|].
      split; [|split; [|split; assumption]]; congruence. }
    destruct (due s2 m prog.(prog_bleu)).
    + pose proof (bleu_nonempty s2 g2) as Hne.
      destruct (compute_bleu s2 g2) as [bl g3]. cbn [fst] in Hne.
      destruct (judge_total s2 g3 out2 st bl Hne) as (r & Ej & Hm2 & Hi2).
      exists r. split; [exact Ej|]. now apply Hinv2.
    + eexists. split; [reflexivity|]. now apply Hinv2.
Qed.

Lemma epoch_start_inv (st : run rng) (e : nat) :
  inv st -> inv (epoch_start RandomState shuffle st e).
Proof.
  intros (Hsh & Hd & Hs & Hinds & Hlen). unfold inv, epoch_start.
  cbn [model inds].
  split; [exact Hsh|]. split; [exact Hd|]. split; [exact Hs|].
  match goal with |- context [shuffle ?g0 ?l] =>
    pose proof (shuffle_perm g0 l) as Hperm end.
  split.
  - eapply Permutation_Forall; [exact Hperm | exact Hinds].
  - rewrite <- Hlen. symmetry. now apply Permutation_length.
Qed.

Lemma epoch_body_total (st : run rng) (e : nat) :
  inv st ->
  exists r,
    epoch_body RandomState rand shuffle compute_bleu generate_and_show
               X indX XY IM prog (length X / self.(batchsize)) st e = Some r /\
    inv (fst r).
Proof.
  intros Hinv. unfold epoch_body. destruct st.(done).
  - exists (st, true). split; [reflexivity | exact Hinv].
  - destruct (for_loop_total
                (minibatch_body rand compute_bleu generate_and_show
                                X indX XY IM prog
                                (length X / self.(batchsize)))
                inv (seq 0 (length X / self.(batchsize))))
      with (b := epoch_start RandomState shuffle st e)
      as (r & El & Hr).
    + intros b a Ha Hb. apply in_seq in Ha.
      apply minibatch_body_total; [assumption | lia].
    + now apply epoch_start_inv.
    + unfold for_break. rewrite El. cbn [bind].
      destruct Hr as (Hsh & Hd & Hs & Hinds & Hlen).
      destruct (scheduled_step_total (model (fst r)))
        as (s2 & E & Hp2 & Hd2 & Hs2).
      { injection Hs as _ _ HT _. rewrite HT. exact T_not_zero. }
      rewrite E. cbn [bind]. eexists. split; [reflexivity|].
      cbn [fst]. unfold inv. cbn [model inds].
      split; [exact (Hp2 Hsh)|].
      split; [|split; [|split; assumption]]; congruence.
Qed.

Lemma init_params_settings (s0 s1 : mlbl)
  (embed_map : option (list (string * vec)))
  (count_dict : list (nat * string)) :
  init_params RandomState rand randn randn3 s0 embed_map count_dict
  = Some s1 ->
  (V s1, K s1, D s1, h s1, context s1)
  = (V s0, K s0, D s0, h s0, context s0) /\
  (batchsize s1, maxepoch s1, T s1, seed s1)
  = (batchsize s0, maxepoch s0, T s0, seed s0).
Proof.
  unfold init_params. intros H.
  match type of H with bind ?m _ = _ => destruct m as [[R0 g0]|] end;
    [|discriminate].
  cbn [bind] in H.
  destruct (randn3 g0 _ _ _) as [N3 g1].
  destruct (randn g1 _ _) as [N2 g2].
  destruct (rand g2 _ _) as [U g3].
  injection H as <-. split; reflexivity.
Qed.


(** On well-formed data, with generators that return what they are asked
    for and without pre-trained embeddings, [train] returns: no step of the
    run raises, whatever the thresholds in [prog], and the model it leaves
    is well-shaped. *)
Theorem train_returns (g : rng) (count_dict : list (nat * string)) :
  exists b st,
    train RandomState rand randn randn3 shuffle compute_bleu
          generate_and_show X indX XY IM prog self g count_dict None
    = Some (b, st) /\
    params_shaped st.(model).
Proof.
  destruct dims_positive as (HV & HK & HD & Hh).
  destruct (init_params_shaped rng RandomState rand randn randn3
              rand_shape randn_shape randn3_shape
              (set_start self self.(seed)) None count_dict HV HK HD Hh I)
    as [Hex Hsh].
  destruct (Hex eq_refl) as (self1 & Hi).
  destruct (init_params_settings _ _ _ _ Hi) as [Hd Hs].
  cbn [V K D h context batchsize maxepoch T seed set_start set_sched]
    in Hd, Hs.
  pose proof Hs as Hs'. injection Hs' as Hbs Hme HT Hseed.
  unfold train. rewrite Hi. cbn [bind].
  change (batchsize (set_step self1 0)) with (batchsize self1).
  change (maxepoch (set_step self1 0)) with (maxepoch self1).
  rewrite Hbs, Hme.
  destruct (Nat.eqb_spec self.(batchsize) 0) as [E | _];
    [now apply batchsize_positive in E|].
  cbn [bind].
  destruct (for_loop_total
              (epoch_body RandomState rand shuffle compute_bleu
                          generate_and_show X indX XY IM prog
                          (length X / self.(batchsize)))
              inv (seq 0 self.(maxepoch)))
    with (b := initial_run X (set_step self1 0) g)
    as (r & El & Hr).
  - intros b a _ Hb. now apply epoch_body_total.
  - unfold inv, initial_run. cbn [model inds].
    split; [exact (Hsh self1 Hi)|]. split; [exact Hd|]. split; [exact Hs|].
    split; [|apply length_seq].
    apply Forall_forall. intros i Hin. apply in_seq in Hin. lia.
  - unfold for_break. rewrite El. cbn [bind].
    do 2 eexists. split; [reflexivity|]. apply Hr.
Qed.

End TrainTotal.

Lemma train_returns_witness :
  exists b st,
    train (F := Rs) demo_RandomState demo_rand demo_randn demo_randn3
          demo_shuffle (demo_bleu (F := Rs) 1%R) demo_show
          demo_X demo_indX demo_XY (demo_IM (F := Rs) 0%R) demo_prog
          (tiny (F := Rs) 1 (1/2) (1/2) (1/2) (PyInt 20) 0 3 1 2)%R
          0 [] None
    = Some (b, st) /\
    params_shaped st.(model).
Proof.
  apply (train_returns (F := Rs) nat demo_RandomState demo_rand demo_randn
           demo_randn3 demo_shuffle (demo_bleu (F := Rs) 1%R) demo_show
           demo_X demo_indX demo_XY (demo_IM (F := Rs) 0%R) demo_prog
           (tiny (F := Rs) 1 (1/2) (1/2) (1/2) (PyInt 20) 0 3 1 2)%R).
  - apply demo_rand_shape.
  - apply demo_randn_shape.
  - apply demo_randn3_shape.
  - intros g l. apply Permutation_rev.
  - intros s g. discriminate.
  - simpl. lia.
  - simpl. lia.
  - reflexivity.
  - repeat constructor; simpl; lia.
  - repeat constructor.
  - reflexivity.
  - unfold demo_indX.
    repeat (apply Forall_cons;
            [unfold demo_IM; change (0 / 5)%Z with 0%Z; simpl; lia|]).
    apply Forall_nil.
  - repeat constructor.
Defined.

(** ** The minibatches of an epoch *)

Local Close Scope R_scope.


Section EpochFacts.
Context {F : Scalar}.
Variable rng : Type.
Variable RandomState : Z -> rng.
Variable rand : rng -> nat -> nat -> mat * rng.
Variable randn : rng -> nat -> nat -> mat * rng.
Variable randn3 : rng -> nat -> nat -> nat -> tensor * rng.
Variable shuffle : rng -> list nat -> list nat * rng.
Variable compute_bleu : mlbl -> rng -> list num * rng.
Variable generate_and_show : mlbl -> rng -> rng.
Variable X : list (list Z).
Variable indX : list Z.
Variable XY : mat.
Variable IM : mat.
Variable prog : progress.

(** [prng.shuffle(inds)] rearranges the index array. *)
Hypothesis shuffle_perm : forall g l, Permutation l (fst (shuffle g l)).

Let body := minibatch_body rand compute_bleu generate_and_show X indX XY IM prog.
Let ebody :=
  epoch_body RandomState rand shuffle compute_bleu generate_and_show
             X indX XY IM prog.
Let reaches :=
  train_reaches RandomState rand randn randn3 shuffle compute_bleu
                generate_and_show X indX XY IM prog.









End EpochFacts.

(** ** Runs of the one-entry model *)








